(** * spdx3tohtml: the annotate-and-render engine of [main.py]

    A shallow embedding of [src/spdx3tohtml/main.py] (class [OutputFile],
    its helper functions and [main]) together with the properties its
    specification states about it and further properties of the code.

    Conventions of the embedding.
    - A Python value produced by [json.load] is a [json]; Python's [None] is
      [JNull].  Numbers are the integers ([int] is a [Z]); fractional
      literals are not part of the model.
    - A Python [str] is a [string] whose characters are read as code points
      below 256.
    - A [dict] is the list of its items in insertion order; a dict has no
      two items with the same key, so that [obj[k]] is the value of the one
      item whose key is [k] ([dict_get_item]).
    - Operations that Python type-checks at run time return a [result];
      the exception raised is the error.
    - The attributes of [OutputFile] that change during a render
      ([anchors], [ids], [checked_urls], the text written to [f]) and the
      sequence of requests sent to the network form the [state]; methods
      are functions in the monad [M], which keeps the state when an
      exception unwinds.
    - The network is a function from the requests made so far and the URL
      requested to what [urlopen] does; the properties hold for every
      network.  The requests recorded are those that check a documentation
      URL; loading the context document in [__init__] is a function of its
      own, from the value of [@context] to the document read or the
      exception raised.
    - [main] is modelled from the point where the input file is read and
      the output file is open; the text written is the content of that
      file.
    - Limits of the interpreter (recursion depth, memory) are not modelled.

    The file has three parts: the program, the definitions the properties
    are stated with, and the properties with their proofs. *)

From Stdlib Require Import String Ascii List ZArith Bool Arith Lia DecimalString.
Import ListNotations.

Set Warnings "-register-all".

Local Open Scope list_scope.
Local Open Scope string_scope.

(** ** Python strings *)

Module PyStr.

(** [s * n] for a string [s]. *)
Fixpoint repeat (s : string) (n : nat) : string :=
  match n with
  | O => EmptyString
  | S n' => s ++ repeat s n'
  end.

(** [s.startswith(p)]. *)
Definition startswith (s p : string) : bool := String.prefix p s.

(** [t in s]: [t] occurs in [s] as a substring. *)
Fixpoint contains (t s : string) : bool :=
  String.prefix t s ||
  match s with
  | EmptyString => false
  | String _ s' => contains t s'
  end.

(** [s.lstrip(c)] and [s.rstrip(c)] for a one-character [c]. *)
Fixpoint lstrip (c : ascii) (s : string) : string :=
  match s with
  | EmptyString => EmptyString
  | String a s' => if Ascii.eqb a c then lstrip c s' else s
  end.

Fixpoint rstrip (c : ascii) (s : string) : string :=
  match s with
  | EmptyString => EmptyString
  | String a s' =>
      match rstrip c s' with
      | EmptyString => if Ascii.eqb a c then EmptyString else String a EmptyString
      | r => String a r
      end
  end.

Definition strip (c : ascii) (s : string) : string := rstrip c (lstrip c s).

(** [s.rpartition(c)] when [c] occurs in [s]: the text before and after the
    last occurrence. *)
Fixpoint rpartition (c : ascii) (s : string) : option (string * string) :=
  match s with
  | EmptyString => None
  | String a s' =>
      match rpartition c s' with
      | Some (h, t) => Some (String a h, t)
      | None => if Ascii.eqb a c then Some (EmptyString, s') else None
      end
  end.

(** [a, b, c = s.rsplit(sep, 2)]: the three parts when [sep] occurs at
    least twice, [None] (the unpacking raises [ValueError]) otherwise. *)
Definition rsplit2 (c : ascii) (s : string) : option (string * string * string) :=
  match rpartition c s with
  | Some (h, last) =>
      match rpartition c h with
      | Some (h', mid) => Some (h', mid, last)
      | None => None
      end
  | None => None
  end.

(** [s.lower()] on the letters A-Z. *)
Definition lower_char (a : ascii) : ascii :=
  let n := nat_of_ascii a in
  if (65 <=? n)%nat && (n <=? 90)%nat then ascii_of_nat (n + 32) else a.

Fixpoint lower (s : string) : string :=
  match s with
  | EmptyString => EmptyString
  | String a s' => String (lower_char a) (lower s')
  end.

(** [s[i]] for an index already normalised to [0 <= i]. *)
Fixpoint nth_char (i : nat) (s : string) : option string :=
  match s, i with
  | EmptyString, _ => None
  | String a _, O => Some (String a EmptyString)
  | String _ s', S i' => nth_char i' s'
  end.

(** Iterating a string yields its characters as one-character strings. *)
Fixpoint chars (s : string) : list string :=
  match s with
  | EmptyString => []
  | String a s' => String a EmptyString :: chars s'
  end.

End PyStr.

(** ** [html.escape] and [json.dumps] *)

(** The double-quote character and the one-character string holding it. *)
Definition dquote : ascii := "034".
Definition dq : string := String dquote EmptyString.

(** [html.escape(s)] with its default [quote=True]. *)
Definition escape_char (a : ascii) : string :=
  if Ascii.eqb a "&" then "&amp;"
  else if Ascii.eqb a "<" then "&lt;"
  else if Ascii.eqb a ">" then "&gt;"
  else if Ascii.eqb a dquote then "&quot;"
  else if Ascii.eqb a "'" then "&#x27;"
  else String a EmptyString.

Fixpoint html_escape (s : string) : string :=
  match s with
  | EmptyString => EmptyString
  | String a s' => escape_char a ++ html_escape s'
  end.

Definition hex_digit (n : nat) : ascii :=
  if (n <? 10)%nat then ascii_of_nat (48 + n) else ascii_of_nat (87 + n).

(** The escape [json.dumps] writes for one character (ensure_ascii is on):
    the short escapes, [\u00xx] for every other character outside
    space..tilde, the character itself otherwise. *)
Definition dumps_char (a : ascii) : string :=
  let n := nat_of_ascii a in
  if Ascii.eqb a dquote then String "\" dq
  else if Ascii.eqb a "\" then "\\"
  else if (n =? 10)%nat then "\n"
  else if (n =? 13)%nat then "\r"
  else if (n =? 9)%nat then "\t"
  else if (n =? 8)%nat then "\b"
  else if (n =? 12)%nat then "\f"
  else if (n <? 32)%nat || (126 <? n)%nat then
    "\u00" ++ String (hex_digit (n / 16)) (String (hex_digit (n mod 16)) EmptyString)
  else String a EmptyString.

Fixpoint dumps_body (s : string) : string :=
  match s with
  | EmptyString => EmptyString
  | String a s' => dumps_char a ++ dumps_body s'
  end.

(** [json.dumps(s)] for a string. *)
Definition dumps_str (s : string) : string := dq ++ dumps_body s ++ dq.

(** [json.dumps(n)] for an integer. *)
Definition dumps_int (n : Z) : string := NilZero.string_of_int (Z.to_int n).

(** ** Python values *)

Inductive json : Type :=
| JNull
| JBool (b : bool)
| JNum (n : Z)
| JStr (s : string)
| JList (l : list json)
| JObj (d : list (string * json)).

Definition dict : Type := list (string * json).

(** The exceptions the program can raise or let through. *)
Inductive exn : Type :=
| KeyError (key : json)
| TypeError
| AttributeError
| IndexError
| HTTPError (code : Z)
| URLError (reason : string)
| Exception (msg : string).

Inductive result (A : Type) : Type :=
| Ok (a : A)
| Err (e : exn).
Arguments Ok {A} a.
Arguments Err {A} e.

Definition is_ok {A} (r : result A) : bool :=
  match r with Ok _ => true | Err _ => false end.

Definition rbind {A B} (r : result A) (f : A -> result B) : result B :=
  match r with
  | Ok a => f a
  | Err e => Err e
  end.

Fixpoint dict_get (k : string) (d : dict) : option json :=
  match d with
  | [] => None
  | (k', v) :: d' => if String.eqb k k' then Some v else dict_get k d'
  end.

Definition dict_mem (k : string) (d : dict) : bool :=
  match dict_get k d with Some _ => true | None => false end.

(** [d.get(k, default)]. *)
Definition dict_get_default (k : string) (d : dict) (default : json) : json :=
  match dict_get k d with Some v => v | None => default end.

Definition keys (d : dict) : list string := map fst d.

(** [bool(v)]. *)
Definition py_truthy (v : json) : bool :=
  match v with
  | JNull => false
  | JBool b => b
  | JNum n => negb (n =? 0)%Z
  | JStr s => negb (String.eqb s EmptyString)
  | JList l => match l with [] => false | _ => true end
  | JObj d => match d with [] => false | _ => true end
  end.

Definition Z_of_bool (b : bool) : Z := if b then 1%Z else 0%Z.

(** [a == b]: [bool] is a subclass of [int], lists compare element by
    element, dicts compare as mappings. *)
Fixpoint py_eq (a b : json) {struct a} : bool :=
  match a, b with
  | JNull, JNull => true
  | JBool x, JBool y => Bool.eqb x y
  | JBool x, JNum n => (Z_of_bool x =? n)%Z
  | JNum n, JBool y => (n =? Z_of_bool y)%Z
  | JNum n, JNum m => (n =? m)%Z
  | JStr s, JStr t => String.eqb s t
  | JList l, JList m =>
      (fix go (l m : list json) {struct l} : bool :=
         match l, m with
         | [], [] => true
         | x :: l', y :: m' => py_eq x y && go l' m'
         | _, _ => false
         end) l m
  | JObj d, JObj e =>
      (length d =? length e)%nat &&
      (fix go (d : list (string * json)) {struct d} : bool :=
         match d with
         | [] => true
         | (k, v) :: d' =>
             match dict_get k e with
             | Some w => py_eq v w
             | None => false
             end && go d'
         end) d
  | _, _ => false
  end.

(** Lists and dicts cannot be members of a set or keys of a dict. *)
Definition hashable (v : json) : bool :=
  match v with
  | JList _ | JObj _ => false
  | _ => true
  end.

(** A Python [set] of hashable values, as the list of its members in the
    order they were added. *)
Definition pyset : Type := list json.

Definition set_mem (x : json) (s : pyset) : result bool :=
  if hashable x then Ok (existsb (py_eq x) s) else Err TypeError.

Definition set_add (x : json) (s : pyset) : result pyset :=
  if hashable x then Ok (if existsb (py_eq x) s then s else (s ++ [x])%list)
  else Err TypeError.

(** An integer used as an index. *)
Definition as_index (x : json) : option Z :=
  match x with
  | JNum n => Some n
  | JBool b => Some (Z_of_bool b)
  | _ => None
  end.

(** [l[i]] with Python's negative indices. *)
Definition list_index {A} (l : list A) (i : Z) : option A :=
  let len := Z.of_nat (length l) in
  let j := if (i <? 0)%Z then (i + len)%Z else i in
  if (j <? 0)%Z then None else nth_error l (Z.to_nat j).

Definition str_index (s : string) (i : Z) : option string :=
  let len := Z.of_nat (String.length s) in
  let j := if (i <? 0)%Z then (i + len)%Z else i in
  if (j <? 0)%Z then None else PyStr.nth_char (Z.to_nat j) s.

(** [x in c]. *)
Definition py_in (x c : json) : result bool :=
  match c with
  | JObj d =>
      match x with
      | JStr k => Ok (dict_mem k d)
      | JList _ | JObj _ => Err TypeError
      | _ => Ok false
      end
  | JStr s =>
      match x with
      | JStr t => Ok (PyStr.contains t s)
      | _ => Err TypeError
      end
  | JList l => Ok (existsb (py_eq x) l)
  | _ => Err TypeError
  end.

(** [c[x]]. *)
Definition py_getitem (c x : json) : result json :=
  match c with
  | JObj d =>
      match x with
      | JStr k =>
          match dict_get k d with
          | Some v => Ok v
          | None => Err (KeyError x)
          end
      | JList _ | JObj _ => Err TypeError
      | _ => Err (KeyError x)
      end
  | JStr s =>
      match as_index x with
      | Some i =>
          match str_index s i with
          | Some ch => Ok (JStr ch)
          | None => Err IndexError
          end
      | None => Err TypeError
      end
  | JList l =>
      match as_index x with
      | Some i =>
          match list_index l i with
          | Some v => Ok v
          | None => Err IndexError
          end
      | None => Err TypeError
      end
  | _ => Err TypeError
  end.

(** The values a [for] loop over [c] visits. *)
Definition py_iter (c : json) : result (list json) :=
  match c with
  | JList l => Ok l
  | JObj d => Ok (map JStr (keys d))
  | JStr s => Ok (map JStr (PyStr.chars s))
  | _ => Err TypeError
  end.

(** [o.get(k, default)]: only a dict has the method. *)
Definition py_get (o : json) (k : string) (default : json) : result json :=
  match o with
  | JObj d => Ok (dict_get_default k d default)
  | _ => Err AttributeError
  end.

(** [s + x] for a string [s]. *)
Definition py_str_add (s : string) (x : json) : result string :=
  match x with
  | JStr t => Ok (s ++ t)
  | _ => Err TypeError
  end.

(** [html.escape(x)]: calls [x.replace], which only a string has. *)
Definition py_html_escape (x : json) : result string :=
  match x with
  | JStr s => Ok (html_escape s)
  | _ => Err AttributeError
  end.

(** ** Module-level constants and helpers of [main.py] *)

Definition span_token (tok : string) : string :=
  "<span class=" ++ dq ++ "token" ++ dq ++ ">" ++ tok ++ "</span>".

Definition LBRACE : string := Eval cbv in span_token "{".
Definition RBRACE : string := Eval cbv in span_token "}".
Definition LBRACKET : string := Eval cbv in span_token "[".
Definition RBRACKET : string := Eval cbv in span_token "]".
Definition QUOTE : string := Eval cbv in span_token dq.
Definition COLON : string := Eval cbv in span_token ":".
Definition COMMA : string := Eval cbv in span_token ",".

Definition NL : string := String "010" EmptyString.

(** [string(s, cls)]. *)
Definition string_ (s : string) (cls : string) : string :=
  QUOTE ++ ("<span class=" ++ dq ++ cls ++ dq ++ ">")
        ++ html_escape (PyStr.strip dquote (dumps_str s))
        ++ "</span>" ++ QUOTE.

Definition indent_str (i : nat) : string := PyStr.repeat "  " i.

(** [get_obj_id(obj)]: [obj.get("@id", obj.get("spdxId"))]; the default is
    evaluated first. *)
Definition get_obj_id (obj : json) : result json :=
  rbind (py_get obj "spdxId" JNull) (fun d => py_get obj "@id" d).

(** The three labels [get_doc_url] receives as [typ] or assigns to it. *)
Inductive kind : Type := Classes | Properties | Vocabularies.

Definition kind_name (k : kind) : string :=
  match k with
  | Classes => "Classes"
  | Properties => "Properties"
  | Vocabularies => "Vocabularies"
  end.

Definition DOC_BASE : string := "https://spdx.github.io/spdx-spec/v3.0.1/model/".

(** ** The render state and its monad *)

(** What [urllib.request.urlopen(url)] does: it returns, or raises. *)
Inductive response : Type :=
| Reachable
| Raises (e : exn).

(** The network: the answer to a request may depend on the requests made
    before it. *)
Definition network : Type := list string -> string -> response.

Record state : Type := mkState {
  anchors : pyset;              (* self.anchors *)
  ids : pyset;                  (* self.ids *)
  checked_urls : list string;   (* self.checked_urls *)
  out : string;                 (* the text written to self.f *)
  requests : list string        (* the urls opened so far, oldest first *)
}.

Definition set_anchors (x : pyset) (st : state) : state :=
  mkState x (ids st) (checked_urls st) (out st) (requests st).
Definition set_ids (x : pyset) (st : state) : state :=
  mkState (anchors st) x (checked_urls st) (out st) (requests st).
Definition set_checked_urls (x : list string) (st : state) : state :=
  mkState (anchors st) (ids st) x (out st) (requests st).
Definition set_out (x : string) (st : state) : state :=
  mkState (anchors st) (ids st) (checked_urls st) x (requests st).
Definition set_requests (x : list string) (st : state) : state :=
  mkState (anchors st) (ids st) (checked_urls st) (out st) x.

(** The state [OutputFile.__init__] leaves. *)
Definition init_state : state := mkState [] [] [] EmptyString [].

Definition M (A : Type) : Type := state -> result A * state.

Definition ret {A} (a : A) : M A := fun st => (Ok a, st).

Definition raise {A} (e : exn) : M A := fun st => (Err e, st).

Definition bind {A B} (m : M A) (f : A -> M B) : M B :=
  fun st =>
    match m st with
    | (Ok a, st') => f a st'
    | (Err e, st') => (Err e, st')
    end.

Definition lift {A} (r : result A) : M A := fun st => (r, st).

Declare Scope py_scope.
Delimit Scope py_scope with py.
Notation "x <- m ;; k" := (bind m (fun x => k))
  (at level 61, m at next level, right associativity) : py_scope.
Notation "' pat <- m ;; k" := (bind m (fun x => match x with pat => k end))
  (at level 61, pat pattern, m at next level, right associativity) : py_scope.
Notation "m ;; k" := (bind m (fun _ => k))
  (at level 61, right associativity) : py_scope.
Local Open Scope py_scope.

(** [self.f.write(s)]. *)
Definition emit (s : string) : M unit :=
  fun st => (Ok tt, set_out (out st ++ s) st).

(** [self.newline()]. *)
Definition newline : M unit := emit NL.

(** [if c: self.f.write(s)]. *)
Definition emit_if (c : bool) (s : string) : M unit :=
  if c then emit s else ret tt.

Fixpoint for_each {A} (l : list A) (body : A -> M unit) : M unit :=
  match l with
  | [] => ret tt
  | x :: l' => body x ;; for_each l' body
  end.

Definition str_mem (s : string) (l : list string) : bool :=
  existsb (String.eqb s) l.

Definition str_add (s : string) (l : list string) : list string :=
  if str_mem s l then l else (l ++ [s])%list.

(** [self.ids.add(x)]. *)
Definition add_id (x : json) : M unit :=
  fun st =>
    match set_add x (ids st) with
    | Ok s => (Ok tt, set_ids s st)
    | Err e => (Err e, st)
    end.

(** ** [OutputFile.get_anchor] *)

(** Lines 114-125: the anchor before the set is consulted. *)
Definition anchor_candidate (name : json) (prefix : string) (context : json)
  : result json :=
  rbind (py_in name context) (fun present =>
  rbind (if present : bool then
           rbind (py_getitem context name) (fun anchor =>
             match anchor with
             | JObj d => Ok (dict_get_default "@id" d JNull)
             | _ => Ok anchor
             end)
         else Ok JNull) (fun anchor =>
  if py_truthy anchor then Ok anchor
  else rbind (py_str_add (prefix ++ "-") name) (fun s => Ok (JStr s)))).

(** The result is [JNull] (Python's [None]) when the anchor was handed out
    before. *)
Definition get_anchor (name : json) (prefix : string) (context : json) : M json :=
  anchor <- lift (anchor_candidate name prefix context) ;;
  fun st =>
    match set_mem anchor (anchors st) with
    | Err e => (Err e, st)
    | Ok true => (Ok JNull, st)
    | Ok false => (Ok anchor, set_anchors (anchors st ++ [anchor])%list st)
    end.

(** ** [OutputFile.index_data] *)

(** The body of the loop over [@graph]. *)
Definition index_node (obj : json) : M unit :=
  obj_id <- lift (get_obj_id obj) ;;
  if negb (py_truthy obj_id) then ret tt
  else
    add_id obj_id ;;
    typ <- lift (py_getitem obj (JStr "type")) ;;
    if py_eq typ (JStr "SpdxDocument") then
      imports <- lift (rbind (py_get obj "import" (JList [])) py_iter) ;;
      for_each imports (fun i =>
        x <- lift (py_getitem i (JStr "externalSpdxId")) ;;
        add_id x)
    else ret tt.

Definition index_data (data : dict) : M unit :=
  (fun st => (Ok tt, set_ids [] (set_anchors [] st))) ;;
  graph <- lift (py_iter (dict_get_default "@graph" data (JList []))) ;;
  for_each graph index_node.

(** ** [OutputFile.get_doc_url] *)

(** Lines 145-164: the sub-context, and the IRI with the label to file it
    under when the name resolves. *)
Definition resolve (typ : option kind) (name : string) (context : json)
  : result (json * option (json * kind)) :=
  rbind (py_in (JStr "@vocab") context) (fun vocab =>
  if vocab : bool then
    rbind (py_getitem context (JStr "@vocab")) (fun rdf_uri =>
    Ok (context, Some (rdf_uri, Vocabularies)))
  else
    match typ with
    | None => Ok (context, None)
    | Some t =>
        rbind (py_in (JStr name) context) (fun present =>
        if negb present then Ok (context, None)
        else
          rbind (py_getitem context (JStr name)) (fun rdf_uri =>
          match rdf_uri with
          | JObj d =>
              let sub_context := dict_get_default "@context" d context in
              match dict_get "@id" d with
              | Some i => Ok (sub_context, Some (i, t))
              | None => Ok (sub_context, None)
              end
          | _ => Ok (context, Some (rdf_uri, t))
          end))
    end).

(** Lines 165-169: [None] when the unpacking raises [ValueError]. *)
Definition doc_url (typ : kind) (rdf_uri : json) : result (option string) :=
  match rdf_uri with
  | JStr s =>
      match PyStr.rsplit2 "/" (PyStr.rstrip "/" s) with
      | Some (_, profile, n) =>
          Ok (Some (DOC_BASE ++ profile ++ "/" ++ kind_name typ ++ "/" ++ n))
      | None => Ok None
      end
  | _ => Err AttributeError
  end.

Definition not_valid_message (url : string) : string :=
  "Url '" ++ url ++ " is not valid".

Section Render.

Variable urlopen : network.

(** Lines 171-180. *)
Definition check_url (url : string) : M unit :=
  fun st =>
    if str_mem url (checked_urls st) then
      (Ok tt, set_checked_urls (str_add url (checked_urls st)) st)
    else
      let st1 := set_requests (requests st ++ [url])%list st in
      match urlopen (requests st) url with
      | Reachable =>
          (Ok tt, set_checked_urls (str_add url (checked_urls st1)) st1)
      | Raises (HTTPError code) =>
          if (code =? 404)%Z then (Err (Exception (not_valid_message url)), st1)
          else (Err (HTTPError code), st1)
      | Raises e => (Err e, st1)
      end.

Definition get_doc_url (typ : option kind) (name : string) (context : json)
  : M (option string * json * option string) :=
  ' (sub_context, found) <- lift (resolve typ name context) ;;
  match found with
  | None => ret (None, sub_context, None)
  | Some (rdf_uri, typ') =>
      u <- lift (doc_url typ' rdf_uri) ;;
      match u with
      | None => ret (None, sub_context, None)
      | Some url =>
          check_url url ;;
          ret (Some url, sub_context, Some (PyStr.lower (kind_name typ')))
      end
  end.

(** ** [OutputFile.write_value] and the methods it calls *)

Definition a_open (href : string) : string :=
  "<a href=" ++ dq ++ href ++ dq ++ ">".

Definition span_id_open (id : string) : string :=
  "<span id=" ++ dq ++ id ++ dq ++ ">".

Definition span_class (cls text : string) : string :=
  "<span class=" ++ dq ++ cls ++ dq ++ ">" ++ text ++ "</span>".

(** How an f-string prints a class name that may be [None]. *)
Definition py_format (c : option string) : string :=
  match c with Some c' => c' | None => "None" end.

(** The string case of [write_value], lines 186-200. *)
Definition write_str (v : string) (context : json) (typ : option kind) : M unit :=
  ' (doc_url, _, css_class) <- get_doc_url typ v context ;;
  in_ids <- (fun st => (Ok (existsb (py_eq (JStr v)) (ids st)), st)) ;;
  if in_ids : bool then
    emit (a_open ("#" ++ html_escape v)) ;;
    emit (string_ v "ident") ;;
    emit "</a>"
  else
    match doc_url with
    | Some url =>
        emit (a_open (html_escape url)) ;;
        emit (string_ v (py_format css_class)) ;;
        emit "</a>"
    | None =>
        if PyStr.startswith v "http://" || PyStr.startswith v "https://" then
          emit (a_open (html_escape v)) ;;
          emit (string_ v "link") ;;
          emit "</a>"
        else emit (string_ v "string")
    end.

Section Body.

(** The methods call each other through [self]; the recursive call is a
    parameter until the knot is tied in [write_value]. *)
Variable write_value : json -> nat -> json -> option kind -> M unit.

Definition write_key_value_body (k : string) (v : json) (indent : nat)
  (context : json) : M unit :=
  anchor <- get_anchor (JStr k) "property" context ;;
  (if py_truthy anchor then
     id <- lift (py_html_escape anchor) ;; emit (span_id_open id)
   else ret tt) ;;
  emit (indent_str indent) ;;
  ' (doc_url, sub_context, css_class) <- get_doc_url (Some Properties) k context ;;
  match doc_url with
  | Some url => emit (a_open (html_escape url))
  | None => ret tt
  end ;;
  emit (string_ k (match css_class with Some c => c | None => "string" end)) ;;
  match doc_url with
  | Some _ => emit "</a>"
  | None => ret tt
  end ;;
  emit (COLON ++ " ") ;;
  write_value v indent sub_context
    (if String.eqb k "type" then Some Classes else None) ;;
  emit_if (py_truthy anchor) "</span>".

(** The loop of [write_list]: every element but the last is followed by a
    comma. *)
Fixpoint write_items (lst : list json) (indent : nat) (context : json) : M unit :=
  match lst with
  | [] => ret tt
  | i :: rest =>
      emit (indent_str (indent + 1)) ;;
      write_value i (indent + 1) context None ;;
      match rest with
      | [] => newline
      | _ :: _ => emit COMMA ;; newline ;; write_items rest indent context
      end
  end.

Definition write_list_body (lst : list json) (indent : nat) (context : json) : M unit :=
  emit LBRACKET ;;
  newline ;;
  write_items lst indent context ;;
  emit (indent_str indent ++ RBRACKET).

(** The loop of [write_obj] over [keys]; in a dict [obj[k]] is the value of
    the item whose key is [k]. *)
Fixpoint write_pairs (items : list (string * json)) (indent : nat) (context : json)
  : M unit :=
  match items with
  | [] => ret tt
  | (k, v) :: rest =>
      write_key_value_body k v (indent + 1) context ;;
      match rest with
      | [] => newline
      | _ :: _ => emit COMMA ;; newline ;; write_pairs rest indent context
      end
  end.

Definition write_obj_body (obj : dict) (indent : nat) (context : json) : M unit :=
  anchor <- match dict_get "type" obj with
            | Some t => get_anchor t "class" context
            | None => ret JNull
            end ;;
  (if py_truthy anchor then
     id <- lift (py_html_escape anchor) ;; emit (span_id_open id)
   else ret tt) ;;
  obj_id <- lift (get_obj_id (JObj obj)) ;;
  (if py_truthy obj_id then
     id <- lift (py_html_escape obj_id) ;; emit (span_id_open id)
   else ret tt) ;;
  let external_obj_id := dict_get_default "externalSpdxId" obj JNull in
  (if py_truthy external_obj_id then
     id <- lift (py_html_escape external_obj_id) ;; emit (span_id_open id)
   else ret tt) ;;
  emit LBRACE ;;
  newline ;;
  write_pairs obj indent context ;;
  emit (indent_str indent ++ RBRACE) ;;
  emit_if (py_truthy external_obj_id) "</span>" ;;
  emit_if (py_truthy obj_id) "</span>" ;;
  emit_if (py_truthy anchor) "</span>".

End Body.

Fixpoint write_value (v : json) (indent : nat) (context : json) (typ : option kind)
  {struct v} : M unit :=
  match v with
  | JStr s => write_str s context typ
  | JObj d => write_obj_body write_value d indent context
  | JList l => write_list_body write_value l indent context
  | JBool b => emit (span_class "boolean" (if b then "true" else "false"))
  | JNum n => emit (span_class "number" (dumps_int n))
  | JNull => emit (span_class "number" "null")
  end.

Definition write_key_value := write_key_value_body write_value.
Definition write_list := write_list_body write_value.
Definition write_obj := write_obj_body write_value.

(** ** [OutputFile.write] *)

Definition legend_row (cls text : string) : string :=
  "<tr><td>" ++ span_class cls text ++ "</td></tr>" ++ NL.

(** [data] is the dict [__init__] read [@context] from; [context_doc] is the
    document fetched from that URL. *)
Definition write (data : dict) (context_doc : json) : M unit :=
  index_data data ;;
  emit ("<table>" ++ NL) ;;
  emit ("<tr><th>Legend</th></tr>" ++ NL) ;;
  emit (legend_row "string" "String") ;;
  emit (legend_row "classes" "SPDX Class (link)") ;;
  emit (legend_row "properties" "SPDX Property (link)") ;;
  emit (legend_row "vocabularies" "SPDX Vocabulary (link)") ;;
  emit (legend_row "ident" "Identifier IRI (link)") ;;
  emit ("</table>" ++ NL) ;;
  emit ("<pre class=" ++ dq ++ "code" ++ dq ++ "><code>") ;;
  context <- lift (py_getitem context_doc (JStr "@context")) ;;
  write_obj data 0 context ;;
  emit "</code></pre>".

End Render.

(** ** [STYLE], [OutputFile.__init__] and [main] *)

Definition line (s : string) : string := s ++ NL.

(** [STYLE]: [textwrap.dedent] takes away the four spaces every line of
    the literal begins with and empties its last line. *)
Definition STYLE : string :=
  NL
  ++ line "a {"
  ++ line "    text-decoration: none;"
  ++ line "}"
  ++ line "code {"
  ++ line "}"
  ++ line "/*"
  ++ line "pre.code {"
  ++ line "    white-space: pre-wrap;"
  ++ line "}"
  ++ line "pre.code::before {"
  ++ line "    counter-reset: listing;"
  ++ line "}"
  ++ line "pre.code code {"
  ++ line "    counter-increment: listing;"
  ++ line "    text-align: left;"
  ++ line "    float: left;"
  ++ line "    clear: left;"
  ++ line "}"
  ++ line "pre.code code::before {"
  ++ line ("    content: counter(listing) " ++ dq ++ " " ++ dq ++ ";")
  ++ line "    display: inline-block;"
  ++ line "    width: 4em;"
  ++ line "    padding-left: auto;"
  ++ line "    margin-left: auto;"
  ++ line "    text-align: right;"
  ++ line "}"
  ++ line "*/"
  ++ line ".token {"
  ++ line "    color: #0000ff;"
  ++ line "}"
  ++ line ".string {"
  ++ line "    color: #ff0000;"
  ++ line "}"
  ++ line ".ident {"
  ++ line "    color: #0080ff;"
  ++ line "}"
  ++ line ".number {"
  ++ line "    color: #000000;"
  ++ line "}"
  ++ line ".boolean {"
  ++ line "    color: #000000;"
  ++ line "}"
  ++ line ".link {"
  ++ line "    color: #0000ff;"
  ++ line "}"
  ++ line ".properties {"
  ++ line "    color: #008000;"
  ++ line "}"
  ++ line ".classes {"
  ++ line "    color: #800000;"
  ++ line "}"
  ++ line ".vocabularies {"
  ++ line "    color: #800080;"
  ++ line "}"
  ++ line ":target {"
  ++ line "    background-color: yellow;"
  ++ line "}".

(** The three texts [main] writes around the rendering, dedented. *)
Definition PAGE_HEAD : string :=
  line "<!DOCTYPE html>" ++ line "<html>" ++ line "<head>" ++ line "<style>".

Definition PAGE_BODY : string :=
  NL ++ line "</style>" ++ line "</head>" ++ "<body>".

Definition PAGE_END : string := line "</body>" ++ line "</html>".

Section Main.

Variable urlopen : network.

(** [json.loads(url.read())] for [url] the response of
    [urllib.request.urlopen(x)]: the document read, or the exception raised
    on the way. *)
Variable load_json : json -> result json.

(** [OutputFile.__init__(f, data)]; the result is [self.context]. *)
Definition __init__ (data : json) : M json :=
  (fun st => (Ok tt, set_checked_urls [] st)) ;;
  url <- lift (py_getitem data (JStr "@context")) ;;
  lift (load_json url).

(** [main] from the point where the output file is open: [data] is what
    [json.load] read from the input file, the text written is the content
    of the output file, the result is the exit status.  A [data] that is not
    a dict has no [get]. *)
Definition main (data : json) : M Z :=
  context_doc <- __init__ data ;;
  emit PAGE_HEAD ;;
  emit STYLE ;;
  emit PAGE_BODY ;;
  match data with
  | JObj d => write urlopen d context_doc
  | _ => (fun st => (Ok tt, set_ids [] (set_anchors [] st))) ;; raise AttributeError
  end ;;
  emit PAGE_END ;;
  ret 0%Z.

End Main.

(** * The specification's wording of three operations

    These follow the text of the specification, not the code; the
    properties below compare them with the code. *)

(** AnchorAllocator's candidate: the explicit IRI of a descriptor object,
    the synthesized name in every other case. *)
Definition spec_anchor_candidate (name prefix : string) (context : dict) : string :=
  match dict_get name context with
  | Some (JObj descriptor) =>
      match dict_get "@id" descriptor with
      | Some (JStr iri) => iri
      | _ => prefix ++ "-" ++ name
      end
  | _ => prefix ++ "-" ++ name
  end.

(** ContextResolver under a generic vocabulary: the name is a term under
    the vocabulary IRI, and the URL is composed from the last two segments
    of the IRI that denotes it. *)
Definition spec_vocab_doc_url (vocab name : string) : option string :=
  match PyStr.rsplit2 "/" (PyStr.rstrip "/" (vocab ++ name)) with
  | Some (_, profile, localName) =>
      Some (DOC_BASE ++ profile ++ "/Vocabularies/" ++ localName)
  | None => None
  end.

(** The parts of a node that IdentityIndex reads. *)

(** The external identifier of one import, when it has one. *)
Definition external_id (i : json) : list json :=
  match py_getitem i (JStr "externalSpdxId") with
  | Ok x => [x]
  | Err _ => []
  end.

(** The external identifiers of an import list. *)
Definition import_ids (imports : json) : list json :=
  match py_iter imports with
  | Ok l => flat_map external_id l
  | Err _ => []
  end.

Definition node_identifier (node : json) : list json :=
  match get_obj_id node with
  | Ok obj_id => if py_truthy obj_id then [obj_id] else []
  | Err _ => []
  end.

Definition node_imports (node : json) : list json :=
  match node with
  | JObj d =>
      match dict_get "type" d with
      | Some t =>
          if py_eq t (JStr "SpdxDocument")
          then import_ids (dict_get_default "import" d (JList []))
          else []
      | None => []
      end
  | _ => []
  end.

(** IdentityIndex as the specification builds it: the identifier of every
    node that has one, and the imports of every node of type SpdxDocument. *)
Definition spec_identity_index (graph : list json) : list json :=
  flat_map (fun node => node_identifier node ++ node_imports node)%list graph.

(** * Definitions the properties are stated with *)

(** ** The four renderings of a string value *)

Definition same_page_reference (v : string) : string :=
  a_open ("#" ++ html_escape v) ++ string_ v "ident" ++ "</a>".

Definition doc_link (url v css : string) : string :=
  a_open (html_escape url) ++ string_ v css ++ "</a>".

Definition external_link (v : string) : string :=
  a_open (html_escape v) ++ string_ v "link" ++ "</a>".

Definition plain_literal (v : string) : string := string_ v "string".

(** ** IdentityIndex *)

(** What one node gives to [index_data]: its imports count only when it
    has an identifier. *)
Definition node_contribution (node : json) : list json :=
  match node_identifier node with
  | [] => []
  | l => (l ++ node_imports node)%list
  end.

Definition indexed_ids (graph : list json) : list json :=
  flat_map node_contribution graph.

(** The nodes [index_data] gets through without raising. *)
Definition import_ok (i : json) : bool :=
  match i with
  | JObj e =>
      match dict_get "externalSpdxId" e with
      | Some x => hashable x
      | None => false
      end
  | _ => false
  end.

Definition node_ok (node : json) : bool :=
  match node with
  | JObj d =>
      let obj_id := dict_get_default "@id" d (dict_get_default "spdxId" d JNull) in
      if py_truthy obj_id then
        hashable obj_id &&
        match dict_get "type" d with
        | Some t =>
            if py_eq t (JStr "SpdxDocument") then
              match dict_get_default "import" d (JList []) with
              | JList l => forallb import_ok l
              | _ => false
              end
            else true
        | None => false
        end
      else true
  | _ => false
  end.

(** Membership in a set, for a value that can be a member. *)
Definition set_has (x : json) (s : pyset) : bool := existsb (py_eq x) s.

(** Adding to a set, once the value is known to be hashable. *)
Definition insert (x : json) (s : pyset) : pyset :=
  if set_has x s then s else (s ++ [x])%list.

Definition insert_all (l : list json) (s : pyset) : pyset :=
  fold_left (fun s x => insert x s) l s.

(** What a run that does not raise has added to [ids]. *)
Definition adds (l : list json) (st st' : state) : Prop :=
  st' = set_ids (insert_all l (ids st)) st
  /\ Forall (fun x => hashable x = true) l.

(** [index_data] changes [anchors] and [ids] only, whether it raises or not. *)
Definition same_io (st st' : state) : Prop :=
  out st' = out st /\ checked_urls st' = checked_urls st
  /\ requests st' = requests st.

(** ** Induction on values *)

Section JsonInduction.

Variable P : json -> Prop.
Hypothesis P_null : P JNull.
Hypothesis P_bool : forall b, P (JBool b).
Hypothesis P_num : forall n, P (JNum n).
Hypothesis P_str : forall s, P (JStr s).
Hypothesis P_list : forall l, Forall P l -> P (JList l).
Hypothesis P_obj : forall d, Forall (fun kv => P (snd kv)) d -> P (JObj d).

Fixpoint json_induction (v : json) : P v :=
  match v with
  | JNull => P_null
  | JBool b => P_bool b
  | JNum n => P_num n
  | JStr s => P_str s
  | JList l =>
      P_list l
        ((fix go (l : list json) : Forall P l :=
            match l with
            | [] => Forall_nil _
            | x :: l' => Forall_cons x (json_induction x) (go l')
            end) l)
  | JObj d =>
      P_obj d
        ((fix go (d : list (string * json)) : Forall (fun kv => P (snd kv)) d :=
            match d with
            | [] => Forall_nil _
            | kv :: d' => Forall_cons kv (json_induction (snd kv)) (go d')
            end) d)
  end.

End JsonInduction.

(** ** Invariants of a run

    [P] is what holds of the state while the run goes on, [E] what holds of
    the state in which an exception was raised. *)

Definition post (P : state -> Prop) (E : exn -> state -> Prop) {A}
    (x : result A * state) : Prop :=
  match x with
  | (Ok _, st') => P st'
  | (Err e, st') => E e st'
  end.

Definition keeps (P : state -> Prop) (E : exn -> state -> Prop) {A} (m : M A)
  : Prop :=
  forall st, P st -> post P E (m st).

(** The render only ever appends to the text written. *)
Definition extends (base : string) (st : state) : Prop :=
  exists d, out st = base ++ d.

(** ** The URL cache and the network *)

(** Every URL requested so far is in the cache, and none was requested
    twice. *)
Definition cache_covers (st : state) : Prop :=
  NoDup (requests st)
  /\ forall u, In u (requests st) -> str_mem u (checked_urls st) = true.

(** The exception that leaves [get_doc_url] when opening [url] raised [e]. *)
Definition check_failure (url : string) (e : exn) : exn :=
  match e with
  | HTTPError code =>
      if (code =? 404)%Z then Exception (not_valid_message url) else e
  | _ => e
  end.

(** Every request made so far was answered. *)
Definition all_reachable (urlopen : network) (st : state) : Prop :=
  forall earlier u later,
    requests st = (earlier ++ u :: later)%list -> urlopen earlier u = Reachable.

(** A request that raised is the last one made, and the render raised what
    that failure turns into. *)
Definition aborted_by_check (urlopen : network) (e : exn) (st : state) : Prop :=
  forall earlier u later e0,
    requests st = (earlier ++ u :: later)%list -> urlopen earlier u = Raises e0 ->
    later = [] /\ e = check_failure u e0.

(** ** The ids of the spans in a text *)

Definition ID_OPEN : string := Eval cbv in "<span id=" ++ dq.

Fixpoint until_quote (s : string) : string :=
  match s with
  | EmptyString => EmptyString
  | String c s' => if Ascii.eqb c dquote then EmptyString else String c (until_quote s')
  end.

Fixpoint skip (n : nat) (s : string) : string :=
  match n, s with
  | S n', String _ s' => skip n' s'
  | _, _ => s
  end.

(** The values of the [id] attributes of the spans in a text, in order. *)
Fixpoint emitted_ids (s : string) : list string :=
  match s with
  | EmptyString => []
  | String _ s' =>
      if String.prefix ID_OPEN s
      then until_quote (skip (String.length ID_OPEN) s) :: emitted_ids s'
      else emitted_ids s'
  end.

(** ** The pairs of an object *)

(** The text between the braces of an object: the segment of each pair on
    its own line, a comma after each but the last. *)
Fixpoint joined (segs : list string) : string :=
  match segs with
  | [] => EmptyString
  | seg :: rest =>
      seg ++ match rest with
             | [] => NL
             | _ :: _ => COMMA ++ NL ++ joined rest
             end
  end.

(** ** Structural tokens *)

Inductive bracket : Type := Brace | Bracket.

Inductive token : Type :=
| Open (b : bracket)
| Close (b : bracket).

Definition bracket_eqb (a b : bracket) : bool :=
  match a, b with
  | Brace, Brace | Bracket, Bracket => true
  | _, _ => false
  end.

Definition token_eqb (s t : token) : bool :=
  match s, t with
  | Open a, Open b | Close a, Close b => bracket_eqb a b
  | _, _ => false
  end.

(** The text of a structural token. *)
Definition token_text (t : token) : string :=
  match t with
  | Open Brace => LBRACE
  | Close Brace => RBRACE
  | Open Bracket => LBRACKET
  | Close Bracket => RBRACKET
  end.

(** The structural token that starts at the head of a text. *)
Definition token_at (s : string) : option token :=
  if String.prefix LBRACE s then Some (Open Brace)
  else if String.prefix RBRACE s then Some (Close Brace)
  else if String.prefix LBRACKET s then Some (Open Bracket)
  else if String.prefix RBRACKET s then Some (Close Bracket)
  else None.

(** The structural tokens of a text, in order of occurrence. *)
Fixpoint structural (s : string) : list token :=
  match s with
  | EmptyString => []
  | String _ s' =>
      match token_at s with
      | Some t => t :: structural s'
      | None => structural s'
      end
  end.

(** Reading tokens against the stack of brackets that are open: [None]
    when a closing token does not match the innermost open bracket. *)
Fixpoint nest (l : list token) (stack : list bracket) : option (list bracket) :=
  match l with
  | [] => Some stack
  | Open b :: l' => nest l' (b :: stack)
  | Close b :: l' =>
      match stack with
      | b' :: stack' => if bracket_eqb b b' then nest l' stack' else None
      | [] => None
      end
  end.

(** How often a token occurs. *)
Definition count (t : token) (l : list token) : nat :=
  length (filter (token_eqb t) l).

(** How many brackets of one kind are open. *)
Definition depth_of (b : bracket) (stack : list bracket) : nat :=
  length (filter (bracket_eqb b) stack).

(** The text appended by a run has no more closing than opening tokens of
    either kind in any beginning of it; after a run that returned, its
    tokens are properly nested, balanced, and some bracket is open at every
    point strictly between the first and the last token. *)
Definition well_bracketed (returned : bool) (d : string) : Prop :=
  (forall p b, String.prefix p d = true ->
               count (Close b) (structural p) <= count (Open b) (structural p))
  /\ (returned = true ->
      nest (structural d) [] = Some []
      /\ (forall b, count (Close b) (structural d) = count (Open b) (structural d))
      /\ (forall l1 l2, structural d = (l1 ++ l2)%list -> l1 <> [] -> l2 <> [] ->
                        exists c, nest l1 [] = Some c /\ c <> [])).

(** ** Texts without tokens *)

(** A text without the character that every token starts with. *)
Fixpoint lt_free (s : string) : bool :=
  match s with
  | EmptyString => true
  | String c s' => negb (Ascii.eqb c "<") && lt_free s'
  end.

(** No token and no proper beginning of a token starts with [q], and no
    token that starts where [q] starts ends inside it. *)
Definition clash_free (q : string) : bool :=
  forallb (fun t => negb (String.prefix q (token_text t))
                    && negb (String.prefix (token_text t) q))
          [Open Brace; Close Brace; Open Bracket; Close Bracket].

(** Every end of [a] is [clash_free]. *)
Fixpoint inertb (a : string) : bool :=
  match a with
  | EmptyString => true
  | String _ a' => clash_free a && inertb a'
  end.

(** A text inside which no token starts, whatever follows it. *)
Definition inert (a : string) : Prop :=
  forall r, structural (a ++ r) = structural r.

(** A text that reads as the tokens [l], whatever follows it. *)
Definition reads (d : string) (l : list token) : Prop :=
  forall r, structural (d ++ r) = (l ++ structural r)%list.

(** The classes [string] is called with. *)
Definition known_classes : list string :=
  ["string"; "ident"; "link"; "None"; "classes"; "properties"; "vocabularies"].

(** The class a resolution returns. *)
Definition css_ok (css : option string) : Prop :=
  match css with
  | Some c => In c ["classes"; "properties"; "vocabularies"]
  | None => True
  end.

(** ** What a run appends, in tokens *)

(** [m] appends a text that reads as tokens which take the open brackets
    from [a] to [b] when [m] returns, its result satisfying [Q], and to
    some stack, without a mismatch, when it raises. *)
Definition renders {A} (a b : list bracket) (m : M A) (Q : A -> Prop) : Prop :=
  forall st, exists d l c,
    out (snd (m st)) = out st ++ d
    /\ reads d l
    /\ nest l a = Some c
    /\ forall x, fst (m st) = Ok x -> c = b /\ Q x.

Definition any {A} : A -> Prop := fun _ => True.

Definition balanced (l : list token) : Prop := nest l [] = Some [].

Definition no_tokens (l : list token) : Prop := l = [].

(** The tokens of one value: none, or an opening token, a balanced body
    and the matching closing token. *)
Inductive group : list token -> Prop :=
| group_none : group []
| group_wrap (k : bracket) (body : list token) :
    balanced body -> group (Open k :: body ++ [Close k]).

(** A balanced body followed by the closing token of [k]. *)
Definition closes_group (k : bracket) (l : list token) : Prop :=
  exists body, l = (body ++ [Close k])%list /\ balanced body.

(** When [m] returns, the text it appended reads as tokens of the shape
    [S]. *)
Definition yields {A} (m : M A) (S : list token -> Prop) : Prop :=
  forall st x st', m st = (Ok x, st') ->
                   exists d l, out st' = out st ++ d /\ reads d l /\ S l.

(** ** The text of the parts of a rendering *)

(** The opening and the closing tag of the span written for an anchor or an
    identifier; nothing is written for a falsy one. *)
Definition id_span_open (x : json) : string :=
  match x with
  | JStr s => if py_truthy x then span_id_open (html_escape s) else EmptyString
  | _ => EmptyString
  end.

Definition id_span_close (x : json) : string :=
  match x with
  | JStr s => if py_truthy x then "</span>" else EmptyString
  | _ => EmptyString
  end.

(** The tags of the link around a key that resolves. *)
Definition link_open (u : option string) : string :=
  match u with
  | Some url => a_open (html_escape url)
  | None => EmptyString
  end.

Definition link_close (u : option string) : string :=
  match u with
  | Some _ => "</a>"
  | None => EmptyString
  end.

(** The four renderings of a string in the order [write_value] tries
    them. *)
Definition string_rendering (v : string) (in_ids : bool) (u css : option string)
  : string :=
  if in_ids then same_page_reference v
  else match u with
       | Some url => doc_link url v (py_format css)
       | None =>
           if PyStr.startswith v "http://" || PyStr.startswith v "https://"
           then external_link v
           else plain_literal v
       end.

(** The line of one element of an array: the indentation and the rendering
    of the element, under the context of the array and with no expected
    kind. *)
Definition element_segment (urlopen : network) (indent : nat) (context : json)
    (v : json) (seg : string) : Prop :=
  exists value s1 s2,
    seg = indent_str (indent + 1) ++ value
    /\ write_value urlopen v (indent + 1) context None s1 = (Ok tt, s2)
    /\ out s2 = out s1 ++ value.

(** The line of one pair of an object, part by part. *)
Definition pair_text (urlopen : network) (indent : nat) (kv : string * json)
    (seg : string) : Prop :=
  exists anchor u sub css value s1 s2,
    seg = id_span_open anchor ++ indent_str (indent + 1) ++ link_open u
          ++ string_ (fst kv) (match css with Some c => c | None => "string" end)
          ++ link_close u ++ (COLON ++ " ") ++ value ++ id_span_close anchor
    /\ css_ok css
    /\ write_value urlopen (snd kv) (indent + 1) sub
         (if String.eqb (fst kv) "type" then Some Classes else None) s1 = (Ok tt, s2)
    /\ out s2 = out s1 ++ value.

(** The line of the pair [kv] of an object rendered under [context]: the
    opening of the span of the property anchor [get_anchor] answers for
    the key (nothing when it answers none), the indentation, the key as a
    label, inside the link to its documentation page when [get_doc_url]
    resolves it, the colon, the rendering of the value under the context
    the resolution gives, and the end of the anchor span. *)
Definition pair_line (urlopen : network) (indent : nat) (context : json)
    (kv : string * json) (seg : string) : Prop :=
  exists anchor u sub css value s0 s0' s1 s1' s2 s3,
    get_anchor (JStr (fst kv)) "property" context s0 = (Ok anchor, s0')
    /\ get_doc_url urlopen (Some Properties) (fst kv) context s1
       = (Ok (u, sub, css), s1')
    /\ write_value urlopen (snd kv) (indent + 1) sub
         (if String.eqb (fst kv) "type" then Some Classes else None) s2 = (Ok tt, s3)
    /\ out s3 = out s2 ++ value
    /\ seg = id_span_open anchor ++ indent_str (indent + 1) ++ link_open u
             ++ string_ (fst kv) (match css with Some c => c | None => "string" end)
             ++ link_close u ++ (COLON ++ " ") ++ value ++ id_span_close anchor.

(** The legend [write] puts before the rendering. *)
Definition LEGEND : string :=
  ("<table>" ++ NL) ++ ("<tr><th>Legend</th></tr>" ++ NL)
  ++ legend_row "string" "String"
  ++ legend_row "classes" "SPDX Class (link)"
  ++ legend_row "properties" "SPDX Property (link)"
  ++ legend_row "vocabularies" "SPDX Vocabulary (link)"
  ++ legend_row "ident" "Identifier IRI (link)"
  ++ ("</table>" ++ NL).

(** ** Well-formed markup *)

(** Text between tags: neither [<] nor [>]. *)
Fixpoint text_ok (s : string) : bool :=
  match s with
  | EmptyString => true
  | String c s' => negb (Ascii.eqb c "<") && negb (Ascii.eqb c ">") && text_ok s'
  end.

(** The value of an attribute: moreover no double quote. *)
Fixpoint value_ok (s : string) : bool :=
  match s with
  | EmptyString => true
  | String c s' =>
      negb (Ascii.eqb c "<") && negb (Ascii.eqb c ">") && negb (Ascii.eqb c dquote)
      && value_ok s'
  end.

(** The elements and the attributes of the page. *)
Definition tag_names : list string :=
  ["span"; "a"; "table"; "tr"; "th"; "td"; "pre"; "code";
   "html"; "head"; "style"; "body"].

Definition attribute_names : list string := ["class"; "id"; "href"].

Definition open_tag (name : string) (attr : option (string * string)) : string :=
  "<" ++ name ++ match attr with
                 | Some (a, v) => " " ++ a ++ "=" ++ dq ++ v ++ dq ++ ">"
                 | None => ">"
                 end.

Definition close_tag (name : string) : string := "</" ++ name ++ ">".

Definition attr_ok (attr : option (string * string)) : Prop :=
  match attr with
  | Some (a, v) => In a attribute_names /\ value_ok v = true
  | None => True
  end.

(** Markup in which every element that is opened is closed, in order: text,
    an element around markup, or markup after markup. *)
Inductive html : string -> Prop :=
| html_text (t : string) : text_ok t = true -> html t
| html_element (name : string) (attr : option (string * string)) (body : string) :
    In name tag_names -> attr_ok attr -> html body ->
    html (open_tag name attr ++ body ++ close_tag name)
| html_app (a b : string) : html a -> html b -> html (a ++ b).

(** ** The page *)

(** An element: its opening tag, its content and its closing tag. *)
Definition element (name : string) (attr : option (string * string)) (body : string)
  : string :=
  open_tag name attr ++ body ++ close_tag name.

(** The one [html] element of the page: the style sheet in its head; the
    legend and, in a [pre] and a [code] element, the rendering in its
    body. *)
Definition document (style rendering : string) : string :=
  element "html" None
    (NL
     ++ line (element "head" None
                (NL ++ line (element "style" None (NL ++ style ++ NL))))
     ++ line (element "body" None
                (LEGEND
                 ++ element "pre" (Some ("class", "code"))
                      (element "code" None rendering)))).

(** ** Objects inside a value, and their identifiers *)

(** The object [o] is the value itself, or inside an element of it, or
    inside the value of one of its pairs. *)
Inductive inside (o : dict) : json -> Prop :=
| inside_here : inside o (JObj o)
| inside_list (l : list json) (v : json) : In v l -> inside o v -> inside o (JList l)
| inside_obj (d : dict) (k : string) (v : json) :
    In (k, v) d -> inside o v -> inside o (JObj d).

(** The string [x] is the identifier or the external identifier of [o]. *)
Definition names (o : dict) (x : string) : Prop :=
  get_obj_id (JObj o) = Ok (JStr x)
  \/ dict_get "externalSpdxId" o = Some (JStr x).

(** The text [t] occurs in [s]. *)
Definition occurs (t s : string) : Prop := exists a b, s = a ++ t ++ b.

(** ** The id attributes of the output *)

(** A text in which the ids [l] are read, whatever follows it. *)
Definition id_reads (d : string) (l : list string) : Prop :=
  forall r, emitted_ids (d ++ r) = (l ++ emitted_ids r)%list.

(** A text inside which no id starts, whatever follows it. *)
Definition id_free (a : string) : Prop := id_reads a [].

(** Neither [q] nor the opening of an id span begins the other. *)
Definition id_clash_free (q : string) : bool :=
  negb (String.prefix q ID_OPEN) && negb (String.prefix ID_OPEN q).

(** Every end of [a] is [id_clash_free]. *)
Fixpoint id_freeb (a : string) : bool :=
  match a with
  | EmptyString => true
  | String _ a' => id_clash_free a && id_freeb a'
  end.

(** The interleavings of two lists. *)
Inductive merge {A : Type} : list A -> list A -> list A -> Prop :=
| merge_nil : merge [] [] []
| merge_l (x : A) (a b c : list A) : merge a b c -> merge (x :: a) b (x :: c)
| merge_r (x : A) (a b c : list A) : merge a b c -> merge a (x :: b) (x :: c).

(** The id of the span [write_obj] writes for an identifier: none for a
    falsy one, and [html.escape] raises for a truthy one that is not a
    string. *)
Definition span_ids (x : json) : list string :=
  match x with
  | JStr s => if py_truthy x then [html_escape s] else []
  | _ => []
  end.

(** The ids of the identifier spans of a value, in the order [write_value]
    reaches them: of each object its identifier and its external
    identifier, then those of the values of its pairs. *)
Fixpoint identifier_ids (v : json) : list string :=
  match v with
  | JObj d =>
      (span_ids (dict_get_default "@id" d (dict_get_default "spdxId" d JNull))
       ++ span_ids (dict_get_default "externalSpdxId" d JNull)
       ++ flat_map (fun kv => identifier_ids (snd kv)) d)%list
  | JList l => flat_map identifier_ids l
  | _ => []
  end.

(** What [m] writes reads as ids that interleave the anchors it hands out,
    each written when it is handed out, and a beginning of [idents], all of
    it when [m] returns.  An anchor that is not a string is recorded but
    not written: [html.escape] raises for it. *)
Definition spans {A} (m : M A) (idents : list string) (Q : A -> Prop) : Prop :=
  forall st, exists d l names shown rest,
    out (snd (m st)) = out st ++ d
    /\ id_reads d l
    /\ merge (map html_escape names) shown l
    /\ idents = (shown ++ rest)%list
    /\ (anchors (snd (m st)) = (anchors st ++ map JStr names)%list
        \/ exists a, anchors (snd (m st)) = (anchors st ++ map JStr names ++ [a])%list)
    /\ (NoDup (anchors st) -> NoDup (anchors (snd (m st))))
    /\ forall x, fst (m st) = Ok x ->
         Q x /\ rest = []
         /\ anchors (snd (m st)) = (anchors st ++ map JStr names)%list.

(** ** Two runs of one computation *)

(** Two states in which [get_anchor] and the test [v in self.ids] give the
    same answers. *)
Definition agree (s t : state) : Prop :=
  anchors s = anchors t /\ ids s = ids t.

(** Whenever [m1] and [m2] both return, from states that agree, they return
    the same value, in states that agree, and have written the same text. *)
Definition same_text {A} (m1 m2 : M A) : Prop :=
  forall s t x y s' t',
    agree s t -> m1 s = (Ok x, s') -> m2 t = (Ok y, t') ->
    x = y /\ agree s' t' /\ exists d, out s' = out s ++ d /\ out t' = out t ++ d.

(** A computation whose result does not depend on the state it starts
    from. *)
Definition steady {A} (m : M A) : Prop :=
  forall s t, fst (m s) = fst (m t).

(** When [m1] returns, [m2] returns the same value from every state that
    agrees and whose cache holds what the cache holds after [m1]: it leaves
    the cache and the requests as they were and writes the same text. *)
Definition replays {A} (m1 m2 : M A) : Prop :=
  forall s x s',
    m1 s = (Ok x, s') ->
    incl (checked_urls s) (checked_urls s')
    /\ forall t,
         agree s t -> incl (checked_urls s') (checked_urls t) ->
         exists t',
           m2 t = (Ok x, t')
           /\ agree s' t'
           /\ checked_urls t' = checked_urls t
           /\ requests t' = requests t
           /\ exists d, out s' = out s ++ d /\ out t' = out t ++ d.

(** When [m1] returns, what [m2] has written from a state that agrees is a
    beginning of what [m1] wrote, whether [m2] returns or raises; if [m2]
    returns, it returns the same value, in a state that agrees, and has
    written all of it. *)
Definition cut_short {A} (m1 m2 : M A) : Prop :=
  forall s t x s',
    agree s t -> m1 s = (Ok x, s') ->
    match m2 t with
    | (Ok y, t') =>
        y = x /\ agree s' t' /\ exists d, out s' = out s ++ d /\ out t' = out t ++ d
    | (Err _, t') =>
        exists d rest, out s' = out s ++ d ++ rest /\ out t' = out t ++ d
    end.

(** ** The pages of the documentation *)

(** A text without the character [c]. *)
Fixpoint char_free (c : ascii) (s : string) : bool :=
  match s with
  | EmptyString => true
  | String a s' => negb (Ascii.eqb a c) && char_free c s'
  end.

(** The URL of a page of the model documentation: the base, a profile, a
    kind and a name, the profile and the name being single path
    segments. *)
Definition doc_page (u : string) : Prop :=
  exists profile k n,
    u = DOC_BASE ++ profile ++ "/" ++ kind_name k ++ "/" ++ n
    /\ char_free "/" profile = true /\ char_free "/" n = true.

(** Every URL in the cache was requested, and the request was answered. *)
Definition cache_sound (urlopen : network) (st : state) : Prop :=
  forall u, In u (checked_urls st) ->
            exists earlier later,
              requests st = (earlier ++ u :: later)%list /\ urlopen earlier u = Reachable.

(** What a state has over an earlier one: the index is the same, and the
    anchors, the cache, the requests and the text written have only been
    added to. *)
Definition grown (st0 st : state) : Prop :=
  ids st = ids st0
  /\ (exists a, anchors st = (anchors st0 ++ a)%list)
  /\ (exists c, checked_urls st = (checked_urls st0 ++ c)%list)
  /\ (exists r, requests st = (requests st0 ++ r)%list)
  /\ (exists d, out st = (out st0 ++ d)%string).

(** ** Documents and contexts that can be rendered *)

(** A string, or a value for which no span is written. *)
Definition str_or_falsy (x : json) : bool :=
  match x with
  | JStr _ => true
  | _ => negb (py_truthy x)
  end.

(** What [write_obj] reads of a node before its pairs: the type, when there
    is one, is a string; the identifier and the external identifier are
    strings or falsy. *)
Definition header_ok (d : dict) : bool :=
  match dict_get "type" d with
  | Some (JStr _) | None => true
  | Some _ => false
  end
  && str_or_falsy (dict_get_default "@id" d (dict_get_default "spdxId" d JNull))
  && str_or_falsy (dict_get_default "externalSpdxId" d JNull).

(** A value all of whose objects have such a header. *)
Fixpoint renderable (v : json) : bool :=
  match v with
  | JList l =>
      (fix all (l : list json) : bool :=
         match l with
         | [] => true
         | x :: l' => renderable x && all l'
         end) l
  | JObj d =>
      header_ok d
      && (fix all (l : list (string * json)) : bool :=
            match l with
            | [] => true
            | (_, x) :: l' => renderable x && all l'
            end) d
  | _ => true
  end.

(** The [@id] of a descriptor, when there is one, is a string. *)
Definition descriptor_id_ok (desc : dict) : bool :=
  match dict_get "@id" desc with
  | Some (JStr _) | None => true
  | Some _ => false
  end.

(** A context as the program reads it: a mapping whose entries are IRI
    strings or descriptors, a descriptor not being the entry of [@vocab]
    and having a scoped context, if any, of the same kind. *)
Fixpoint context_ok (c : json) : bool :=
  match c with
  | JObj d =>
      (fix entries (l : list (string * json)) : bool :=
         match l with
         | [] => true
         | (k, e) :: l' =>
             match e with
             | JStr _ => true
             | JObj desc =>
                 negb (String.eqb k "@vocab")
                 && descriptor_id_ok desc
                 && (fix scoped (l2 : list (string * json)) : bool :=
                       match l2 with
                       | [] => true
                       | (k2, c2) :: l2' =>
                           (if String.eqb k2 "@context" then context_ok c2 else true)
                           && scoped l2'
                       end) desc
             | _ => false
             end
             && entries l'
         end) d
  | _ => false
  end.

(** A network that answers every request. *)
Definition answers (urlopen : network) : Prop :=
  forall earlier url, urlopen earlier url = Reachable.

(** [m] returns from every state, with a result of which [Q] holds. *)
Definition returns {A} (m : M A) (Q : A -> Prop) : Prop :=
  forall st, exists x st', m st = (Ok x, st') /\ Q x.

(** What [context_ok] says of the entry a name is looked up to. *)
Inductive entry_ok (context : json) (k : string) : json -> Prop :=
| entry_iri (s : string) : entry_ok context k (JStr s)
| entry_descriptor (desc : dict) :
    k <> "@vocab" ->
    descriptor_id_ok desc = true ->
    context_ok (dict_get_default "@context" desc context) = true ->
    entry_ok context k (JObj desc).

(** ** Reading texts *)

(** The first character of a text. *)
Definition first_char (s : string) : option ascii :=
  match s with
  | EmptyString => None
  | String a _ => Some a
  end.

(** The last character of a text. *)
Fixpoint last_char (s : string) : option ascii :=
  match s with
  | EmptyString => None
  | String a s' =>
      match s' with
      | EmptyString => Some a
      | String _ _ => last_char s'
      end
  end.

(** How often a character occurs. *)
Fixpoint occurrences (c : ascii) (s : string) : nat :=
  match s with
  | EmptyString => 0
  | String a s' => (if Ascii.eqb a c then 1 else 0) + occurrences c s'
  end.

(** [s] begins with [p]. *)
Fixpoint starts (p s : string) : bool :=
  match p, s with
  | EmptyString, _ => true
  | String a p', String b s' => Ascii.eqb a b && starts p' s'
  | String _ _, EmptyString => false
  end.

(** Reading the five entities of [html.escape] back: [skip] characters of
    an entity that was read are still to be passed over. *)
Fixpoint unescape_from (skip : nat) (s : string) : string :=
  match s with
  | EmptyString => EmptyString
  | String c s' =>
      match skip with
      | S n => unescape_from n s'
      | O =>
          if starts "&amp;" s then String "&" (unescape_from 4 s')
          else if starts "&lt;" s then String "<" (unescape_from 3 s')
          else if starts "&gt;" s then String ">" (unescape_from 3 s')
          else if starts "&quot;" s then String dquote (unescape_from 5 s')
          else if starts "&#x27;" s then String "'" (unescape_from 5 s')
          else String c (unescape_from 0 s')
      end
  end.

Definition html_unescape (s : string) : string := unescape_from 0 s.

(** ** Examples *)

Definition net_reachable : network := fun _ _ => Reachable.

Definition net_not_found : network := fun _ _ => Raises (HTTPError 404).

Definition core_name_iri : string := "https://spdx.org/rdf/3.0.1/terms/Core/name".

(** A context whose entry for [name] is a plain IRI string. *)
Definition plain_context : dict := [("name", JStr core_name_iri)].

Definition hash_vocab_iri : string :=
  "https://spdx.org/rdf/3.0.1/terms/Core/HashAlgorithm/".

Definition vocab_context : dict := [("@vocab", JStr hash_vocab_iri)].

(** A graph whose only node is an SpdxDocument without an identifier. *)
Definition anonymous_document_graph : list json :=
  [JObj [("type", JStr "SpdxDocument");
         ("import", JList [JObj [("externalSpdxId", JStr "urn:ext")]])]].

Definition document_graph : list json :=
  [JObj [("spdxId", JStr "urn:doc"); ("type", JStr "SpdxDocument");
         ("import", JList [JObj [("externalSpdxId", JStr "urn:ext")]])];
   JObj [("name", JStr "no identifier")];
   JObj [("@id", JStr "urn:pkg"); ("type", JStr "software_Package")]].

(** A document in which two nodes carry the same identifier. *)
Definition twin_document : dict :=
  [("@context", JStr "https://spdx.org/rdf/3.0.1/spdx-context.jsonld");
   ("@graph", JList [JObj [("spdxId", JStr "urn:a"); ("type", JStr "Person")];
                     JObj [("spdxId", JStr "urn:a"); ("type", JStr "Person")]])].

Definition example_iri : string := "https://example.org/doc#pkg".

(** A context in which [example_iri] is itself a term that resolves. *)
Definition example_context : dict :=
  [(example_iri, JStr "https://spdx.org/rdf/3.0.1/terms/Core/Element")].

(** Two terms that resolve to one IRI. *)
Definition two_terms_context : dict :=
  [("a", JStr core_name_iri); ("b", JStr core_name_iri)].

(** A context document whose context declares no term. *)
Definition empty_context_doc : json := JObj [("@context", JObj [])].

(** A value with markup characters in a key and in a string. *)
Definition markup_value : json :=
  JObj [("<k>", JList [JStr "<b>&</b>"; JNum 1; JBool true; JNull])].

(** What loading any context gives in the examples. *)
Definition load_empty : json -> result json := fun _ => Ok empty_context_doc.

(** A state whose cache holds the URL of [name] in [plain_context]. *)
Definition cached_state : state :=
  mkState [] [] [DOC_BASE ++ "Core/Properties/name"] EmptyString [].

(** A context document with a descriptor that has a scoped context. *)
Definition scoped_context_doc : json :=
  JObj [("@context",
         JObj [("name", JStr core_name_iri);
               ("algorithm",
                JObj [("@id", JStr "https://spdx.org/rdf/3.0.1/terms/Core/algorithm");
                      ("@context", JObj vocab_context)])])].

(** A document whose node has a key with that descriptor. *)
Definition hashed_document : dict :=
  [("@context", JStr "https://spdx.org/rdf/3.0.1/spdx-context.jsonld");
   ("@graph", JList [JObj [("spdxId", JStr "urn:a"); ("type", JStr "Hash");
                           ("algorithm", JStr "sha256"); ("name", JStr "a")]])].

(** * Properties *)

(** ** The model on small inputs *)

(** In a dict, [obj[k]] for a key [k] of [obj.keys()] is the value of the
    item the loop of [write_obj] is at. *)
Lemma dict_get_item (d : dict) (k : string) (v : json) :
  NoDup (keys d) -> In (k, v) d -> dict_get k d = Some v.
Proof.
  induction d as [|[k' v'] d IH]; intros Hnd Hin; [contradiction|].
  cbn [keys map fst] in Hnd. apply NoDup_cons_iff in Hnd as [Hfresh Hnd].
  cbn [dict_get]. destruct Hin as [[= -> ->]|Hin].
  - now rewrite String.eqb_refl.
  - destruct (String.eqb_spec k k') as [->|_]; [|now apply IH].
    exfalso. apply Hfresh. change k' with (fst (k', v)). now apply in_map.
Qed.

(** An empty array is a bracket, a newline and a bracket. *)
Lemma write_list_empty :
  write_value net_reachable (JList []) 0 (JObj []) None init_state
  = (Ok tt, set_out (LBRACKET ++ NL ++ RBRACKET) init_state).
Proof. reflexivity. Qed.

(** A node with a type, an identifier and an external identifier is
    wrapped in three spans, opened in this order and closed after the
    brace. *)
Lemma write_obj_three_spans :
  let obj := [("type", JStr "Person"); ("@id", JStr "urn:p");
              ("externalSpdxId", JStr "urn:e")] in
  let text := out (snd (write_obj net_reachable obj 0 (JObj []) init_state)) in
  String.prefix (span_id_open "class-Person" ++ span_id_open "urn:p"
                   ++ span_id_open "urn:e" ++ LBRACE ++ NL) text = true
  /\ PyStr.contains (NL ++ RBRACE ++ "</span></span></span>") text = true.
Proof. split; vm_compute; reflexivity. Qed.

(** ** AnchorAllocator: the candidate (C7) *)

(** C7, as stated, fails: for a name whose context entry is a plain IRI
    string the candidate is that string, not the synthesized
    [prefix-name]. *)
Lemma anchor_candidate_plain_iri :
  anchor_candidate (JStr "name") "property" (JObj plain_context)
    = Ok (JStr core_name_iri)
  /\ spec_anchor_candidate "name" "property" plain_context = "property-name"
  /\ anchor_candidate (JStr "name") "property" (JObj plain_context)
     <> Ok (JStr (spec_anchor_candidate "name" "property" plain_context)).
Proof.
  repeat split; try reflexivity.
  vm_compute. discriminate.
Qed.

(** C7, amended: for a string name looked up in a context mapping, the
    candidate is the context entry itself when the entry is not a descriptor
    object and is truthy (a non-empty plain IRI string), the descriptor's
    [@id] when the entry is a descriptor object with a truthy one, and
    [prefix + "-" + name] in every other case. *)
Theorem anchor_candidate_of_entry (name prefix : string) (context : dict) :
  anchor_candidate (JStr name) prefix (JObj context) =
  Ok (let synthesized := JStr ((prefix ++ "-") ++ name) in
      match dict_get name context with
      | None => synthesized
      | Some entry =>
          let anchor :=
            match entry with
            | JObj descriptor => dict_get_default "@id" descriptor JNull
            | _ => entry
            end in
          if py_truthy anchor then anchor else synthesized
      end).
Proof.
  unfold anchor_candidate, py_in, py_getitem, dict_mem; cbn [rbind].
  destruct (dict_get name context) as [entry|]; cbn [rbind py_truthy py_str_add].
  - destruct entry; cbn [rbind];
      match goal with
      | |- context [py_truthy ?a] => destruct (py_truthy a); reflexivity
      end.
  - reflexivity.
Qed.

(** ** ContextResolver under a generic vocabulary (C6) *)

(** C6, as stated, fails: under [@vocab] the URL is composed from the
    vocabulary IRI alone.  Resolving [sha256] gives the page of the
    vocabulary, not the URL of the term, and the same URL as resolving
    [md5]. *)
Lemma get_doc_url_vocab_ignores_name :
  fst (get_doc_url net_reachable (Some Classes) "sha256" (JObj vocab_context) init_state)
    = Ok (Some (DOC_BASE ++ "Core/Vocabularies/HashAlgorithm"),
          JObj vocab_context, Some "vocabularies")
  /\ spec_vocab_doc_url hash_vocab_iri "sha256"
     = Some (DOC_BASE ++ "HashAlgorithm/Vocabularies/sha256")
  /\ fst (get_doc_url net_reachable (Some Classes) "sha256" (JObj vocab_context) init_state)
     <> Ok (spec_vocab_doc_url hash_vocab_iri "sha256",
            JObj vocab_context, Some "vocabularies")
  /\ get_doc_url net_reachable (Some Classes) "sha256" (JObj vocab_context) init_state
     = get_doc_url net_reachable (Some Classes) "md5" (JObj vocab_context) init_state.
Proof.
  repeat split; try reflexivity.
  vm_compute. discriminate.
Qed.

Section Resolution.

Variable urlopen : network.

(** C6, amended: when the context mapping declares [@vocab] with a string
    IRI, resolving any name under any expected kind depends on that IRI
    only.  If the IRI, trailing slashes stripped, has at least two [/], the URL is
    the template filled with its last two segments and the kind Vocabularies,
    it is validated, and the result carries the unchanged context and the
    class [vocabularies]; otherwise the name is unresolved. *)
Theorem get_doc_url_vocab (typ : option kind) (name : string) (context : dict)
    (iri : string) (st : state) :
  dict_get "@vocab" context = Some (JStr iri) ->
  get_doc_url urlopen typ name (JObj context) st =
  match PyStr.rsplit2 "/" (PyStr.rstrip "/" iri) with
  | Some (_, profile, localName) =>
      let url := DOC_BASE ++ profile ++ "/Vocabularies/" ++ localName in
      match check_url urlopen url st with
      | (Ok _, st') => (Ok (Some url, JObj context, Some "vocabularies"), st')
      | (Err e, st') => (Err e, st')
      end
  | None => (Ok (None, JObj context, None), st)
  end.
Proof.
  intros Hvocab.
  unfold get_doc_url, resolve, bind, lift, py_in, py_getitem, dict_mem.
  rewrite Hvocab; cbn [rbind doc_url].
  destruct (PyStr.rsplit2 "/" (PyStr.rstrip "/" iri)) as [[[h profile] n]|];
    [|reflexivity].
  cbn [kind_name PyStr.lower]. cbv zeta.
  change (DOC_BASE ++ profile ++ "/" ++ "Vocabularies" ++ "/" ++ n)
    with (DOC_BASE ++ profile ++ "/Vocabularies/" ++ n).
  destruct (check_url urlopen _ st) as [[[]|e] st']; reflexivity.
Qed.

End Resolution.

(** The amended C6 at the hash-algorithm vocabulary. *)
Lemma get_doc_url_vocab_witness :
  dict_get "@vocab" vocab_context = Some (JStr hash_vocab_iri)
  /\ get_doc_url net_reachable None "sha256" (JObj vocab_context) init_state
     = (Ok (Some (DOC_BASE ++ "Core/Vocabularies/HashAlgorithm"),
            JObj vocab_context, Some "vocabularies"),
        mkState [] [] [DOC_BASE ++ "Core/Vocabularies/HashAlgorithm"] EmptyString
                [DOC_BASE ++ "Core/Vocabularies/HashAlgorithm"]).
Proof.
  split; [reflexivity|].
  rewrite (get_doc_url_vocab net_reachable None "sha256" vocab_context
             hash_vocab_iri init_state eq_refl).
  reflexivity.
Defined.

(** ** The renderings of a string value (C1) *)

Lemma append_assoc (a b c : string) : (a ++ b) ++ c = a ++ (b ++ c).
Proof.
  induction a as [|x a IH]; cbn; [reflexivity | now rewrite IH].
Qed.

Lemma append_nil_r (a : string) : a ++ EmptyString = a.
Proof.
  induction a as [|x a IH]; cbn; [reflexivity | now rewrite IH].
Qed.

Lemma prefix_cons (a b : ascii) (s t : string) :
  String.prefix (String a s) (String b t)
  = if Ascii.ascii_dec a b then String.prefix s t else false.
Proof. reflexivity. Qed.

Section StringValues.

Variable urlopen : network.

(** Validation touches the cache and the request log only. *)
Lemma check_url_frame (url : string) (st : state) :
  let st' := snd (check_url urlopen url st) in
  anchors st' = anchors st /\ ids st' = ids st /\ out st' = out st.
Proof.
  unfold check_url.
  destruct (str_mem url (checked_urls st)); [cbn; auto|].
  destruct (urlopen (requests st) url) as [|e]; [cbn; auto|].
  destruct e; try (cbn; auto; fail).
  destruct (code =? 404)%Z; cbn; auto.
Qed.

Lemma get_doc_url_frame (typ : option kind) (name : string) (context : json)
    (st : state) :
  let st' := snd (get_doc_url urlopen typ name context st) in
  anchors st' = anchors st /\ ids st' = ids st /\ out st' = out st.
Proof.
  unfold get_doc_url, bind, lift.
  destruct (resolve typ name context) as [[sub [[rdf_uri t]|]]|e]; cbn; auto.
  destruct (doc_url t rdf_uri) as [[url|]|e]; cbn; auto.
  pose proof (check_url_frame url st) as H.
  destruct (check_url urlopen url st) as [[[]|e] st']; exact H.
Qed.

(** C1: a string that is a member of [ids] is written as the same-page
    reference, whatever [get_doc_url] resolved it to and whatever it begins
    with; nothing is written when [get_doc_url] raises.  The reference
    differs from each of the three other renderings of a string. *)
Theorem write_value_identity_reference (v : string) (indent : nat)
    (context : json) (typ : option kind) (st : state) :
  set_has (JStr v) (ids st) = true ->
  write_value urlopen (JStr v) indent context typ st =
    match get_doc_url urlopen typ v context st with
    | (Ok _, st1) => (Ok tt, set_out (out st ++ same_page_reference v) st1)
    | (Err e, st1) => (Err e, set_out (out st) st1)
    end
  /\ (forall rest css, same_page_reference v <> doc_link (DOC_BASE ++ rest) v css)
  /\ (PyStr.startswith v "http://" || PyStr.startswith v "https://" = true ->
      same_page_reference v <> external_link v)
  /\ same_page_reference v <> plain_literal v.
Proof.
  intros Hmem. split; [|split; [|split]].
  - cbn [write_value]. unfold write_str, bind.
    destruct (get_doc_url_frame typ v context st) as (_ & Hids & Hout).
    destruct (get_doc_url urlopen typ v context st) as [[[[u sub] css]|e] st1];
      cbn [snd] in Hids, Hout.
    + unfold set_has in Hmem. rewrite Hids, Hmem.
      unfold emit, same_page_reference.
      cbn [out set_out anchors ids checked_urls requests].
      rewrite Hout, !append_assoc. reflexivity.
    + rewrite <- Hout. destruct st1; reflexivity.
  - intros rest css H. cbv in H. discriminate H.
  - intros Hpre H.
    assert (exists v', v = String "h" v') as [v' ->].
    { destruct v as [|c v']; [discriminate Hpre|].
      unfold PyStr.startswith in Hpre. rewrite !prefix_cons in Hpre.
      destruct (Ascii.ascii_dec "h" c) as [<-|]; [eauto | discriminate]. }
    cbv in H. discriminate H.
  - intros H. cbv in H. discriminate H.
Qed.

End StringValues.

(** C1 for an identifier that also resolves to a documentation URL and also
    begins with [https://]. *)
Lemma write_value_identity_reference_witness :
  set_has (JStr example_iri) (ids (set_ids [JStr example_iri] init_state)) = true
  /\ fst (get_doc_url net_reachable (Some Classes) example_iri (JObj example_context)
            (set_ids [JStr example_iri] init_state))
     = Ok (Some (DOC_BASE ++ "Core/Classes/Element"), JObj example_context,
           Some "classes")
  /\ PyStr.startswith example_iri "https://" = true
  /\ out (snd (write_value net_reachable (JStr example_iri) 0 (JObj example_context)
                 (Some Classes) (set_ids [JStr example_iri] init_state)))
     = same_page_reference example_iri.
Proof.
  do 3 (split; [reflexivity|]).
  rewrite (proj1 (write_value_identity_reference net_reachable example_iri 0
                    (JObj example_context) (Some Classes)
                    (set_ids [JStr example_iri] init_state) eq_refl)).
  reflexivity.
Defined.

(** ** IdentityIndex (C5, C10) *)

Lemma set_add_insert (x : json) (s : pyset) :
  set_add x s = if hashable x then Ok (insert x s) else Err TypeError.
Proof. reflexivity. Qed.

Lemma py_eq_atom_l (x y : json) :
  hashable y = true -> py_eq x y = true -> hashable x = true.
Proof.
  destruct x, y; cbn; intros; congruence.
Qed.

Lemma py_eq_sym (x y : json) : hashable x = true -> py_eq x y = py_eq y x.
Proof.
  destruct x, y; cbn; intros Hx; try reflexivity; try discriminate.
  - destruct b, b0; reflexivity.
  - apply Z.eqb_sym.
  - apply Z.eqb_sym.
  - apply Z.eqb_sym.
  - apply String.eqb_sym.
Qed.

Lemma py_eq_trans (x y z : json) :
  hashable y = true -> py_eq x y = true -> py_eq y z = true -> py_eq x z = true.
Proof.
  intros Hy Hxy Hyz.
  destruct y; try discriminate; destruct x; try discriminate;
    destruct z; try discriminate; cbn in *;
    repeat match goal with
           | b : bool |- _ => destruct b
           | H : (_ =? _)%Z = true |- _ => apply Z.eqb_eq in H
           | H : String.eqb _ _ = true |- _ => apply String.eqb_eq in H
           | H : Bool.eqb _ _ = true |- _ => apply Bool.eqb_prop in H
           end;
    subst; cbn in *;
    try reflexivity; try discriminate; try lia;
    try apply Z.eqb_refl; try apply String.eqb_refl.
Qed.

Lemma set_has_app (y : json) (s t : pyset) :
  set_has y (s ++ t)%list = set_has y s || set_has y t.
Proof. apply existsb_app. Qed.

Lemma set_has_insert (y x : json) (s : pyset) :
  hashable x = true ->
  set_has y (insert x s) = set_has y s || py_eq y x.
Proof.
  intros Hx. unfold insert.
  destruct (set_has x s) eqn:Hin.
  - destruct (py_eq y x) eqn:Hyx; [|now rewrite orb_false_r].
    rewrite orb_true_r.
    apply existsb_exists in Hin as (x' & Hx' & Hxx').
    apply existsb_exists. exists x'. split; [assumption|].
    exact (py_eq_trans y x x' Hx Hyx Hxx').
  - rewrite set_has_app. cbn. now rewrite orb_false_r.
Qed.

Lemma set_has_insert_all (y : json) (l : list json) (s : pyset) :
  Forall (fun x => hashable x = true) l ->
  set_has y (insert_all l s) = set_has y s || existsb (py_eq y) l.
Proof.
  intros Hl. revert s.
  induction Hl as [|x l Hx _ IH]; intros s; cbn [existsb].
  - now rewrite orb_false_r.
  - change (insert_all (x :: l) s) with (insert_all l (insert x s)).
    rewrite IH, set_has_insert by assumption. now rewrite orb_assoc.
Qed.

Lemma insert_all_app (l l' : list json) (s : pyset) :
  insert_all (l ++ l') s = insert_all l' (insert_all l s).
Proof. apply fold_left_app. Qed.

Lemma set_ids_ids (st : state) : set_ids (ids st) st = st.
Proof. now destruct st. Qed.

Lemma set_ids_set_ids (a b : pyset) (st : state) :
  set_ids a (set_ids b st) = set_ids a st.
Proof. reflexivity. Qed.

Lemma adds_nil (st : state) : adds [] st st.
Proof. split; [symmetry; apply set_ids_ids | constructor]. Qed.

Lemma adds_app (l l' : list json) (st st' st'' : state) :
  adds l st st' -> adds l' st' st'' -> adds (l ++ l') st st''.
Proof.
  intros [-> Hl] [-> Hl']. split.
  - now rewrite insert_all_app.
  - apply Forall_app; auto.
Qed.

Lemma add_id_adds (x : json) (st : state) :
  match add_id x st with
  | (Ok _, st') => adds [x] st st'
  | (Err e, st') => hashable x = false /\ e = TypeError /\ st' = st
  end.
Proof.
  unfold add_id. rewrite set_add_insert.
  destruct (hashable x) eqn:Hx; [|auto].
  split; [reflexivity | now constructor].
Qed.

Lemma import_loop_adds (l : list json) (st : state) :
  match for_each l (fun i => x <- lift (py_getitem i (JStr "externalSpdxId")) ;;
                             add_id x) st with
  | (Ok _, st') => adds (flat_map external_id l) st st'
  | (Err _, _) => True
  end.
Proof.
  revert st. induction l as [|i l IH]; intros st; cbn [for_each flat_map].
  - apply adds_nil.
  - unfold bind at 1. unfold bind at 1. unfold lift at 1. unfold external_id at 1.
    destruct (py_getitem i (JStr "externalSpdxId")) as [x|e]; [|exact I].
    pose proof (add_id_adds x st) as Hadd.
    destruct (add_id x st) as [[[]|e] st1]; [|exact I].
    specialize (IH st1).
    destruct (for_each l _ st1) as [[[]|e] st2]; [|exact I].
    exact (adds_app _ _ _ _ _ Hadd IH).
Qed.

Lemma index_node_adds (node : json) (st : state) :
  match index_node node st with
  | (Ok _, st') => adds (node_contribution node) st st'
  | (Err _, _) => True
  end.
Proof.
  unfold index_node, node_contribution, node_identifier.
  unfold bind at 1. unfold lift at 1.
  destruct (get_obj_id node) as [obj_id|e] eqn:Hid; [|exact I].
  destruct (py_truthy obj_id); cbn [negb]; [|apply adds_nil].
  unfold bind at 1.
  pose proof (add_id_adds obj_id st) as Hadd.
  destruct (add_id obj_id st) as [[[]|e] st1]; [|exact I].
  destruct node as [| | | | |d]; try discriminate Hid.
  unfold bind at 1. unfold lift at 1. unfold py_getitem at 1, node_imports.
  destruct (dict_get "type" d) as [t|]; [|exact I].
  destruct (py_eq t (JStr "SpdxDocument")).
  - unfold bind at 1. unfold lift at 1. cbn [py_get rbind]. unfold import_ids.
    destruct (py_iter (dict_get_default "import" d (JList []))) as [imports|e];
      [|exact I].
    pose proof (import_loop_adds imports st1) as Hloop.
    destruct (for_each imports _ st1) as [[[]|e] st2]; [|exact I].
    exact (adds_app _ _ _ _ _ Hadd Hloop).
  - cbn [ret]. rewrite <- (app_nil_r [obj_id]) at 1.
    exact (adds_app _ _ _ _ _ Hadd (adds_nil st1)).
Qed.

Lemma graph_loop_adds (graph : list json) (st : state) :
  match for_each graph index_node st with
  | (Ok _, st') => adds (flat_map node_contribution graph) st st'
  | (Err _, _) => True
  end.
Proof.
  revert st. induction graph as [|node graph IH]; intros st; cbn [for_each flat_map].
  - apply adds_nil.
  - unfold bind.
    pose proof (index_node_adds node st) as Hnode.
    destruct (index_node node st) as [[[]|e] st1]; [|exact I].
    specialize (IH st1).
    destruct (for_each graph index_node st1) as [[[]|e] st2]; [|exact I].
    exact (adds_app _ _ _ _ _ Hnode IH).
Qed.

Lemma same_io_refl (st : state) : same_io st st.
Proof. repeat split. Qed.

Lemma same_io_trans (a b c : state) : same_io a b -> same_io b c -> same_io a c.
Proof.
  intros (H1 & H2 & H3) (H4 & H5 & H6). repeat split; congruence.
Qed.

Lemma add_id_same_io (x : json) (st : state) : same_io st (snd (add_id x st)).
Proof.
  unfold add_id. destruct (set_add x (ids st)); repeat split.
Qed.

Lemma for_each_same_io {A} (body : A -> M unit) (l : list A) :
  (forall x st, same_io st (snd (body x st))) ->
  forall st, same_io st (snd (for_each l body st)).
Proof.
  intros Hbody. induction l as [|x l IH]; intros st; cbn [for_each].
  - apply same_io_refl.
  - unfold bind. specialize (Hbody x st).
    destruct (body x st) as [[[]|e] st1]; cbn [snd] in *; [|assumption].
    eapply same_io_trans; [eassumption | apply IH].
Qed.

Lemma index_node_same_io (node : json) (st : state) :
  same_io st (snd (index_node node st)).
Proof.
  unfold index_node. unfold bind at 1. unfold lift at 1.
  destruct (get_obj_id node) as [obj_id|e]; [|apply same_io_refl].
  destruct (py_truthy obj_id); cbn [negb]; [|apply same_io_refl].
  unfold bind at 1.
  pose proof (add_id_same_io obj_id st) as Hadd.
  destruct (add_id obj_id st) as [[[]|e] st1]; cbn [snd] in *; [|assumption].
  unfold bind at 1. unfold lift at 1.
  destruct (py_getitem node (JStr "type")) as [t|e]; cbn [snd]; [|assumption].
  destruct (py_eq t (JStr "SpdxDocument")); cbn [ret snd]; [|assumption].
  unfold bind at 1. unfold lift at 1.
  destruct (rbind _ py_iter) as [imports|e]; cbn [snd]; [|assumption].
  eapply same_io_trans; [eassumption|].
  apply for_each_same_io. intros i st'.
  unfold bind, lift.
  destruct (py_getitem i (JStr "externalSpdxId")) as [x|e];
    [apply add_id_same_io | apply same_io_refl].
Qed.

Lemma index_data_same_io (data : dict) (st : state) :
  same_io st (snd (index_data data st)).
Proof.
  unfold index_data. unfold bind at 1. unfold bind at 1. unfold lift at 1.
  destruct (py_iter _) as [graph|e]; cbn [snd]; [|repeat split].
  eapply same_io_trans; [|apply for_each_same_io, index_node_same_io].
  repeat split.
Qed.

Lemma import_loop_ok (l : list json) (st : state) :
  forallb import_ok l = true ->
  fst (for_each l (fun i => x <- lift (py_getitem i (JStr "externalSpdxId")) ;;
                            add_id x) st) = Ok tt.
Proof.
  revert st. induction l as [|i l IH]; intros st Hl; cbn [for_each].
  - reflexivity.
  - cbn [forallb] in Hl. apply andb_prop in Hl as [Hi Hl].
    destruct i as [| | | | |e]; try discriminate Hi. cbn [import_ok] in Hi.
    unfold bind at 1. unfold bind at 1. unfold lift at 1. unfold py_getitem at 1.
    destruct (dict_get "externalSpdxId" e) as [x|]; [|discriminate Hi].
    unfold add_id at 1. rewrite set_add_insert, Hi.
    now apply IH.
Qed.

Lemma index_node_ok (node : json) (st : state) :
  node_ok node = true -> fst (index_node node st) = Ok tt.
Proof.
  intros Hok. destruct node as [| | | | |d]; try discriminate Hok.
  cbn [node_ok] in Hok.
  unfold index_node. unfold bind at 1. unfold lift at 1.
  cbn [get_obj_id py_get rbind].
  destruct (py_truthy _); cbn [negb]; [|reflexivity].
  apply andb_prop in Hok as [Hhash Hok].
  unfold bind at 1. unfold add_id at 1. rewrite set_add_insert, Hhash.
  unfold bind at 1. unfold lift at 1. unfold py_getitem at 1.
  destruct (dict_get "type" d) as [t|]; [|discriminate Hok].
  destruct (py_eq t (JStr "SpdxDocument")); [|reflexivity].
  unfold bind at 1. unfold lift at 1. cbn [py_get rbind].
  destruct (dict_get_default "import" d (JList [])) as [| | | |l|]; try discriminate Hok.
  cbn [py_iter]. now apply import_loop_ok.
Qed.

Lemma graph_loop_ok (graph : list json) (st : state) :
  forallb node_ok graph = true -> fst (for_each graph index_node st) = Ok tt.
Proof.
  revert st. induction graph as [|node graph IH]; intros st Hg; cbn [for_each].
  - reflexivity.
  - cbn [forallb] in Hg. apply andb_prop in Hg as [Hnode Hg].
    unfold bind. pose proof (index_node_ok node st Hnode) as H.
    destruct (index_node node st) as [[[]|e] st1]; [|discriminate H].
    now apply IH.
Qed.

(** C5, as stated, fails: the imports of an SpdxDocument node that has no
    identifier are not indexed, because the node is skipped as a whole. *)
Lemma index_data_skips_anonymous_document :
  index_data [("@graph", JList anonymous_document_graph)] init_state
    = (Ok tt, init_state)
  /\ spec_identity_index anonymous_document_graph = [JStr "urn:ext"]
  /\ set_has (JStr "urn:ext")
       (ids (snd (index_data [("@graph", JList anonymous_document_graph)] init_state)))
     <> set_has (JStr "urn:ext") (spec_identity_index anonymous_document_graph).
Proof.
  repeat split; try reflexivity.
  vm_compute. discriminate.
Qed.

(** C5, amended: [index_data] gets through every graph whose nodes are
    objects that, when they have a truthy identifier, have a hashable one
    and a [type], and whose imports are objects with a hashable
    [externalSpdxId]; and whenever it does not raise, [ids] holds exactly
    the truthy [@id]/[spdxId] of every top-level node together with the
    [externalSpdxId] of every import of every top-level node that has such an
    identifier and whose type equals SpdxDocument.  A node without an
    identifier is skipped whole, its imports included. *)
Theorem index_data_builds_index (data : dict) (st : state) :
  (forall g, dict_get_default "@graph" data (JList []) = JList g ->
             forallb node_ok g = true ->
             fst (index_data data st) = Ok tt)
  /\ (forall st', index_data data st = (Ok tt, st') ->
      exists graph,
        py_iter (dict_get_default "@graph" data (JList [])) = Ok graph
        /\ forall y, set_has y (ids st') = true
                     <-> exists x, In x (indexed_ids graph) /\ py_eq y x = true).
Proof.
  split.
  - intros g Hg Hok. unfold index_data.
    unfold bind at 1. unfold bind at 1. unfold lift at 1.
    rewrite Hg. cbn [py_iter]. now apply graph_loop_ok.
  - intros st' Hrun. unfold index_data in Hrun.
    unfold bind at 1 in Hrun. unfold bind at 1 in Hrun. unfold lift at 1 in Hrun.
    destruct (py_iter _) as [graph|e]; [|discriminate Hrun].
    exists graph. split; [reflexivity|].
    pose proof (graph_loop_adds graph (set_ids [] (set_anchors [] st))) as Hloop.
    rewrite Hrun in Hloop. destruct Hloop as [-> Hhash].
    intros y. cbn [ids set_ids]. rewrite set_has_insert_all by assumption.
    cbn [set_has existsb orb]. unfold indexed_ids. apply existsb_exists.
Qed.

(** The amended C5 on a graph with a document, a node without identifier
    and a package. *)
Lemma index_data_builds_index_witness :
  forallb node_ok document_graph = true
  /\ index_data [("@graph", JList document_graph)] init_state
     = (Ok tt, set_ids [JStr "urn:doc"; JStr "urn:ext"; JStr "urn:pkg"] init_state)
  /\ exists graph,
       py_iter (dict_get_default "@graph" [("@graph", JList document_graph)] (JList []))
         = Ok graph
       /\ forall y, set_has y [JStr "urn:doc"; JStr "urn:ext"; JStr "urn:pkg"] = true
                    <-> exists x, In x (indexed_ids graph) /\ py_eq y x = true.
Proof.
  split; [reflexivity|]. split; [reflexivity|].
  exact (proj2 (index_data_builds_index [("@graph", JList document_graph)] init_state)
               _ eq_refl).
Defined.

Section UntypedNodes.

Variable urlopen : network.

(** C10: a top-level node with a truthy identifier and no [type] key makes
    [index_data] raise; the exception is [KeyError] for the key [type]
    when the identifier is hashable and the nodes before it were indexed
    without an exception; [write] then raises the same exception before it
    has written anything.  A node without a truthy identifier is left
    behind before [type] is looked up: it raises nothing and adds nothing,
    whether or not it has a [type]. *)
Theorem index_data_untyped_node (data : dict) (before after : list json)
    (d : dict) (st : state) :
  py_iter (dict_get_default "@graph" data (JList []))
    = Ok (before ++ JObj d :: after)%list ->
  py_truthy (dict_get_default "@id" d (dict_get_default "spdxId" d JNull)) = true ->
  dict_get "type" d = None ->
  is_ok (fst (index_data data st)) = false
  /\ (hashable (dict_get_default "@id" d (dict_get_default "spdxId" d JNull)) = true ->
      is_ok (fst (for_each before index_node (set_ids [] (set_anchors [] st)))) = true ->
      fst (index_data data st) = Err (KeyError (JStr "type")))
  /\ (forall context_doc,
        fst (write urlopen data context_doc st) = fst (index_data data st)
        /\ out (snd (write urlopen data context_doc st)) = out st)
  /\ (forall (d' : dict) (st0 : state),
        py_truthy (dict_get_default "@id" d' (dict_get_default "spdxId" d' JNull))
          = false ->
        index_node (JObj d') st0 = (Ok tt, st0)).
Proof.
  intros Hgraph Hid Htype.
  assert (Hnode : forall s,
             is_ok (fst (index_node (JObj d) s)) = false
             /\ (hashable (dict_get_default "@id" d (dict_get_default "spdxId" d JNull))
                 = true ->
                 fst (index_node (JObj d) s) = Err (KeyError (JStr "type")))).
  { intros s.
    assert (Hrun : index_node (JObj d) s
                   = match set_add (dict_get_default "@id" d
                                      (dict_get_default "spdxId" d JNull)) (ids s) with
                     | Ok s' => (Err (KeyError (JStr "type")), set_ids s' s)
                     | Err e => (Err e, s)
                     end).
    { unfold index_node, bind, lift. cbn [get_obj_id py_get rbind].
      rewrite Hid. cbn [negb]. unfold add_id, py_getitem. rewrite Htype.
      destruct (set_add _ (ids s)); reflexivity. }
    rewrite Hrun, set_add_insert.
    destruct (hashable _); split; try reflexivity. discriminate. }
  assert (Hloop : forall s,
             is_ok (fst (for_each (before ++ JObj d :: after)%list index_node s)) = false
             /\ (hashable (dict_get_default "@id" d (dict_get_default "spdxId" d JNull))
                 = true ->
                 is_ok (fst (for_each before index_node s)) = true ->
                 fst (for_each (before ++ JObj d :: after)%list index_node s)
                 = Err (KeyError (JStr "type")))).
  { clear Hgraph.
    induction before as [|node before IH]; intros s; cbn [app for_each]; unfold bind.
    - destruct (Hnode s) as [Hfail Hkey].
      destruct (index_node (JObj d) s) as [[[]|e] s1]; [discriminate Hfail|].
      split; [reflexivity|]. intros Hhash _. exact (Hkey Hhash).
    - destruct (index_node node s) as [[[]|e] s1].
      + apply IH.
      + split; [reflexivity|]. intros _ H. discriminate H. }
  assert (Hdata : fst (index_data data st)
                  = fst (for_each (before ++ JObj d :: after)%list index_node
                           (set_ids [] (set_anchors [] st)))).
  { unfold index_data. unfold bind at 1. unfold bind at 1. unfold lift at 1.
    rewrite Hgraph. reflexivity. }
  destruct (Hloop (set_ids [] (set_anchors [] st))) as [Hfail Hkey].
  rewrite <- Hdata in Hfail, Hkey.
  repeat split.
  - exact Hfail.
  - exact Hkey.
  - unfold write. unfold bind at 1.
    destruct (index_data data st) as [[[]|e] st1]; [discriminate Hfail | reflexivity].
  - unfold write. unfold bind at 1.
    pose proof (index_data_same_io data st) as (Hout & _).
    destruct (index_data data st) as [[[]|e] st1]; [discriminate Hfail | exact Hout].
  - intros d' st0 Hfalsy. unfold index_node, bind, lift.
    cbn [get_obj_id py_get rbind]. rewrite Hfalsy. reflexivity.
Qed.

End UntypedNodes.

(** C10 on a graph whose second node has an identifier and no type. *)
Lemma index_data_untyped_node_witness :
  fst (index_data
         [("@graph", JList [JObj [("name", JStr "anonymous")];
                            JObj [("spdxId", JStr "urn:a")];
                            JObj [("spdxId", JStr "urn:b"); ("type", JStr "Person")]])]
         init_state)
  = Err (KeyError (JStr "type")).
Proof.
  refine (proj1 (proj2 (index_data_untyped_node net_reachable
            [("@graph", JList [JObj [("name", JStr "anonymous")];
                               JObj [("spdxId", JStr "urn:a")];
                               JObj [("spdxId", JStr "urn:b"); ("type", JStr "Person")]])]
            [JObj [("name", JStr "anonymous")]]
            [JObj [("spdxId", JStr "urn:b"); ("type", JStr "Person")]]
            [("spdxId", JStr "urn:a")] init_state eq_refl eq_refl eq_refl)) eq_refl eq_refl).
Defined.

(** ** Invariants of a render

    A property of the state that every write to the file, every anchor
    allocation and every URL check keeps is kept by the whole render, and
    the property promised for the state in which an exception is raised
    holds when the render is aborted. *)

Section Invariant.

Variable urlopen : network.
Variable P : state -> Prop.
Variable E : exn -> state -> Prop.

Local Abbreviation post := (post P E).
Local Abbreviation keeps := (keeps P E).

Hypothesis P_emit : forall s st, P st -> P (set_out (out st ++ s) st).
Hypothesis P_raise : forall e st, P st -> E e st.
Hypothesis get_anchor_keeps : forall name prefix context,
    keeps (get_anchor name prefix context).
Hypothesis check_url_keeps : forall url, keeps (check_url urlopen url).

Lemma keeps_ret {A} (a : A) : keeps (ret a).
Proof. intros st H. exact H. Qed.

Lemma keeps_lift {A} (r : result A) : keeps (lift r).
Proof. intros st H. destruct r; cbn; auto. Qed.

Lemma keeps_read {A} (f : state -> A) : keeps (fun st => (Ok (f st), st)).
Proof. intros st H. exact H. Qed.

Lemma keeps_emit (s : string) : keeps (emit s).
Proof. intros st H. apply P_emit, H. Qed.

Lemma keeps_emit_if (c : bool) (s : string) : keeps (emit_if c s).
Proof. destruct c; [apply keeps_emit | apply keeps_ret]. Qed.

Lemma keeps_bind {A B} (m : M A) (f : A -> M B) :
  keeps m -> (forall a, keeps (f a)) -> keeps (bind m f).
Proof.
  intros Hm Hf st H. unfold bind. specialize (Hm st H).
  destruct (m st) as [[a|e] st1]; cbn in Hm; [apply Hf, Hm | exact Hm].
Qed.

Lemma keeps_for_each {A} (l : list A) (body : A -> M unit) :
  (forall x, keeps (body x)) -> keeps (for_each l body).
Proof.
  intros Hbody. induction l as [|x l IH]; cbn [for_each].
  - apply keeps_ret.
  - apply keeps_bind; auto.
Qed.

Lemma get_doc_url_keeps typ name context :
  keeps (get_doc_url urlopen typ name context).
Proof.
  unfold get_doc_url. apply keeps_bind; [apply keeps_lift|].
  intros [sub [[rdf_uri t]|]]; [|apply keeps_ret].
  apply keeps_bind; [apply keeps_lift|].
  intros [url|]; [|apply keeps_ret].
  apply keeps_bind; [apply check_url_keeps | intros; apply keeps_ret].
Qed.

Lemma write_str_keeps v context typ : keeps (write_str urlopen v context typ).
Proof.
  unfold write_str. apply keeps_bind; [apply get_doc_url_keeps|].
  intros [[u sub] css]. apply keeps_bind; [apply keeps_read|].
  intros [|].
  - repeat (apply keeps_bind; [apply keeps_emit | intros _]). apply keeps_emit.
  - destruct u as [url|].
    + repeat (apply keeps_bind; [apply keeps_emit | intros _]). apply keeps_emit.
    + destruct (_ || _).
      * repeat (apply keeps_bind; [apply keeps_emit | intros _]). apply keeps_emit.
      * apply keeps_emit.
Qed.

Lemma span_open_keeps (anchor : json) :
  keeps (if py_truthy anchor
         then id <- lift (py_html_escape anchor) ;; emit (span_id_open id)
         else ret tt).
Proof.
  destruct (py_truthy anchor); [|apply keeps_ret].
  apply keeps_bind; [apply keeps_lift | intros; apply keeps_emit].
Qed.

Section Methods.

Variable write_value' : json -> nat -> json -> option kind -> M unit.

Lemma write_key_value_body_keeps k v indent context :
  (forall i c t, keeps (write_value' v i c t)) ->
  keeps (write_key_value_body urlopen write_value' k v indent context).
Proof.
  intros Hv. unfold write_key_value_body.
  apply keeps_bind; [apply get_anchor_keeps | intros anchor].
  apply keeps_bind; [apply span_open_keeps | intros _].
  apply keeps_bind; [apply keeps_emit | intros _].
  apply keeps_bind; [apply get_doc_url_keeps | intros [[u sub] css]].
  apply keeps_bind; [destruct u; [apply keeps_emit | apply keeps_ret] | intros _].
  apply keeps_bind; [apply keeps_emit | intros _].
  apply keeps_bind; [destruct u; [apply keeps_emit | apply keeps_ret] | intros _].
  apply keeps_bind; [apply keeps_emit | intros _].
  apply keeps_bind; [apply Hv | intros _].
  apply keeps_emit_if.
Qed.

Lemma write_items_keeps lst indent context :
  Forall (fun v => forall i c t, keeps (write_value' v i c t)) lst ->
  keeps (write_items write_value' lst indent context).
Proof.
  induction 1 as [|v rest Hv Hrest IH]; cbn [write_items]; [apply keeps_ret|].
  apply keeps_bind; [apply keeps_emit | intros _].
  apply keeps_bind; [apply Hv | intros _].
  destruct rest; [apply keeps_emit|].
  apply keeps_bind; [apply keeps_emit | intros _].
  apply keeps_bind; [apply keeps_emit | intros _]. exact IH.
Qed.

Lemma write_list_body_keeps lst indent context :
  Forall (fun v => forall i c t, keeps (write_value' v i c t)) lst ->
  keeps (write_list_body write_value' lst indent context).
Proof.
  intros Hl. unfold write_list_body.
  apply keeps_bind; [apply keeps_emit | intros _].
  apply keeps_bind; [apply keeps_emit | intros _].
  apply keeps_bind; [now apply write_items_keeps | intros _].
  apply keeps_emit.
Qed.

Lemma write_pairs_keeps items indent context :
  Forall (fun kv => forall i c t, keeps (write_value' (snd kv) i c t)) items ->
  keeps (write_pairs urlopen write_value' items indent context).
Proof.
  induction 1 as [|[k v] rest Hv Hrest IH]; cbn [write_pairs]; [apply keeps_ret|].
  apply keeps_bind; [now apply write_key_value_body_keeps | intros _].
  destruct rest; [apply keeps_emit|].
  apply keeps_bind; [apply keeps_emit | intros _].
  apply keeps_bind; [apply keeps_emit | intros _]. exact IH.
Qed.

Lemma write_obj_body_keeps obj indent context :
  Forall (fun kv => forall i c t, keeps (write_value' (snd kv) i c t)) obj ->
  keeps (write_obj_body urlopen write_value' obj indent context).
Proof.
  intros Hobj. unfold write_obj_body.
  apply keeps_bind;
    [destruct (dict_get "type" obj); [apply get_anchor_keeps | apply keeps_ret]
    | intros anchor].
  apply keeps_bind; [apply span_open_keeps | intros _].
  apply keeps_bind; [apply keeps_lift | intros obj_id].
  apply keeps_bind; [apply span_open_keeps | intros _].
  cbv zeta.
  apply keeps_bind; [apply span_open_keeps | intros _].
  apply keeps_bind; [apply keeps_emit | intros _].
  apply keeps_bind; [apply keeps_emit | intros _].
  apply keeps_bind; [now apply write_pairs_keeps | intros _].
  apply keeps_bind; [apply keeps_emit | intros _].
  apply keeps_bind; [apply keeps_emit_if | intros _].
  apply keeps_bind; [apply keeps_emit_if | intros _].
  apply keeps_emit_if.
Qed.

End Methods.

Lemma write_value_keeps v : forall indent context typ,
  keeps (write_value urlopen v indent context typ).
Proof.
  induction v using json_induction; intros indent context typ; cbn [write_value].
  - apply keeps_emit.
  - apply keeps_emit.
  - apply keeps_emit.
  - apply write_str_keeps.
  - now apply write_list_body_keeps.
  - now apply write_obj_body_keeps.
Qed.

Lemma write_obj_keeps obj indent context :
  keeps (write_obj urlopen obj indent context).
Proof.
  apply write_obj_body_keeps, Forall_forall.
  intros kv _ i c t. apply write_value_keeps.
Qed.

Lemma write_key_value_keeps k v indent context :
  keeps (write_key_value urlopen k v indent context).
Proof.
  apply write_key_value_body_keeps. intros. apply write_value_keeps.
Qed.

Hypothesis P_ids : forall s st, P st -> P (set_ids s st).
Hypothesis P_reset : forall st, P st -> P (set_anchors [] st).

Lemma add_id_keeps x : keeps (add_id x).
Proof.
  intros st H. unfold add_id.
  destruct (set_add x (ids st)); cbn; auto.
Qed.

Lemma index_data_keeps data : keeps (index_data data).
Proof.
  unfold index_data.
  apply keeps_bind; [intros st H; cbn; auto | intros _].
  apply keeps_bind; [apply keeps_lift | intros graph].
  apply keeps_for_each. intros node. unfold index_node.
  apply keeps_bind; [apply keeps_lift | intros obj_id].
  destruct (negb _); [apply keeps_ret|].
  apply keeps_bind; [apply add_id_keeps | intros _].
  apply keeps_bind; [apply keeps_lift | intros t].
  destruct (py_eq _ _); [|apply keeps_ret].
  apply keeps_bind; [apply keeps_lift | intros imports].
  apply keeps_for_each. intros i.
  apply keeps_bind; [apply keeps_lift | intros x; apply add_id_keeps].
Qed.

Lemma write_keeps data context_doc : keeps (write urlopen data context_doc).
Proof.
  unfold write.
  apply keeps_bind; [apply index_data_keeps | intros _].
  repeat (apply keeps_bind; [apply keeps_emit | intros _]).
  apply keeps_bind; [apply keeps_lift | intros context].
  apply keeps_bind; [apply write_obj_keeps | intros _].
  apply keeps_emit.
Qed.

End Invariant.

(** ** Frames of the two stateful components *)

Lemma get_anchor_frame (name : json) (prefix : string) (context : json) (st : state) :
  let st' := snd (get_anchor name prefix context st) in
  ids st' = ids st /\ checked_urls st' = checked_urls st
  /\ out st' = out st /\ requests st' = requests st.
Proof.
  unfold get_anchor, bind, lift.
  destruct (anchor_candidate name prefix context) as [anchor|e]; cbn; auto.
  destruct (set_mem anchor (anchors st)) as [[|]|e]; cbn; auto.
Qed.

Lemma py_eq_refl (x : json) : hashable x = true -> py_eq x x = true.
Proof.
  destruct x; cbn; intros H; try discriminate; try reflexivity.
  - now destruct b.
  - apply Z.eqb_refl.
  - apply String.eqb_refl.
Qed.

Lemma set_mem_false_not_in (x : json) (s : pyset) :
  set_mem x s = Ok false -> ~ In x s.
Proof.
  unfold set_mem. destruct (hashable x) eqn:Hx; [|discriminate].
  intros H Hin. injection H as H.
  assert (existsb (py_eq x) s = true) as Habs
      by (apply existsb_exists; exists x; auto using py_eq_refl).
  congruence.
Qed.

Lemma NoDup_snoc {A} (l : list A) (x : A) :
  NoDup l -> ~ In x l -> NoDup (l ++ [x]).
Proof.
  intros Hl Hx. induction Hl as [|y l Hy Hl IH]; cbn.
  - constructor; [intros [] | constructor].
  - constructor.
    + rewrite in_app_iff. intros [H|[H|[]]]; [contradiction|].
      subst. apply Hx. now left.
    + apply IH. intros H. apply Hx. now right.
Qed.

Lemma snoc_split {A} (l pre post : list A) (x u : A) :
  (l ++ [x] = pre ++ u :: post)%list ->
  (post = [] /\ pre = l /\ u = x)
  \/ exists post', post = (post' ++ [x])%list /\ l = (pre ++ u :: post')%list.
Proof.
  intros H. destruct post as [|z post].
  - left. apply app_inj_tail in H as [-> ->]. auto.
  - right.
    destruct (@exists_last _ (z :: post)) as (post' & y & Heq); [discriminate|].
    rewrite Heq in *. exists post'.
    change (pre ++ u :: post' ++ [y])%list with (pre ++ (u :: post') ++ [y])%list in H.
    rewrite app_assoc in H. apply app_inj_tail in H as [-> ->]. auto.
Qed.

Lemma str_mem_In (s : string) (l : list string) : str_mem s l = true <-> In s l.
Proof.
  unfold str_mem. rewrite existsb_exists. split.
  - intros (x & Hx & Heq). apply String.eqb_eq in Heq. now subst.
  - intros H. exists s. split; [assumption | apply String.eqb_refl].
Qed.

Lemma str_add_In (s u : string) (l : list string) :
  In u (str_add s l) <-> In u l \/ u = s.
Proof.
  unfold str_add. destruct (str_mem s l) eqn:Hs.
  - apply str_mem_In in Hs. split; [auto | intros [H| ->]; assumption].
  - rewrite in_app_iff. cbn. intuition congruence.
Qed.

Lemma str_add_member (s : string) (l : list string) :
  str_mem s l = true -> str_add s l = l.
Proof. unfold str_add. now intros ->. Qed.

Lemma set_checked_urls_same (st : state) : set_checked_urls (checked_urls st) st = st.
Proof. now destruct st. Qed.

(** ** LinkValidator: at most one check per URL (C3) *)

Section UrlCache.

Variable urlopen : network.

Lemma check_url_cache (url : string) :
  keeps cache_covers (fun _ st => NoDup (requests st)) (check_url urlopen url).
Proof.
  intros st [Hnd Hcov]. unfold check_url.
  destruct (str_mem url (checked_urls st)) eqn:Hmem.
  - rewrite str_add_member by assumption. rewrite set_checked_urls_same.
    split; assumption.
  - assert (~ In url (requests st)) as Hfresh
        by (intros Hin; apply Hcov in Hin; congruence).
    assert (NoDup (requests st ++ [url])) as Hnd' by now apply NoDup_snoc.
    destruct (urlopen (requests st) url) as [|e].
    + split; [exact Hnd'|]. cbn. intros u Hu.
      apply str_mem_In, str_add_In. apply in_app_iff in Hu as [Hu|[->|[]]]; auto.
      left. apply str_mem_In. auto.
    + destruct e; try exact Hnd'.
      destruct (code =? 404)%Z; exact Hnd'.
Qed.

Lemma get_anchor_cache name prefix context :
  keeps cache_covers (fun _ st => NoDup (requests st))
    (get_anchor name prefix context).
Proof.
  intros st [Hnd Hcov].
  destruct (get_anchor_frame name prefix context st) as (_ & Hc & _ & Hr).
  destruct (get_anchor name prefix context st) as [[a|e] st']; cbn in *.
  - split; rewrite Hr; [assumption|]. now rewrite Hc.
  - now rewrite Hr.
Qed.

(** C3: in a render no URL is opened twice, however many resolutions give
    it; the same holds for the rendering of any value from a state whose
    cache covers the requests made; and a resolution whose URL is in the
    cache succeeds and leaves the state, the request log included, as it
    was. *)
Theorem one_check_per_url :
  (forall data context_doc,
      NoDup (requests (snd (write urlopen data context_doc init_state))))
  /\ (forall v indent context typ st,
         cache_covers st ->
         NoDup (requests (snd (write_value urlopen v indent context typ st))))
  /\ (forall typ name context sub rdf_uri t url st,
         resolve typ name context = Ok (sub, Some (rdf_uri, t)) ->
         doc_url t rdf_uri = Ok (Some url) ->
         str_mem url (checked_urls st) = true ->
         get_doc_url urlopen typ name context st
         = (Ok (Some url, sub, Some (PyStr.lower (kind_name t))), st)).
Proof.
  assert (Hemit : forall s st, cache_covers st ->
                              cache_covers (set_out (out st ++ s) st))
    by (intros s st H; exact H).
  assert (Hraise : forall (e : exn) st, cache_covers st -> NoDup (requests st))
    by (intros e st [H _]; exact H).
  split; [|split].
  - intros data context_doc.
    pose proof (write_keeps urlopen cache_covers (fun _ st => NoDup (requests st))
                  Hemit Hraise get_anchor_cache check_url_cache
                  (fun s st H => H) (fun st H => H)
                  data context_doc init_state) as H.
    unfold post in H.
    destruct (write urlopen data context_doc init_state) as [[[]|e] st'];
      cbn [snd]; [apply H | apply H]; (split; [constructor | intros u []]).
  - intros v indent context typ st Hst.
    pose proof (write_value_keeps urlopen cache_covers
                  (fun _ st => NoDup (requests st))
                  Hemit Hraise get_anchor_cache check_url_cache
                  v indent context typ st Hst) as H.
    unfold post in H.
    destruct (write_value urlopen v indent context typ st) as [[[]|e] st'];
      cbn [snd]; [apply H | exact H].
  - intros typ name context sub rdf_uri t url st Hres Hurl Hmem.
    unfold get_doc_url, bind, lift. rewrite Hres, Hurl.
    unfold check_url. rewrite Hmem, str_add_member by assumption.
    now rewrite set_checked_urls_same.
Qed.

End UrlCache.

(** C3: rendering an object that uses both terms opens the URL once. *)
Lemma one_check_per_url_witness :
  requests (snd (write_value net_reachable (JObj [("a", JNum 1); ("b", JNum 2)]) 0
                   (JObj two_terms_context) None init_state))
    = [DOC_BASE ++ "Core/Properties/name"]
  /\ NoDup (requests (snd (write_value net_reachable
                             (JObj [("a", JNum 1); ("b", JNum 2)]) 0
                             (JObj two_terms_context) None init_state))).
Proof.
  split; [reflexivity|].
  exact (proj1 (proj2 (one_check_per_url net_reachable))
           (JObj [("a", JNum 1); ("b", JNum 2)]) 0 (JObj two_terms_context) None
           init_state
           (conj (NoDup_nil _) (fun u (H : In u []) => match H with end))).
Defined.

(** ** LinkValidator: a failed check is fatal (C4) *)

Section FailedCheck.

Variable urlopen : network.

Local Abbreviation all_reachable := (all_reachable urlopen).
Local Abbreviation aborted_by_check := (aborted_by_check urlopen).

Lemma check_url_run (url : string) (st : state) :
  str_mem url (checked_urls st) = false ->
  check_url urlopen url st =
  match urlopen (requests st) url with
  | Reachable =>
      (Ok tt, set_checked_urls (str_add url (checked_urls st))
                (set_requests (requests st ++ [url])%list st))
  | Raises e => (Err (check_failure url e), set_requests (requests st ++ [url])%list st)
  end.
Proof.
  intros Hmem. unfold check_url. rewrite Hmem.
  destruct (urlopen (requests st) url) as [|e]; [reflexivity|].
  destruct e; try reflexivity.
  cbn [check_failure]. destruct (code =? 404)%Z; reflexivity.
Qed.

Lemma check_url_reachable (url : string) :
  keeps all_reachable aborted_by_check (check_url urlopen url).
Proof.
  intros st Hst.
  destruct (str_mem url (checked_urls st)) eqn:Hmem.
  - unfold check_url. rewrite Hmem. exact Hst.
  - rewrite check_url_run by assumption.
    destruct (urlopen (requests st) url) as [|e] eqn:Hnet; cbn.
    + intros pre u post Hsplit. cbn in Hsplit.
      apply snoc_split in Hsplit as [(-> & -> & ->) | (post' & -> & Hreq)];
        [assumption | eapply Hst; eassumption].
    + intros pre u post e0 Hsplit Hfail. cbn in Hsplit.
      apply snoc_split in Hsplit as [(-> & -> & ->) | (post' & -> & Hreq)].
      * split; [reflexivity | congruence].
      * rewrite (Hst _ _ _ Hreq) in Hfail. discriminate Hfail.
Qed.

Lemma get_anchor_reachable name prefix context :
  keeps all_reachable aborted_by_check (get_anchor name prefix context).
Proof.
  intros st Hst.
  destruct (get_anchor_frame name prefix context st) as (_ & _ & _ & Hr).
  destruct (get_anchor name prefix context st) as [[a|e] st']; cbn in *.
  - intros pre u post. rewrite Hr. apply Hst.
  - intros pre u post e0. rewrite Hr. intros Hsplit Hfail.
    rewrite (Hst _ _ _ Hsplit) in Hfail. discriminate Hfail.
Qed.

(** C4: when the URL a name resolves to is not in the cache and opening it
    raises, [get_doc_url] makes that one request and raises: for the status
    404 an [Exception] whose message holds the URL, for every other
    exception the exception itself; the cache is left as it was.  In a
    render the request that raised is the last request made, and the render
    ends with that exception. *)
Theorem failed_check_is_fatal :
  (forall typ name context sub rdf_uri t url st e,
      resolve typ name context = Ok (sub, Some (rdf_uri, t)) ->
      doc_url t rdf_uri = Ok (Some url) ->
      str_mem url (checked_urls st) = false ->
      urlopen (requests st) url = Raises e ->
      get_doc_url urlopen typ name context st
      = (Err (check_failure url e), set_requests (requests st ++ [url])%list st))
  /\ (forall url, check_failure url (HTTPError 404)
                  = Exception ("Url '" ++ url ++ " is not valid"))
  /\ (forall url e, e <> HTTPError 404 -> check_failure url e = e)
  /\ (forall data context_doc earlier url later e,
         requests (snd (write urlopen data context_doc init_state))
           = (earlier ++ url :: later)%list ->
         urlopen earlier url = Raises e ->
         later = []
         /\ fst (write urlopen data context_doc init_state)
            = Err (check_failure url e)).
Proof.
  split; [|split; [|split]].
  - intros typ name context sub rdf_uri t url st e Hres Hurl Hmem Hnet.
    unfold get_doc_url, bind, lift. rewrite Hres, Hurl.
    rewrite check_url_run, Hnet by assumption. reflexivity.
  - reflexivity.
  - intros url e He. destruct e; try reflexivity.
    cbn [check_failure]. destruct (code =? 404)%Z eqn:Hc; [|reflexivity].
    apply Z.eqb_eq in Hc. congruence.
  - intros data context_doc earlier url later e Hsplit Hnet.
    assert (Hraise : forall (e : exn) st, all_reachable st -> aborted_by_check e st).
    { intros e' st Hst pre' u post' e0 Hs Hf.
      rewrite (Hst _ _ _ Hs) in Hf. discriminate Hf. }
    pose proof (write_keeps urlopen all_reachable aborted_by_check
                  (fun s st H => H) Hraise get_anchor_reachable check_url_reachable
                  (fun s st H => H) (fun st H => H)
                  data context_doc init_state) as H.
    unfold post in H.
    destruct (write urlopen data context_doc init_state) as [[[]|e'] st'];
      cbn [fst snd] in *.
    + assert (all_reachable st') as Hok
          by (apply H; intros p u q Hnil; destruct p; discriminate Hnil).
      rewrite (Hok _ _ _ Hsplit) in Hnet. discriminate Hnet.
    + assert (aborted_by_check e' st') as Hab
          by (apply H; intros p u q Hnil; destruct p; discriminate Hnil).
      destruct (Hab _ _ _ _ Hsplit Hnet) as [-> ->]. auto.
Qed.

End FailedCheck.

(** C4: a not-found answer for the URL of [name]. *)
Lemma failed_check_is_fatal_witness :
  get_doc_url net_not_found (Some Properties) "name" (JObj plain_context) init_state
  = (Err (Exception ("Url '" ++ DOC_BASE ++ "Core/Properties/name" ++ " is not valid")),
     set_requests [DOC_BASE ++ "Core/Properties/name"] init_state).
Proof.
  exact (proj1 (failed_check_is_fatal net_not_found)
           (Some Properties) "name" (JObj plain_context) (JObj plain_context)
           (JStr core_name_iri) Properties (DOC_BASE ++ "Core/Properties/name")
           init_state (HTTPError 404) eq_refl eq_refl eq_refl eq_refl).
Defined.

(** ** AnchorAllocator: the anchor set (C2) *)

(** C2, as stated, fails: the span of a node identifier is written without
    consulting the anchor set, so two nodes with one identifier give two
    spans with one id. *)
Lemma node_identifier_emitted_twice :
  fst (write net_reachable twin_document (JObj [("@context", JObj [])]) init_state)
    = Ok tt
  /\ count_occ string_dec
       (emitted_ids
          (out (snd (write net_reachable twin_document
                       (JObj [("@context", JObj [])]) init_state))))
       "urn:a" = 2%nat
  /\ ~ NoDup (emitted_ids
                (out (snd (write net_reachable twin_document
                             (JObj [("@context", JObj [])]) init_state)))).
Proof.
  assert (count_occ string_dec
            (emitted_ids
               (out (snd (write net_reachable twin_document
                            (JObj [("@context", JObj [])]) init_state))))
            "urn:a" = 2%nat) as Hcount by (vm_compute; reflexivity).
  split; [vm_compute; reflexivity|]. split; [exact Hcount|].
  intros Hnd. rewrite (NoDup_count_occ string_dec) in Hnd.
  specialize (Hnd "urn:a"). rewrite Hcount in Hnd. lia.
Qed.

Lemma append_not_empty (a b : string) (c : ascii) :
  String.eqb ((a ++ String c EmptyString) ++ b) EmptyString = false.
Proof. destruct a; reflexivity. Qed.

Lemma anchor_candidate_truthy name prefix context anchor :
  anchor_candidate name prefix context = Ok anchor -> py_truthy anchor = true.
Proof.
  unfold anchor_candidate.
  destruct (py_in name context) as [present|e]; cbn [rbind]; [|discriminate].
  set (found := if present then _ else _).
  destruct found as [a|e]; cbn [rbind]; [|discriminate].
  destruct (py_truthy a) eqn:Ha; [congruence|].
  destruct name; cbn; try discriminate.
  intros [= <-]. cbn. now rewrite append_not_empty.
Qed.

Section Anchors.

Variable urlopen : network.

Lemma get_anchor_run name prefix context st a st' :
  get_anchor name prefix context st = (Ok a, st') ->
  (a = JNull /\ st' = st)
  \/ (py_truthy a = true /\ hashable a = true /\ set_has a (anchors st) = false
      /\ st' = set_anchors (anchors st ++ [a])%list st).
Proof.
  unfold get_anchor, bind, lift.
  destruct (anchor_candidate name prefix context) as [anchor|e] eqn:Hc;
    [|discriminate].
  apply anchor_candidate_truthy in Hc.
  unfold set_mem. destruct (hashable anchor) eqn:Hh; [|discriminate].
  fold (set_has anchor (anchors st)).
  destruct (set_has anchor (anchors st)) eqn:Hseen; intros [= <- <-];
    [left | right]; auto.
Qed.

Lemma get_anchor_nodup name prefix context :
  keeps (fun st => NoDup (anchors st)) (fun _ st => NoDup (anchors st))
    (get_anchor name prefix context).
Proof.
  intros st Hst.
  destruct (get_anchor name prefix context st) as [[a|e] st'] eqn:Hrun; cbn.
  - apply get_anchor_run in Hrun as [[_ ->] | (_ & Hh & Hnew & ->)]; [assumption|].
    cbn. apply NoDup_snoc; [assumption|].
    apply set_mem_false_not_in. unfold set_mem. rewrite Hh.
    unfold set_has in Hnew. now rewrite Hnew.
  - unfold get_anchor, bind, lift in Hrun.
    destruct (anchor_candidate name prefix context) as [anchor|e0];
      [|injection Hrun as _ <-; assumption].
    destruct (set_mem anchor (anchors st)) as [[|]|e0]; try discriminate.
    injection Hrun as _ <-. assumption.
Qed.

Lemma check_url_nodup url :
  keeps (fun st => NoDup (anchors st)) (fun _ st => NoDup (anchors st))
    (check_url urlopen url).
Proof.
  intros st Hst. destruct (check_url_frame urlopen url st) as (Ha & _).
  destruct (check_url urlopen url st) as [[[]|e] st']; cbn in *; now rewrite Ha.
Qed.

(** A call of [get_anchor] that returns an anchor returns one that was
    not in the anchor set and appends it; a call that returns none changes
    nothing.  The anchors handed out during a render, and by the rendering
    of any value from a duplicate-free set, are pairwise distinct. *)
Lemma anchors_are_distinct :
  (forall name prefix context st a st',
      get_anchor name prefix context st = (Ok a, st') ->
      (a = JNull /\ st' = st)
      \/ (py_truthy a = true /\ ~ In a (anchors st)
          /\ st' = set_anchors (anchors st ++ [a])%list st))
  /\ (forall data context_doc,
         NoDup (anchors (snd (write urlopen data context_doc init_state))))
  /\ (forall v indent context typ st,
         NoDup (anchors st) ->
         NoDup (anchors (snd (write_value urlopen v indent context typ st)))).
Proof.
  split; [|split].
  - intros name prefix context st a st' Hrun.
    apply get_anchor_run in Hrun as [H | (Ht & Hh & Hnew & ->)]; [now left|].
    right. repeat split; [assumption|].
    apply set_mem_false_not_in. unfold set_mem. rewrite Hh.
    unfold set_has in Hnew. now rewrite Hnew.
  - intros data context_doc.
    pose proof (write_keeps urlopen (fun st => NoDup (anchors st))
                  (fun _ st => NoDup (anchors st))
                  (fun s st H => H) (fun e st H => H)
                  get_anchor_nodup check_url_nodup
                  (fun s st H => H) (fun st _ => NoDup_nil _)
                  data context_doc init_state (NoDup_nil _)) as H.
    unfold post in H.
    destruct (write urlopen data context_doc init_state) as [[[]|e] st']; exact H.
  - intros v indent context typ st Hst.
    pose proof (write_value_keeps urlopen (fun st => NoDup (anchors st))
                  (fun _ st => NoDup (anchors st))
                  (fun s st H => H) (fun e st H => H)
                  get_anchor_nodup check_url_nodup
                  v indent context typ st Hst) as H.
    unfold post in H.
    destruct (write_value urlopen v indent context typ st) as [[[]|e] st']; exact H.
Qed.

End Anchors.

(** ** What a run appends *)

Lemma bind_ok {A B} (m : M A) (f : A -> M B) (st st' : state) (b : B) :
  bind m f st = (Ok b, st') ->
  exists a st1, m st = (Ok a, st1) /\ f a st1 = (Ok b, st').
Proof.
  unfold bind. destruct (m st) as [[a|e] st1]; [eauto | discriminate].
Qed.

Lemma emit_ok (s : string) (st st' : state) (u : unit) :
  emit s st = (Ok u, st') -> out st' = out st ++ s.
Proof. intros H. inversion H. reflexivity. Qed.

Lemma emit_if_ok (c : bool) (s : string) (st st' : state) (u : unit) :
  emit_if c s st = (Ok u, st') -> exists x, out st' = out st ++ x.
Proof.
  destruct c; cbn [emit_if].
  - intros H. apply emit_ok in H. eauto.
  - intros H. inversion H. subst. exists EmptyString. now rewrite append_nil_r.
Qed.

Lemma span_open_ok (anchor : json) (st st' : state) (u : unit) :
  (if py_truthy anchor
   then id <- lift (py_html_escape anchor) ;; emit (span_id_open id)
   else ret tt) st = (Ok u, st') ->
  exists x, out st' = out st ++ x.
Proof.
  destruct (py_truthy anchor).
  - intros H. apply bind_ok in H as (id & st1 & Hid & H).
    unfold lift in Hid. injection Hid as _ <-. apply emit_ok in H. eauto.
  - intros H. inversion H. subst. exists EmptyString. now rewrite append_nil_r.
Qed.

Section Pairs.

Variable urlopen : network.

Lemma extends_refl (st : state) : extends (out st) st.
Proof. exists EmptyString. now rewrite append_nil_r. Qed.

Lemma write_value_appends v indent context typ st :
  extends (out st) (snd (write_value urlopen v indent context typ st)).
Proof.
  pose proof (write_value_keeps urlopen (extends (out st))
                (fun _ => extends (out st))) as Hk.
  unfold keeps, post in Hk.
  assert (extends (out st) (snd (write_value urlopen v indent context typ st))
          = match write_value urlopen v indent context typ st with
            | (Ok _, st') => extends (out st) st'
            | (Err _, st') => extends (out st) st'
            end) as ->
      by (destruct (write_value urlopen v indent context typ st) as [[?|?] ?];
          reflexivity).
  apply Hk.
  - intros s st0 [d Hd]. exists (d ++ s). cbn [out set_out].
    now rewrite Hd, append_assoc.
  - auto.
  - intros n p c st0 [d Hd].
    pose proof (get_anchor_frame n p c st0) as (_ & _ & Hf & _).
    destruct (get_anchor n p c st0) as [[?|?] st1]; cbn [snd] in Hf;
      exists d; congruence.
  - intros url st0 [d Hd].
    pose proof (check_url_frame urlopen url st0) as (_ & _ & Hf).
    destruct (check_url urlopen url st0) as [[[]|?] st1]; cbn [snd] in Hf;
      exists d; congruence.
  - apply extends_refl.
Qed.

End Pairs.

(** ** Structural tokens are balanced (C8) *)

Lemma prefix_nil (s : string) : String.prefix EmptyString s = true.
Proof. now destruct s. Qed.

Lemma prefix_true_iff (p d : string) :
  String.prefix p d = true <-> exists r, d = p ++ r.
Proof.
  revert d. induction p as [|c p IH]; intros d.
  - rewrite prefix_nil. split; [intros _; exists d; reflexivity | auto].
  - destruct d as [|x d].
    + split; [discriminate | intros [r Hr]; discriminate Hr].
    + rewrite prefix_cons. destruct (Ascii.ascii_dec c x) as [->|Hne].
      * rewrite IH. split; intros [r Hr]; exists r; cbn in *; congruence.
      * split; [discriminate | intros [r Hr]; cbn in Hr; congruence].
Qed.

Lemma prefix_refl (s : string) : String.prefix s s = true.
Proof. apply prefix_true_iff. exists EmptyString. now rewrite append_nil_r. Qed.

Lemma length_append (a b : string) :
  String.length (a ++ b) = String.length a + String.length b.
Proof. induction a as [|c a IH]; cbn; auto. Qed.

Lemma prefix_length (p d : string) :
  String.prefix p d = true -> String.length p <= String.length d.
Proof.
  intros H. apply prefix_true_iff in H as [r ->]. rewrite length_append. lia.
Qed.

Lemma prefix_app (t q r : string) :
  String.prefix t (q ++ r)
  = String.prefix t q
    || (String.prefix q t && String.prefix (skip (String.length q) t) r).
Proof.
  revert q. induction t as [|c t IH]; intros q.
  - now rewrite !prefix_nil.
  - destruct q as [|x q]; [reflexivity|].
    cbn [append String.length skip]. rewrite !prefix_cons.
    destruct (Ascii.ascii_dec c x) as [->|Hne].
    + destruct (Ascii.ascii_dec x x) as [_|Hne]; [apply IH | contradiction].
    + destruct (Ascii.ascii_dec x c) as [->|_]; [contradiction | reflexivity].
Qed.

Lemma prefix_same_length (p d : string) :
  String.prefix p d = true -> String.length d <= String.length p -> p = d.
Proof.
  intros H Hlen. apply prefix_true_iff in H as [r ->].
  rewrite length_append in Hlen. destruct r; [now rewrite append_nil_r|].
  cbn in Hlen. lia.
Qed.

Lemma token_text_length (t : token) : String.length (token_text t) = 28.
Proof. now destruct t as [[|]|[|]]. Qed.

Lemma token_text_inj (s t : token) : token_text s = token_text t -> s = t.
Proof.
  destruct s as [[|]|[|]], t as [[|]|[|]]; intros H;
    try reflexivity; discriminate H.
Qed.

Lemma token_at_iff (s : string) (t : token) :
  token_at s = Some t <-> String.prefix (token_text t) s = true.
Proof.
  assert (Huniq : forall a b, String.prefix (token_text a) s = true ->
                              String.prefix (token_text b) s = true -> a = b).
  { intros a b Ha Hb. apply token_text_inj.
    apply prefix_true_iff in Ha as [ra Ha]. apply prefix_true_iff in Hb as [rb Hb].
    assert (String.prefix (token_text a) (token_text b ++ rb) = true) as H
        by (rewrite <- Hb, Ha; apply prefix_true_iff; eauto).
    rewrite prefix_app in H. apply orb_prop in H as [H|H].
    - apply prefix_same_length in H; [assumption|]. now rewrite !token_text_length.
    - apply andb_prop in H as [H _]. symmetry.
      apply prefix_same_length in H; [assumption|]. now rewrite !token_text_length. }
  unfold token_at. split.
  - destruct (String.prefix LBRACE s) eqn:H1; [now intros [= <-]|].
    destruct (String.prefix RBRACE s) eqn:H2; [now intros [= <-]|].
    destruct (String.prefix LBRACKET s) eqn:H3; [now intros [= <-]|].
    destruct (String.prefix RBRACKET s) eqn:H4; [now intros [= <-] | discriminate].
  - intros Ht.
    destruct (String.prefix LBRACE s) eqn:H1;
      [f_equal; exact (Huniq (Open Brace) t H1 Ht)|].
    destruct (String.prefix RBRACE s) eqn:H2;
      [f_equal; exact (Huniq (Close Brace) t H2 Ht)|].
    destruct (String.prefix LBRACKET s) eqn:H3;
      [f_equal; exact (Huniq (Open Bracket) t H3 Ht)|].
    destruct (String.prefix RBRACKET s) eqn:H4;
      [f_equal; exact (Huniq (Close Bracket) t H4 Ht)|].
    destruct t as [[|]|[|]]; cbn [token_text] in Ht; congruence.
Qed.

Lemma token_at_none_iff (s : string) :
  token_at s = None <-> forall t, String.prefix (token_text t) s = false.
Proof.
  split.
  - intros H t. destruct (String.prefix (token_text t) s) eqn:Ht; [|reflexivity].
    apply token_at_iff in Ht. congruence.
  - intros H. destruct (token_at s) as [t|] eqn:Ht; [|reflexivity].
    apply token_at_iff in Ht. now rewrite H in Ht.
Qed.

Lemma token_at_length (s : string) (t : token) :
  token_at s = Some t -> 28 <= String.length s.
Proof.
  intros H. apply token_at_iff, prefix_length in H.
  now rewrite token_text_length in H.
Qed.

Lemma structural_short (s : string) : String.length s < 28 -> structural s = [].
Proof.
  induction s as [|c s IH]; intros Hlen; [reflexivity|].
  cbn [structural]. destruct (token_at (String c s)) as [t|] eqn:Ht.
  - apply token_at_length in Ht. lia.
  - apply IH. cbn in Hlen. lia.
Qed.

(** The tokens of a beginning of a text are a beginning of its tokens. *)
Lemma structural_prefix (p d : string) :
  String.prefix p d = true ->
  exists l, structural d = (structural p ++ l)%list.
Proof.
  revert d. induction p as [|c p IH]; intros d Hp; [now exists (structural d)|].
  destruct d as [|x d]; [discriminate Hp|].
  rewrite prefix_cons in Hp. destruct (Ascii.ascii_dec c x) as [<-|]; [|discriminate Hp].
  destruct (IH d Hp) as [l Hl]. cbn [structural].
  destruct (token_at (String c p)) as [t|] eqn:Htp.
  - assert (token_at (String c d) = Some t) as ->.
    { apply token_at_iff. apply token_at_iff in Htp.
      apply prefix_true_iff in Htp as [r1 Hr1]. apply prefix_true_iff in Hp as [r2 ->].
      apply prefix_true_iff. exists (r1 ++ r2).
      change (String c (p ++ r2)) with (String c p ++ r2).
      now rewrite Hr1, append_assoc. }
    exists l. cbn. now rewrite Hl.
  - destruct (token_at (String c d)) as [t|] eqn:Htd; [|now exists l].
    assert (String.length (String c p) < 28) as Hshort.
    { apply token_at_iff in Htd. apply prefix_true_iff in Hp as [r ->].
      change (String c (p ++ r)) with (String c p ++ r) in Htd.
      rewrite prefix_app in Htd.
      assert (String.prefix (token_text t) (String c p) = false) as Hf
          by (now apply token_at_none_iff).
      rewrite Hf in Htd. cbn [orb] in Htd. apply andb_prop in Htd as [Hpt _].
      pose proof (prefix_length _ _ Hpt) as Hle. rewrite token_text_length in Hle.
      destruct (Nat.eq_dec (String.length (String c p)) 28) as [Heq|]; [|lia].
      apply prefix_same_length in Hpt; [|rewrite token_text_length; lia].
      apply token_at_none_iff with (t := t) in Htp.
      rewrite <- Hpt, prefix_refl in Htp. discriminate Htp. }
    assert (structural p = []) as -> by (apply structural_short; cbn in Hshort; lia).
    now exists (t :: structural d).
Qed.

Lemma clash_free_token_at (q r : string) :
  clash_free q = true -> token_at (q ++ r) = None.
Proof.
  intros H. apply token_at_none_iff. intros t. rewrite prefix_app.
  unfold clash_free in H. rewrite forallb_forall in H.
  assert (In t [Open Brace; Close Brace; Open Bracket; Close Bracket]) as Hin
      by (destruct t as [[|]|[|]]; cbn; auto).
  apply H in Hin. apply andb_prop in Hin as [H1 H2].
  apply negb_true_iff in H1, H2. now rewrite H1, H2.
Qed.

Lemma inert_nil : inert EmptyString.
Proof. intros r. reflexivity. Qed.

Lemma inert_app (a b : string) : inert a -> inert b -> inert (a ++ b).
Proof. intros Ha Hb r. now rewrite append_assoc, Ha, Hb. Qed.

Lemma inertb_sound (a : string) : inertb a = true -> inert a.
Proof.
  induction a as [|c a IH]; intros H r; [reflexivity|].
  cbn [inertb] in H. apply andb_prop in H as [Hc Ha].
  cbn [append structural].
  change (String c (a ++ r)) with (String c a ++ r).
  rewrite (clash_free_token_at _ r Hc). now apply IH.
Qed.

Lemma token_at_not_lt (c : ascii) (s : string) :
  Ascii.eqb c "<" = false -> token_at (String c s) = None.
Proof.
  intros Hc. apply token_at_none_iff. intros t.
  destruct t as [[|]|[|]]; cbn [token_text];
    unfold LBRACE, RBRACE, LBRACKET, RBRACKET; rewrite prefix_cons;
    (destruct (Ascii.ascii_dec "<" c) as [<-|]; [discriminate Hc | reflexivity]).
Qed.

Lemma lt_free_inert (a : string) : lt_free a = true -> inert a.
Proof.
  induction a as [|c a IH]; intros H r; [reflexivity|].
  cbn [lt_free] in H. apply andb_prop in H as [Hc Ha].
  apply negb_true_iff in Hc.
  cbn [append structural]. rewrite (token_at_not_lt c _ Hc). now apply IH.
Qed.

Lemma lt_free_app (a b : string) :
  lt_free (a ++ b) = lt_free a && lt_free b.
Proof.
  induction a as [|c a IH]; cbn; [reflexivity|]. now rewrite IH, andb_assoc.
Qed.

Lemma lt_free_escape_char (c : ascii) : lt_free (escape_char c) = true.
Proof.
  unfold escape_char.
  destruct (Ascii.eqb c "&"); [reflexivity|].
  destruct (Ascii.eqb c "<") eqn:Hlt; [reflexivity|].
  destruct (Ascii.eqb c ">"); [reflexivity|].
  destruct (Ascii.eqb c dquote); [reflexivity|].
  destruct (Ascii.eqb c "'"); [reflexivity|].
  cbn [lt_free]. now rewrite Hlt.
Qed.

Lemma lt_free_html_escape (s : string) : lt_free (html_escape s) = true.
Proof.
  induction s as [|c s IH]; [reflexivity|].
  cbn [html_escape]. now rewrite lt_free_app, lt_free_escape_char, IH.
Qed.

Lemma lt_free_indent (i : nat) : lt_free (indent_str i) = true.
Proof. induction i as [|i IH]; [reflexivity | exact IH]. Qed.

Lemma lt_free_uint (d : Decimal.uint) : lt_free (NilEmpty.string_of_uint d) = true.
Proof. induction d; cbn; auto. Qed.

Lemma lt_free_dumps_int (n : Z) : lt_free (dumps_int n) = true.
Proof.
  assert (forall d, lt_free (NilZero.string_of_uint d) = true) as Hu
      by (intros d; destruct d; try reflexivity; exact (lt_free_uint _)).
  unfold dumps_int, NilZero.string_of_int.
  destruct (Z.to_int n) as [d|d]; [apply Hu|].
  cbn [lt_free]. now rewrite Hu.
Qed.

Lemma structural_cons (c : ascii) (s : string) :
  structural (String c s)
  = match token_at (String c s) with
    | Some t => t :: structural s
    | None => structural s
    end.
Proof. reflexivity. Qed.

Lemma reads_nil : reads EmptyString [].
Proof. intros r. reflexivity. Qed.

Lemma reads_inert (a : string) : inert a -> reads a [].
Proof. intros H r. apply H. Qed.

Lemma reads_app (a b : string) (l m : list token) :
  reads a l -> reads b m -> reads (a ++ b) (l ++ m).
Proof.
  intros Ha Hb r. now rewrite append_assoc, Ha, Hb, app_assoc.
Qed.

Lemma reads_token (t : token) : reads (token_text t) [t].
Proof.
  assert (Haux : forall c tl, token_text t = String c tl -> inertb tl = true ->
                              reads (token_text t) [t]).
  { intros c tl Heq Htl r.
    assert (token_at (token_text t ++ r) = Some t) as Hat
        by (apply token_at_iff, prefix_true_iff; eauto).
    rewrite Heq in *. change (String c tl ++ r) with (String c (tl ++ r)) in *.
    rewrite structural_cons, Hat. cbn [app]. f_equal.
    now apply inertb_sound. }
  destruct t as [[|]|[|]]; eapply Haux; reflexivity.
Qed.

Lemma inert_literal (a : string) : inertb a = true -> inert a.
Proof. apply inertb_sound. Qed.

Lemma inert_a_open (href : string) : lt_free href = true -> inert (a_open href).
Proof.
  intros H. unfold a_open.
  apply inert_app; [now apply inert_literal|].
  apply inert_app; [now apply inert_literal|].
  apply inert_app; [now apply lt_free_inert|].
  now apply inert_literal.
Qed.

Lemma inert_span_id_open (id : string) : lt_free id = true -> inert (span_id_open id).
Proof.
  intros H. unfold span_id_open.
  apply inert_app; [now apply inert_literal|].
  apply inert_app; [now apply inert_literal|].
  apply inert_app; [now apply lt_free_inert|].
  now apply inert_literal.
Qed.

Lemma inert_span_class (cls text : string) :
  inertb ("<span class=" ++ dq ++ cls ++ dq ++ ">") = true ->
  lt_free text = true -> inert (span_class cls text).
Proof.
  intros Hcls Htext. unfold span_class.
  rewrite <- !append_assoc.
  apply inert_app; [|now apply inert_literal].
  apply inert_app; [|now apply lt_free_inert].
  rewrite !append_assoc. now apply inert_literal.
Qed.

Lemma inert_string_ (v cls : string) : In cls known_classes -> inert (string_ v cls).
Proof.
  intros Hcls. unfold string_.
  apply inert_app; [now apply inert_literal|].
  apply inert_app.
  - cbn in Hcls.
    repeat (destruct Hcls as [<-|Hcls]; [now apply inert_literal|]).
    contradiction.
  - apply inert_app; [apply lt_free_inert, lt_free_html_escape|].
    now apply inert_literal.
Qed.

Lemma reads_closing (i : nat) (t : token) : reads (indent_str i ++ token_text t) [t].
Proof.
  change [t] with ([] ++ [t])%list.
  apply reads_app; [|apply reads_token].
  apply reads_inert, lt_free_inert, lt_free_indent.
Qed.

Lemma nest_app (l m : list token) (a : list bracket) :
  nest (l ++ m) a = match nest l a with
                    | Some b => nest m b
                    | None => None
                    end.
Proof.
  revert a. induction l as [|[k|k] l IH]; intros a; cbn [app nest].
  - reflexivity.
  - apply IH.
  - destruct a as [|k' a]; [reflexivity|].
    destruct (bracket_eqb k k'); [apply IH | reflexivity].
Qed.

Lemma count_cons (t x : token) (l : list token) :
  count t (x :: l) = (if token_eqb t x then 1 else 0) + count t l.
Proof. unfold count. cbn [filter]. now destruct (token_eqb t x). Qed.

Lemma bracket_eqb_eq (a b : bracket) : bracket_eqb a b = true -> a = b.
Proof. destruct a, b; cbn; congruence. Qed.

Lemma bracket_eqb_sym (a b : bracket) : bracket_eqb a b = bracket_eqb b a.
Proof. now destruct a, b. Qed.

(** What is open after reading tokens: for each kind of bracket, the
    closing tokens read are made up for by opening tokens or by brackets
    that were open before. *)
Lemma nest_counts (l : list token) (a c : list bracket) (b : bracket) :
  nest l a = Some c ->
  depth_of b c + count (Close b) l = depth_of b a + count (Open b) l.
Proof.
  revert a. induction l as [|[k|k] l IH]; intros a H; cbn [nest] in H.
  - injection H as <-. reflexivity.
  - apply IH in H. rewrite !count_cons. cbn [token_eqb].
    unfold depth_of in *. cbn [filter] in H.
    destruct (bracket_eqb b k); cbn [length] in H; lia.
  - destruct a as [|k' a]; [discriminate H|].
    destruct (bracket_eqb k k') eqn:Hk; [|discriminate H].
    apply bracket_eqb_eq in Hk as <-.
    apply IH in H. rewrite !count_cons. cbn [token_eqb].
    unfold depth_of in *. cbn [filter].
    destruct (bracket_eqb b k); cbn [length]; lia.
Qed.

Lemma css_ok_format (css : option string) :
  css_ok css -> In (py_format css) known_classes.
Proof.
  destruct css as [c|]; cbn; [|auto 10].
  intros [<-|[<-|[<-|[]]]]; auto 10.
Qed.

Lemma css_ok_or_string (css : option string) :
  css_ok css -> In (match css with Some c => c | None => "string" end) known_classes.
Proof.
  destruct css as [c|]; cbn; [|auto 10].
  intros [<-|[<-|[<-|[]]]]; auto 10.
Qed.

Section Balance.

Variable urlopen : network.

Lemma get_doc_url_css typ name context st u sub css :
  fst (get_doc_url urlopen typ name context st) = Ok (u, sub, css) -> css_ok css.
Proof.
  unfold get_doc_url, bind, lift.
  destruct (resolve typ name context) as [[sub' [[rdf_uri t]|]]|e]; cbn [fst];
    try discriminate; [|intros [= _ _ <-]; exact I].
  destruct (doc_url t rdf_uri) as [[url|]|e]; cbn [fst];
    try discriminate; [|intros [= _ _ <-]; exact I].
  destruct (check_url urlopen url st) as [[[]|e] st']; cbn [fst ret];
    [|discriminate].
  intros [= _ _ <-]. destruct t; cbn; auto.
Qed.

Lemma renders_silent {A} (a : list bracket) (m : M A) (Q : A -> Prop) :
  (forall st, out (snd (m st)) = out st) ->
  (forall st x, fst (m st) = Ok x -> Q x) ->
  renders a a m Q.
Proof.
  intros Hout HQ st. exists EmptyString, [], a.
  rewrite Hout, append_nil_r. split; [|split; [|split]];
    eauto using reads_nil.
Qed.

Lemma renders_ret {A} (a : list bracket) (x : A) (Q : A -> Prop) :
  Q x -> renders a a (ret x) Q.
Proof.
  intros H. apply renders_silent; [reflexivity|]. now intros st y [= <-].
Qed.

Lemma renders_lift {A} (a : list bracket) (r : result A) (Q : A -> Prop) :
  (forall x, r = Ok x -> Q x) -> renders a a (lift r) Q.
Proof. intros H. apply renders_silent; [reflexivity | intros st x; apply H]. Qed.

Lemma renders_emit (a b : list bracket) (s : string) (l : list token) :
  reads s l -> nest l a = Some b -> renders a b (emit s) any.
Proof.
  intros Hs Hl st. exists s, l, b. split; [|split; [|split]]; try assumption.
  - reflexivity.
  - intros x _. split; [reflexivity | exact I].
Qed.

Lemma renders_emit_inert (a : list bracket) (s : string) :
  inert s -> renders a a (emit s) any.
Proof. intros H. eapply renders_emit; [apply reads_inert, H | reflexivity]. Qed.

Lemma renders_emit_if (a : list bracket) (c : bool) (s : string) :
  inert s -> renders a a (emit_if c s) any.
Proof.
  intros H. destruct c; [now apply renders_emit_inert | now apply renders_ret].
Qed.

Lemma renders_open (a : list bracket) (k : bracket) :
  renders a (k :: a) (emit (token_text (Open k))) any.
Proof. eapply renders_emit; [apply reads_token | reflexivity]. Qed.

Lemma renders_close (a : list bracket) (k : bracket) (i : nat) :
  renders (k :: a) a (emit (indent_str i ++ token_text (Close k))) any.
Proof.
  eapply renders_emit; [apply reads_closing|].
  cbn [nest]. now destruct k.
Qed.

Lemma renders_bind {A B} (a b c : list bracket) (m : M A) (f : A -> M B)
    (Q : A -> Prop) (R : B -> Prop) :
  renders a b m Q -> (forall x, Q x -> renders b c (f x) R) ->
  renders a c (bind m f) R.
Proof.
  intros Hm Hf st. destruct (Hm st) as (d1 & l1 & c1 & Ho1 & Hr1 & Hn1 & Hq1).
  unfold bind. destruct (m st) as [[x|e] st1]; cbn [fst snd] in *.
  - destruct (Hq1 x eq_refl) as [-> Hx].
    destruct (Hf x Hx st1) as (d2 & l2 & c2 & Ho2 & Hr2 & Hn2 & Hq2).
    exists (d1 ++ d2), (l1 ++ l2)%list, c2. split; [|split; [|split]].
    + now rewrite Ho2, Ho1, append_assoc.
    + now apply reads_app.
    + now rewrite nest_app, Hn1.
    + exact Hq2.
  - exists d1, l1, c1. split; [|split; [|split]]; try assumption. discriminate.
Qed.

Lemma renders_weaken {A} (a b : list bracket) (m : M A) (Q Q' : A -> Prop) :
  renders a b m Q -> (forall x, Q x -> Q' x) -> renders a b m Q'.
Proof.
  intros Hm HQ st. destruct (Hm st) as (d & l & c & Ho & Hr & Hn & Hq).
  exists d, l, c. split; [|split; [|split]]; try assumption.
  intros x Hx. destruct (Hq x Hx). auto.
Qed.

Lemma get_anchor_renders a name prefix context :
  renders a a (get_anchor name prefix context) any.
Proof.
  apply renders_silent; [|now intros].
  intros st. now destruct (get_anchor_frame name prefix context st) as (_ & _ & H & _).
Qed.

Lemma get_doc_url_renders a typ name context :
  renders a a (get_doc_url urlopen typ name context) (fun r => css_ok (snd r)).
Proof.
  apply renders_silent.
  - intros st.
    now destruct (get_doc_url_frame urlopen typ name context st) as (_ & _ & H).
  - intros st [[u sub] css] H. eapply get_doc_url_css, H.
Qed.

Lemma span_open_renders a (anchor : json) :
  renders a a
    (if py_truthy anchor
     then id <- lift (py_html_escape anchor) ;; emit (span_id_open id)
     else ret tt) any.
Proof.
  destruct (py_truthy anchor); [|now apply renders_ret].
  eapply renders_bind with (Q := fun id => lt_free id = true).
  - apply renders_lift. intros id H. destruct anchor; try discriminate H.
    injection H as <-. apply lt_free_html_escape.
  - intros id Hid. now apply renders_emit_inert, inert_span_id_open.
Qed.

Lemma write_str_renders a v context typ :
  renders a a (write_str urlopen v context typ) any.
Proof.
  unfold write_str.
  eapply renders_bind; [apply get_doc_url_renders|].
  intros [[u sub] css] Hcss; cbn [snd] in Hcss.
  eapply renders_bind with (Q := any);
    [apply renders_silent; [reflexivity | now intros] |].
  intros [|] _.
  - eapply renders_bind;
      [apply renders_emit_inert, inert_a_open; cbn [lt_free append];
       apply lt_free_html_escape | intros _ _].
    eapply renders_bind;
      [apply renders_emit_inert, inert_string_; cbn; auto 10 | intros _ _].
    now apply renders_emit_inert, inert_literal.
  - destruct u as [url|].
    + eapply renders_bind;
        [apply renders_emit_inert, inert_a_open, lt_free_html_escape | intros _ _].
      eapply renders_bind;
        [apply renders_emit_inert, inert_string_, css_ok_format, Hcss | intros _ _].
      now apply renders_emit_inert, inert_literal.
    + destruct (_ || _).
      * eapply renders_bind;
          [apply renders_emit_inert, inert_a_open, lt_free_html_escape | intros _ _].
        eapply renders_bind;
          [apply renders_emit_inert, inert_string_; cbn; auto 10 | intros _ _].
        now apply renders_emit_inert, inert_literal.
      * apply renders_emit_inert, inert_string_; cbn; auto 10.
Qed.

Section BalanceMethods.

Variable write_value' : json -> nat -> json -> option kind -> M unit.

Lemma write_key_value_body_renders a k v indent context :
  (forall b i c t, renders b b (write_value' v i c t) any) ->
  renders a a (write_key_value_body urlopen write_value' k v indent context) any.
Proof.
  intros Hv. unfold write_key_value_body.
  eapply renders_bind; [apply get_anchor_renders | intros anchor _].
  eapply renders_bind; [apply span_open_renders | intros _ _].
  eapply renders_bind;
    [apply renders_emit_inert, lt_free_inert, lt_free_indent | intros _ _].
  eapply renders_bind; [apply get_doc_url_renders|].
  intros [[u sub] css] Hcss; cbn [snd] in Hcss.
  eapply renders_bind with (Q := any).
  { destruct u; [|now apply renders_ret].
    apply renders_emit_inert, inert_a_open, lt_free_html_escape. }
  intros _ _.
  eapply renders_bind;
    [apply renders_emit_inert, inert_string_, css_ok_or_string, Hcss | intros _ _].
  eapply renders_bind with (Q := any).
  { destruct u; [|now apply renders_ret]. now apply renders_emit_inert, inert_literal. }
  intros _ _.
  eapply renders_bind; [now apply renders_emit_inert, inert_literal | intros _ _].
  eapply renders_bind; [apply Hv | intros _ _].
  now apply renders_emit_if, inert_literal.
Qed.

Lemma write_items_renders a lst indent context :
  Forall (fun v => forall b i c t, renders b b (write_value' v i c t) any) lst ->
  renders a a (write_items write_value' lst indent context) any.
Proof.
  induction 1 as [|v rest Hv Hrest IH]; cbn [write_items]; [now apply renders_ret|].
  eapply renders_bind;
    [apply renders_emit_inert, lt_free_inert, lt_free_indent | intros _ _].
  eapply renders_bind; [apply Hv | intros _ _].
  destruct rest; [now apply renders_emit_inert, inert_literal|].
  eapply renders_bind; [now apply renders_emit_inert, inert_literal | intros _ _].
  eapply renders_bind; [now apply renders_emit_inert, inert_literal | intros _ _].
  exact IH.
Qed.

Lemma write_list_body_renders a lst indent context :
  Forall (fun v => forall b i c t, renders b b (write_value' v i c t) any) lst ->
  renders a a (write_list_body write_value' lst indent context) any.
Proof.
  intros Hl. unfold write_list_body.
  eapply renders_bind; [exact (renders_open a Bracket) | intros _ _].
  eapply renders_bind; [now apply renders_emit_inert, inert_literal | intros _ _].
  eapply renders_bind; [now apply write_items_renders | intros _ _].
  exact (renders_close a Bracket indent).
Qed.

Lemma write_pairs_renders a items indent context :
  Forall (fun kv => forall b i c t, renders b b (write_value' (snd kv) i c t) any)
         items ->
  renders a a (write_pairs urlopen write_value' items indent context) any.
Proof.
  induction 1 as [|[k v] rest Hv Hrest IH]; cbn [write_pairs]; [now apply renders_ret|].
  eapply renders_bind; [now apply write_key_value_body_renders | intros _ _].
  destruct rest; [now apply renders_emit_inert, inert_literal|].
  eapply renders_bind; [now apply renders_emit_inert, inert_literal | intros _ _].
  eapply renders_bind; [now apply renders_emit_inert, inert_literal | intros _ _].
  exact IH.
Qed.

Lemma write_obj_body_renders a obj indent context :
  Forall (fun kv => forall b i c t, renders b b (write_value' (snd kv) i c t) any)
         obj ->
  renders a a (write_obj_body urlopen write_value' obj indent context) any.
Proof.
  intros Hobj. unfold write_obj_body.
  eapply renders_bind with (Q := any).
  { destruct (dict_get "type" obj);
      [apply get_anchor_renders | now apply renders_ret]. }
  intros anchor _.
  eapply renders_bind; [apply span_open_renders | intros _ _].
  eapply renders_bind with (Q := any); [now apply renders_lift | intros obj_id _].
  eapply renders_bind; [apply span_open_renders | intros _ _].
  cbv zeta.
  eapply renders_bind; [apply span_open_renders | intros _ _].
  eapply renders_bind; [exact (renders_open a Brace) | intros _ _].
  eapply renders_bind; [now apply renders_emit_inert, inert_literal | intros _ _].
  eapply renders_bind; [now apply write_pairs_renders | intros _ _].
  eapply renders_bind; [exact (renders_close a Brace indent) | intros _ _].
  eapply renders_bind; [now apply renders_emit_if, inert_literal | intros _ _].
  eapply renders_bind; [now apply renders_emit_if, inert_literal | intros _ _].
  now apply renders_emit_if, inert_literal.
Qed.

End BalanceMethods.

Lemma write_value_renders v : forall a indent context typ,
  renders a a (write_value urlopen v indent context typ) any.
Proof.
  induction v using json_induction; intros a indent context typ; cbn [write_value].
  - now apply renders_emit_inert, inert_span_class.
  - apply renders_emit_inert, inert_span_class; [reflexivity | now destruct b].
  - apply renders_emit_inert, inert_span_class; [reflexivity | apply lt_free_dumps_int].
  - apply write_str_renders.
  - now apply write_list_body_renders.
  - now apply write_obj_body_renders.
Qed.

End Balance.

(** *** The depth is zero only at the end

    The tokens of a value that was rendered in full are either none, or an
    opening token, a balanced body, and the matching closing token. *)

Lemma nest_frame (l : list token) (a c base : list bracket) :
  nest l a = Some c -> nest l (a ++ base) = Some (c ++ base)%list.
Proof.
  revert a. induction l as [|[k|k] l IH]; intros a H; cbn [nest] in *.
  - now injection H as <-.
  - exact (IH (k :: a) H).
  - destruct a as [|k' a]; [discriminate H|]. cbn [app].
    destruct (bracket_eqb k k'); [now apply IH | discriminate H].
Qed.

Lemma balanced_app (l m : list token) : balanced l -> balanced m -> balanced (l ++ m).
Proof. unfold balanced. intros Hl Hm. now rewrite nest_app, Hl. Qed.

Lemma group_balanced (l : list token) : group l -> balanced l.
Proof.
  intros [|k body Hbody]; [reflexivity|].
  unfold balanced in *. cbn [nest]. rewrite nest_app.
  apply nest_frame with (base := [k]) in Hbody. cbn [app] in Hbody.
  rewrite Hbody. cbn [nest]. now destruct k.
Qed.

(** Strictly inside a group some bracket is open. *)
Lemma group_interior (l l1 l2 : list token) :
  group l -> l = (l1 ++ l2)%list -> l1 <> [] -> l2 <> [] ->
  exists c, nest l1 [] = Some c /\ c <> [].
Proof.
  intros [|k body Hbody] Hsplit H1 H2.
  - destruct l1; [contradiction | discriminate Hsplit].
  - destruct l1 as [|t l1]; [contradiction|].
    injection Hsplit as <- Hrest.
    destruct (@exists_last _ l2 H2) as (l2' & z & ->).
    rewrite app_assoc in Hrest. apply app_inj_tail in Hrest as [-> _].
    unfold balanced in Hbody. rewrite nest_app in Hbody.
    destruct (nest l1 []) as [c|] eqn:Hc; [|discriminate Hbody].
    apply nest_frame with (base := [k]) in Hc. cbn [app] in Hc.
    exists (c ++ [k])%list. cbn [nest]. split; [exact Hc|].
    now destruct c.
Qed.

Section Groups.

Variable urlopen : network.

Lemma yields_weaken {A} (m : M A) (S S' : list token -> Prop) :
  yields m S -> (forall l, S l -> S' l) -> yields m S'.
Proof.
  intros Hm HS st x st' Hrun. destruct (Hm st x st' Hrun) as (d & l & Ho & Hr & Hl).
  exists d, l. auto.
Qed.

Lemma yields_ext {A} (m m' : M A) (S : list token -> Prop) :
  (forall st, m st = m' st) -> yields m S -> yields m' S.
Proof.
  intros Heq Hm st x st' Hrun. apply (Hm st x st'). now rewrite Heq.
Qed.

Lemma yields_silent {A} (m : M A) :
  (forall st, out (snd (m st)) = out st) -> yields m no_tokens.
Proof.
  intros Hout st x st' Hrun. exists EmptyString, [].
  specialize (Hout st). rewrite Hrun in Hout. cbn [snd] in Hout.
  rewrite Hout, append_nil_r. split; [reflexivity|].
  split; [apply reads_nil | reflexivity].
Qed.

Lemma yields_ret {A} (x : A) : yields (ret x) no_tokens.
Proof. now apply yields_silent. Qed.

Lemma yields_lift {A} (r : result A) : yields (lift r) no_tokens.
Proof. now apply yields_silent. Qed.

Lemma yields_emit (s : string) (l : list token) : reads s l -> yields (emit s) (eq l).
Proof.
  intros Hs st x st' Hrun. exists s, l. apply emit_ok in Hrun. auto.
Qed.

Lemma yields_emit_inert (s : string) : inert s -> yields (emit s) no_tokens.
Proof.
  intros H. eapply yields_weaken; [apply yields_emit, reads_inert, H|].
  now intros l <-.
Qed.

Lemma yields_emit_if (c : bool) (s : string) :
  inert s -> yields (emit_if c s) no_tokens.
Proof. destruct c; [apply yields_emit_inert | intros _; apply yields_ret]. Qed.

(** Sequencing, when the first part has the shape [S1] and returns values
    that satisfy [Q]. *)
Lemma yields_bind {A B} (m : M A) (f : A -> M B) (Q : A -> Prop)
    (S1 S2 S : list token -> Prop) :
  yields m S1 ->
  (forall st x st', m st = (Ok x, st') -> Q x) ->
  (forall x, Q x -> yields (f x) S2) ->
  (forall l1 l2, S1 l1 -> S2 l2 -> S (l1 ++ l2)%list) ->
  yields (bind m f) S.
Proof.
  intros Hm HQ Hf HS st y st' Hrun.
  apply bind_ok in Hrun as (x & st1 & Hrun1 & Hrun2).
  destruct (Hm st x st1 Hrun1) as (d1 & l1 & Ho1 & Hr1 & Hl1).
  destruct (Hf x (HQ _ _ _ Hrun1) st1 y st' Hrun2) as (d2 & l2 & Ho2 & Hr2 & Hl2).
  exists (d1 ++ d2), (l1 ++ l2)%list. repeat split.
  - now rewrite Ho2, Ho1, append_assoc.
  - now apply reads_app.
  - now apply HS.
Qed.

(** A part without tokens, then a part of the shape [S]. *)
Lemma yields_after {A B} (m : M A) (f : A -> M B) (Q : A -> Prop)
    (S : list token -> Prop) :
  yields m no_tokens ->
  (forall st x st', m st = (Ok x, st') -> Q x) ->
  (forall x, Q x -> yields (f x) S) ->
  yields (bind m f) S.
Proof.
  intros Hm HQ Hf. eapply yields_bind; try eassumption.
  now intros l1 l2 ->.
Qed.

Lemma yields_then {A B} (m : M A) (f : A -> M B) (S : list token -> Prop) :
  yields m S -> (forall x, yields (f x) no_tokens) -> yields (bind m f) S.
Proof.
  intros Hm Hf. eapply yields_bind with (Q := any); try eassumption; try easy.
  intros l1 l2 H ->. now rewrite app_nil_r.
Qed.

Lemma yields_balanced {A B} (m : M A) (f : A -> M B) :
  yields m balanced -> (forall x, yields (f x) balanced) ->
  yields (bind m f) balanced.
Proof.
  intros Hm Hf. eapply yields_bind with (Q := any); try eassumption; try easy.
  intros l1 l2. apply balanced_app.
Qed.

Lemma no_tokens_balanced (l : list token) : no_tokens l -> balanced l.
Proof. now intros ->. Qed.

Lemma no_tokens_group (l : list token) : no_tokens l -> group l.
Proof. intros H. rewrite H. constructor. Qed.

Lemma get_anchor_yields name prefix context :
  yields (get_anchor name prefix context) no_tokens.
Proof.
  apply yields_silent. intros st.
  now destruct (get_anchor_frame name prefix context st) as (_ & _ & H & _).
Qed.

Lemma get_doc_url_yields typ name context :
  yields (get_doc_url urlopen typ name context) no_tokens.
Proof.
  apply yields_silent. intros st.
  now destruct (get_doc_url_frame urlopen typ name context st) as (_ & _ & H).
Qed.

Lemma get_doc_url_css_run typ name context st r st' :
  get_doc_url urlopen typ name context st = (Ok r, st') -> css_ok (snd r).
Proof.
  intros H. destruct r as [[u sub] css].
  apply (get_doc_url_css urlopen typ name context st u sub css). now rewrite H.
Qed.

Lemma span_open_yields (anchor : json) :
  yields (if py_truthy anchor
          then id <- lift (py_html_escape anchor) ;; emit (span_id_open id)
          else ret tt) no_tokens.
Proof.
  destruct (py_truthy anchor); [|apply yields_ret].
  eapply yields_after with (Q := fun id => lt_free id = true).
  - apply yields_lift.
  - intros st id st' H. unfold lift in H. destruct anchor; try discriminate H.
    injection H as <- _. apply lt_free_html_escape.
  - intros id Hid. now apply yields_emit_inert, inert_span_id_open.
Qed.

Ltac quiet := eapply yields_after with (Q := any); [|easy|intros ? _].

Lemma write_str_yields v context typ :
  yields (write_str urlopen v context typ) no_tokens.
Proof.
  unfold write_str.
  eapply yields_after;
    [apply get_doc_url_yields | apply get_doc_url_css_run |].
  intros [[u sub] css] Hcss; cbn [snd] in Hcss.
  quiet; [now apply yields_silent|].
  destruct x.
  - quiet; [apply yields_emit_inert, inert_a_open; cbn [lt_free append];
            apply lt_free_html_escape|].
    quiet; [apply yields_emit_inert, inert_string_; cbn; auto 10|].
    now apply yields_emit_inert, inert_literal.
  - destruct u as [url|].
    + quiet; [apply yields_emit_inert, inert_a_open, lt_free_html_escape|].
      quiet; [apply yields_emit_inert, inert_string_, css_ok_format, Hcss|].
      now apply yields_emit_inert, inert_literal.
    + destruct (_ || _).
      * quiet; [apply yields_emit_inert, inert_a_open, lt_free_html_escape|].
        quiet; [apply yields_emit_inert, inert_string_; cbn; auto 10|].
        now apply yields_emit_inert, inert_literal.
      * apply yields_emit_inert, inert_string_; cbn; auto 10.
Qed.

Section GroupMethods.

Variable write_value' : json -> nat -> json -> option kind -> M unit.

Lemma write_key_value_body_yields k v indent context :
  (forall i c t, yields (write_value' v i c t) group) ->
  yields (write_key_value_body urlopen write_value' k v indent context) balanced.
Proof.
  intros Hv. unfold write_key_value_body.
  quiet; [apply get_anchor_yields|].
  quiet; [apply span_open_yields|].
  quiet; [apply yields_emit_inert, lt_free_inert, lt_free_indent|].
  eapply yields_after;
    [apply get_doc_url_yields | apply get_doc_url_css_run |].
  intros [[u sub] css] Hcss; cbn [snd] in Hcss.
  quiet.
  { destruct u; [|apply yields_ret].
    apply yields_emit_inert, inert_a_open, lt_free_html_escape. }
  quiet; [apply yields_emit_inert, inert_string_, css_ok_or_string, Hcss|].
  quiet.
  { destruct u; [|apply yields_ret]. now apply yields_emit_inert, inert_literal. }
  quiet; [now apply yields_emit_inert, inert_literal|].
  apply yields_then.
  - eapply yields_weaken; [apply Hv | apply group_balanced].
  - intros _. now apply yields_emit_if, inert_literal.
Qed.

Lemma write_items_yields lst indent context :
  Forall (fun v => forall i c t, yields (write_value' v i c t) group) lst ->
  yields (write_items write_value' lst indent context) balanced.
Proof.
  induction 1 as [|v rest Hv Hrest IH]; cbn [write_items].
  - eapply yields_weaken; [apply yields_ret | apply no_tokens_balanced].
  - quiet; [apply yields_emit_inert, lt_free_inert, lt_free_indent|].
    apply yields_balanced;
      [eapply yields_weaken; [apply Hv | apply group_balanced] | intros _].
    destruct rest.
    + eapply yields_weaken; [|apply no_tokens_balanced].
      now apply yields_emit_inert, inert_literal.
    + quiet; [now apply yields_emit_inert, inert_literal|].
      quiet; [now apply yields_emit_inert, inert_literal|].
      exact IH.
Qed.

Lemma write_pairs_yields items indent context :
  Forall (fun kv => forall i c t, yields (write_value' (snd kv) i c t) group) items ->
  yields (write_pairs urlopen write_value' items indent context) balanced.
Proof.
  induction 1 as [|[k v] rest Hv Hrest IH]; cbn [write_pairs].
  - eapply yields_weaken; [apply yields_ret | apply no_tokens_balanced].
  - apply yields_balanced; [now apply write_key_value_body_yields | intros _].
    destruct rest.
    + eapply yields_weaken; [|apply no_tokens_balanced].
      now apply yields_emit_inert, inert_literal.
    + quiet; [now apply yields_emit_inert, inert_literal|].
      quiet; [now apply yields_emit_inert, inert_literal|].
      exact IH.
Qed.

(** An opening token, a part without tokens, a balanced body, the closing
    token after its indentation, and a part without tokens make a group. *)
Lemma yields_group {A} (k : bracket) (i : nat) (body : M unit) (rest : M A) :
  yields body balanced -> yields rest no_tokens ->
  yields (emit (token_text (Open k)) ;; newline ;; body ;;
          emit (indent_str i ++ token_text (Close k)) ;; rest) group.
Proof.
  intros Hbody Hrest.
  eapply yields_bind with (Q := any) (S2 := closes_group k);
    [apply yields_emit, reads_token | easy | intros _ _ |].
  - quiet; [now apply yields_emit_inert, inert_literal|].
    eapply yields_bind with (Q := any) (S2 := eq [Close k]);
      [exact Hbody | easy | intros _ _ |].
    + apply yields_then; [apply yields_emit, reads_closing | intros _; exact Hrest].
    + intros l1 l2 Hl1 <-. now exists l1.
  - intros l1 l2 <- (body' & -> & Hb). cbn [app]. now constructor.
Qed.

Lemma write_list_body_yields lst indent context :
  Forall (fun v => forall i c t, yields (write_value' v i c t) group) lst ->
  yields (write_list_body write_value' lst indent context) group.
Proof.
  intros Hl. unfold write_list_body.
  eapply yields_ext;
    [|exact (yields_group Bracket indent
               (write_items write_value' lst indent context) (ret tt)
               (write_items_yields lst indent context Hl) (yields_ret tt))].
  intros st. unfold bind, emit, newline, ret. reflexivity.
Qed.

Lemma write_obj_body_yields obj indent context :
  Forall (fun kv => forall i c t, yields (write_value' (snd kv) i c t) group) obj ->
  yields (write_obj_body urlopen write_value' obj indent context) group.
Proof.
  intros Hobj. unfold write_obj_body.
  quiet.
  { destruct (dict_get "type" obj); [apply get_anchor_yields | apply yields_ret]. }
  quiet; [apply span_open_yields|].
  quiet; [apply yields_lift|].
  quiet; [apply span_open_yields|].
  cbv zeta.
  quiet; [apply span_open_yields|].
  apply (yields_group Brace indent
           (write_pairs urlopen write_value' obj indent context)).
  - now apply write_pairs_yields.
  - apply yields_then; [now apply yields_emit_if, inert_literal | intros _].
    apply yields_then; [now apply yields_emit_if, inert_literal | intros _].
    now apply yields_emit_if, inert_literal.
Qed.

End GroupMethods.

Lemma write_value_yields v : forall indent context typ,
  yields (write_value urlopen v indent context typ) group.
Proof.
  induction v using json_induction; intros indent context typ; cbn [write_value].
  - eapply yields_weaken; [|apply no_tokens_group].
    now apply yields_emit_inert, inert_span_class.
  - eapply yields_weaken; [|apply no_tokens_group].
    apply yields_emit_inert, inert_span_class; [reflexivity | now destruct b].
  - eapply yields_weaken; [|apply no_tokens_group].
    apply yields_emit_inert, inert_span_class; [reflexivity | apply lt_free_dumps_int].
  - eapply yields_weaken; [apply write_str_yields | apply no_tokens_group].
  - now apply write_list_body_yields.
  - now apply write_obj_body_yields.
Qed.

Lemma write_yields data context_doc :
  yields (write urlopen data context_doc) group.
Proof.
  unfold write.
  quiet.
  { apply yields_silent. intros st.
    now destruct (index_data_same_io data st) as (H & _). }
  do 9 (quiet; [apply yields_emit_inert, inert_literal; vm_compute; reflexivity|]).
  eapply yields_after with (Q := any); [apply yields_lift | easy | intros context _].
  apply yields_then.
  - unfold write_obj.
    apply (write_obj_body_yields (write_value urlopen) data 0 context).
    apply Forall_forall. intros kv _ i c t. apply write_value_yields.
  - intros _. now apply yields_emit_inert, inert_literal.
Qed.

End Groups.

Lemma append_inv_head (a b c : string) : a ++ b = a ++ c -> b = c.
Proof.
  induction a as [|x a IH]; cbn; intros H; [exact H|].
  injection H as H. auto.
Qed.

Section Balanced.

Variable urlopen : network.

Lemma write_renders a data context_doc :
  renders a a (write urlopen data context_doc) any.
Proof.
  unfold write.
  eapply renders_bind with (Q := any).
  { apply renders_silent; [|now intros].
    intros st. now destruct (index_data_same_io data st) as (H & _). }
  intros _ _.
  do 9 (eapply renders_bind;
        [apply renders_emit_inert, inert_literal; vm_compute; reflexivity
        | intros _ _]).
  eapply renders_bind with (Q := any); [now apply renders_lift | intros context _].
  eapply renders_bind with (Q := any); [|intros _ _].
  - unfold write_obj.
    apply (write_obj_body_renders urlopen (write_value urlopen) a data 0 context).
    apply Forall_forall. intros kv _ b i c t. apply write_value_renders.
  - now apply renders_emit_inert, inert_literal.
Qed.

Lemma run_well_bracketed {A} (m : M A) (st : state) :
  renders [] [] m any -> yields m group ->
  exists d, out (snd (m st)) = out st ++ d
            /\ well_bracketed (is_ok (fst (m st))) d.
Proof.
  intros Hm Hg. destruct (Hm st) as (d & l & c & Ho & Hr & Hn & Hq).
  assert (structural d = l) as Hd.
  { specialize (Hr EmptyString). now rewrite append_nil_r, app_nil_r in Hr. }
  exists d. split; [exact Ho|]. split.
  - intros p b Hp. apply structural_prefix in Hp as [l' Hl'].
    rewrite Hd in Hl'. rewrite Hl', nest_app in Hn.
    destruct (nest (structural p) []) as [c1|] eqn:Hc1; [|discriminate Hn].
    pose proof (nest_counts _ _ _ b Hc1) as H. cbn in H. lia.
  - intros Hok. destruct (m st) as [[x|e] st'] eqn:Hrun; [|discriminate Hok].
    cbn [fst snd] in *.
    destruct (Hq x eq_refl) as [-> _]. rewrite Hd. split; [exact Hn|]. split.
    + intros b. pose proof (nest_counts _ _ _ b Hn) as H. cbn in H. lia.
    + destruct (Hg st x st' Hrun) as (d' & l' & Ho' & Hr' & Hl').
      rewrite Ho in Ho'. apply append_inv_head in Ho' as <-.
      assert (l' = l) as ->.
      { specialize (Hr' EmptyString). rewrite append_nil_r, app_nil_r in Hr'.
        congruence. }
      intros l1 l2. now apply group_interior.
Qed.

(** C8: the text the rendering of any value appends to the output has, in
    every beginning of it, no more closing braces than opening braces and
    no more closing brackets than opening brackets, also when the
    rendering is cut short by an exception.  When the rendering returns,
    the tokens are properly nested, braces closing braces and brackets
    closing brackets, as many were closed as were opened, so that the
    depth is zero at the end, and the depth is not zero anywhere between
    the first token and the last.  The same holds for the whole text
    [write] produces. *)
Theorem render_balanced :
  (forall v indent context typ st,
      exists d,
        out (snd (write_value urlopen v indent context typ st)) = out st ++ d
        /\ well_bracketed
             (is_ok (fst (write_value urlopen v indent context typ st))) d)
  /\ (forall data context_doc st,
         exists d,
           out (snd (write urlopen data context_doc st)) = out st ++ d
           /\ well_bracketed (is_ok (fst (write urlopen data context_doc st))) d).
Proof.
  split.
  - intros v indent context typ st.
    apply run_well_bracketed; [apply write_value_renders | apply write_value_yields].
  - intros data context_doc st.
    apply run_well_bracketed; [apply write_renders | apply write_yields].
Qed.

End Balanced.

(** The tokens of a list inside an object, one of its elements the string
    that holds a brace. *)
Lemma nested_rendering_tokens :
  structural
    (out (snd (write_value net_reachable
                 (JObj [("k", JList [JStr "{"; JObj []])]) 0 (JObj []) None
                 init_state)))
  = [Open Brace; Open Bracket; Open Brace; Close Brace; Close Bracket; Close Brace].
Proof. vm_compute. reflexivity. Qed.

(** * Further properties *)

(** ** Escaped text ([html.escape]) *)

Lemma text_ok_app (a b : string) :
  text_ok a = true -> text_ok b = true -> text_ok (a ++ b) = true.
Proof.
  induction a as [|c a IH]; cbn; [auto|].
  intros H Hb. apply andb_prop in H as [Hc Ha]. rewrite Hc. cbn. auto.
Qed.

Lemma value_ok_app (a b : string) :
  value_ok a = true -> value_ok b = true -> value_ok (a ++ b) = true.
Proof.
  induction a as [|c a IH]; cbn; [auto|].
  intros H Hb. apply andb_prop in H as [Hc Ha]. rewrite Hc. cbn. auto.
Qed.

Lemma value_ok_text_ok (a : string) : value_ok a = true -> text_ok a = true.
Proof.
  induction a as [|c a IH]; cbn; [auto|].
  intros H. apply andb_prop in H as [Hc Ha].
  apply andb_prop in Hc as [Hc _]. rewrite Hc. cbn. auto.
Qed.

Lemma value_ok_escape_char (c : ascii) : value_ok (escape_char c) = true.
Proof.
  unfold escape_char.
  destruct (Ascii.eqb c "&") eqn:H1; [reflexivity|].
  destruct (Ascii.eqb c "<") eqn:H2; [reflexivity|].
  destruct (Ascii.eqb c ">") eqn:H3; [reflexivity|].
  destruct (Ascii.eqb c dquote) eqn:H4; [reflexivity|].
  destruct (Ascii.eqb c "'") eqn:H5; [reflexivity|].
  cbn. now rewrite H2, H3, H4.
Qed.

Lemma value_ok_html_escape (s : string) : value_ok (html_escape s) = true.
Proof.
  induction s as [|c s IH]; cbn; [reflexivity|].
  apply value_ok_app; [apply value_ok_escape_char | exact IH].
Qed.

Lemma unescape_escape_char (c : ascii) (r : string) :
  unescape_from 0 (escape_char c ++ r) = String c (unescape_from 0 r).
Proof.
  unfold escape_char.
  destruct (Ascii.eqb_spec c "&") as [->|H1]; [reflexivity|].
  destruct (Ascii.eqb_spec c "<") as [->|H2]; [reflexivity|].
  destruct (Ascii.eqb_spec c ">") as [->|H3]; [reflexivity|].
  destruct (Ascii.eqb_spec c dquote) as [->|H4]; [reflexivity|].
  destruct (Ascii.eqb_spec c "'") as [->|H5]; [reflexivity|].
  cbn [append unescape_from starts].
  destruct (Ascii.eqb_spec "&" c) as [<-|_]; [contradiction | reflexivity].
Qed.

(** X9: [html.escape] loses nothing and leaves no markup.  Reading the
    five entities back gives the text that was escaped, so that two
    identifiers have the same [id] or [href] only when they are the same
    identifier; and the escaped text has no [<], no [>] and no double
    quote. *)
Theorem html_escape_round_trip (s : string) :
  html_unescape (html_escape s) = s /\ value_ok (html_escape s) = true.
Proof.
  split; [|apply value_ok_html_escape].
  unfold html_unescape. induction s as [|c s IH]; [reflexivity|].
  cbn [html_escape]. now rewrite unescape_escape_char, IH.
Qed.

(** ** The label of a string ([string]) *)

Lemma rstrip_app (c : ascii) (t u : string) :
  PyStr.rstrip c (t ++ u)
  = match PyStr.rstrip c u with
    | EmptyString => PyStr.rstrip c t
    | r => t ++ r
    end.
Proof.
  induction t as [|a t IH]; cbn [append PyStr.rstrip].
  - now destruct (PyStr.rstrip c u).
  - rewrite IH. destruct (PyStr.rstrip c u) as [|b r]; [reflexivity|].
    destruct t; reflexivity.
Qed.

Lemma rstrip_fixed (c : ascii) (t : string) :
  last_char t <> Some c -> PyStr.rstrip c t = t.
Proof.
  induction t as [|a t IH]; [reflexivity|].
  cbn [last_char PyStr.rstrip]. destruct t as [|b t].
  - cbn. intros H. destruct (Ascii.eqb_spec a c) as [->|_]; [congruence | reflexivity].
  - intros H. rewrite (IH H). reflexivity.
Qed.

Lemma lstrip_fixed (c : ascii) (s : string) :
  first_char s <> Some c -> PyStr.lstrip c s = s.
Proof.
  destruct s as [|a s]; [reflexivity|]. cbn.
  destruct (Ascii.eqb_spec a c) as [->|_]; [congruence | reflexivity].
Qed.

Lemma last_char_app (t : string) (a : ascii) (u : string) :
  last_char (t ++ String a u) = last_char (String a u).
Proof.
  induction t as [|b t IH]; [reflexivity|].
  cbn [append]. change (last_char (String b (t ++ String a u)))
    with (match t ++ String a u with
          | EmptyString => Some b
          | String _ _ => last_char (t ++ String a u)
          end).
  destruct t; exact IH.
Qed.

(** What [json.dumps] writes for a character does not begin with a double
    quote, and ends with one only for the double quote. *)
Lemma dumps_char_first (a : ascii) :
  exists b r, dumps_char a = String b r /\ b <> dquote.
Proof.
  destruct a as [[] [] [] [] [] [] [] []];
    (eexists; eexists; split; [reflexivity | discriminate]).
Qed.

Lemma dumps_char_last (a : ascii) :
  last_char (dumps_char a) = Some dquote -> a = dquote.
Proof.
  destruct a as [[] [] [] [] [] [] [] []]; cbv; intros H;
    first [reflexivity | discriminate H].
Qed.

Lemma dumps_body_last (s : string) :
  last_char (dumps_body s) = Some dquote -> last_char s = Some dquote.
Proof.
  induction s as [|a s IH]; [discriminate|].
  cbn [dumps_body]. destruct s as [|b s].
  - cbn [dumps_body]. rewrite append_nil_r. intros H.
    apply dumps_char_last in H. now subst.
  - cbn [dumps_body] in *.
    destruct (dumps_char_first b) as (c & r & Hb & _). rewrite Hb in *.
    cbn [append] in *. rewrite last_char_app. exact IH.
Qed.

Lemma dumps_body_app (s t : string) :
  dumps_body (s ++ t) = dumps_body s ++ dumps_body t.
Proof.
  induction s as [|a s IH]; [reflexivity|].
  cbn [append dumps_body]. now rewrite IH, append_assoc.
Qed.

Lemma dumps_body_first (s r : string) :
  first_char r <> Some dquote -> first_char (dumps_body s ++ r) <> Some dquote.
Proof.
  intros Hq. destruct s as [|a s]; [exact Hq|].
  cbn [dumps_body]. destruct (dumps_char_first a) as (b & t & -> & Hb).
  cbn. congruence.
Qed.

Lemma strip_dumps (s : string) :
  last_char s <> Some dquote -> PyStr.strip dquote (dumps_str s) = dumps_body s.
Proof.
  intros Hlast. unfold PyStr.strip, dumps_str.
  change (dq ++ dumps_body s ++ dq) with (String dquote (dumps_body s ++ dq)).
  cbn [PyStr.lstrip]. rewrite Ascii.eqb_refl.
  destruct s as [|a s]; [reflexivity|].
  rewrite lstrip_fixed.
  2:{ cbn [dumps_body]. destruct (dumps_char_first a) as (b & t & -> & Hb).
      cbn. congruence. }
  rewrite rstrip_app. change (PyStr.rstrip dquote dq) with EmptyString.
  apply rstrip_fixed. intros H. now apply dumps_body_last in H.
Qed.

Lemma strip_dumps_quote (s : string) :
  PyStr.strip dquote (dumps_str (s ++ dq)) = dumps_body s ++ "\".
Proof.
  unfold PyStr.strip, dumps_str. rewrite dumps_body_app.
  change (dumps_body dq) with ("\" ++ dq).
  change (dq ++ (dumps_body s ++ "\" ++ dq) ++ dq)
    with (String dquote ((dumps_body s ++ "\" ++ dq) ++ dq)).
  cbn [PyStr.lstrip]. rewrite Ascii.eqb_refl.
  replace ((dumps_body s ++ "\" ++ dq) ++ dq)
    with (dumps_body s ++ ("\" ++ dq ++ dq)) by now rewrite !append_assoc.
  rewrite lstrip_fixed by (apply dumps_body_first; discriminate).
  replace (dumps_body s ++ ("\" ++ dq ++ dq))
    with ((dumps_body s ++ "\") ++ (dq ++ dq)) by now rewrite !append_assoc.
  rewrite rstrip_app. change (PyStr.rstrip dquote (dq ++ dq)) with EmptyString.
  apply rstrip_fixed. rewrite last_char_app. discriminate.
Qed.

(** X10: the label [string] writes for a string is its JSON text without
    the two quotes around it, escaped, unless the string ends in a double
    quote: [strip] then takes the quote of the escape sequence at the end
    with it, and the label ends in a backslash. *)
Theorem string_label (s cls : string) :
  (last_char s <> Some dquote ->
   string_ s cls = QUOTE ++ span_class cls (html_escape (dumps_body s)) ++ QUOTE)
  /\ string_ (s ++ dq) cls
     = QUOTE ++ span_class cls (html_escape (dumps_body s ++ "\")) ++ QUOTE.
Proof.
  assert (forall t, string_ t cls
                    = QUOTE ++ span_class cls
                                 (html_escape (PyStr.strip dquote (dumps_str t)))
                            ++ QUOTE) as Hform
      by (intros t; unfold string_, span_class; now rewrite !append_assoc).
  split.
  - intros Hlast. now rewrite Hform, strip_dumps.
  - now rewrite Hform, strip_dumps_quote.
Qed.

(** X10 on a string with a markup character and on a string that ends in a
    double quote. *)
Lemma string_label_witness :
  last_char "a<b" <> Some dquote
  /\ string_ "a<b" "string" = QUOTE ++ span_class "string" "a&lt;b" ++ QUOTE
  /\ string_ ("say " ++ dq ++ "hi" ++ dq) "string"
     = QUOTE ++ span_class "string" ("say \&quot;hi\") ++ QUOTE.
Proof.
  split; [discriminate|]. split.
  - apply (proj1 (string_label "a<b" "string")). discriminate.
  - apply (proj2 (string_label ("say " ++ dq ++ "hi") "string")).
Defined.

(** ** From an IRI to the URL of its page ([get_doc_url]) *)

Lemma rpartition_none (c : ascii) (s : string) :
  PyStr.rpartition c s = None <-> char_free c s = true.
Proof.
  induction s as [|a s IH]; cbn; [tauto|].
  destruct (PyStr.rpartition c s) as [[h t]|].
  - split; [discriminate|]. intros H. apply andb_prop in H as [_ H].
    apply IH in H. discriminate H.
  - destruct (Ascii.eqb a c); cbn; [split; discriminate|].
    split; intros _; [now apply IH | reflexivity].
Qed.

Lemma rpartition_some (c : ascii) (s h t : string) :
  PyStr.rpartition c s = Some (h, t) ->
  s = h ++ String c t /\ char_free c t = true.
Proof.
  revert h. induction s as [|a s IH]; intros h; cbn; [discriminate|].
  destruct (PyStr.rpartition c s) as [[h' t']|] eqn:Hs.
  - intros [= <- <-]. destruct (IH h' eq_refl) as [-> Hfree]. auto.
  - destruct (Ascii.eqb_spec a c) as [->|_]; [|discriminate].
    intros [= <- <-]. split; [reflexivity|]. now apply rpartition_none.
Qed.

Lemma rpartition_app (c : ascii) (h t : string) :
  char_free c t = true -> PyStr.rpartition c (h ++ String c t) = Some (h, t).
Proof.
  intros Ht. apply rpartition_none in Ht.
  induction h as [|a h IH]; cbn [append PyStr.rpartition].
  - now rewrite Ht, Ascii.eqb_refl.
  - now rewrite IH.
Qed.

Lemma rpartition_occurrences (c : ascii) (s : string) :
  match PyStr.rpartition c s with
  | Some (h, _) => occurrences c s = S (occurrences c h)
  | None => occurrences c s = 0
  end.
Proof.
  induction s as [|a s IH]; cbn [PyStr.rpartition occurrences]; [reflexivity|].
  destruct (PyStr.rpartition c s) as [[h t]|].
  - cbn [occurrences]. lia.
  - rewrite IH. destruct (Ascii.eqb a c); reflexivity.
Qed.

Lemma rsplit2_none (c : ascii) (s : string) :
  PyStr.rsplit2 c s = None <-> occurrences c s < 2.
Proof.
  unfold PyStr.rsplit2.
  pose proof (rpartition_occurrences c s) as H1.
  destruct (PyStr.rpartition c s) as [[h t]|]; [|split; [lia | reflexivity]].
  pose proof (rpartition_occurrences c h) as H2.
  destruct (PyStr.rpartition c h) as [[h' mid]|]; split; try discriminate; try lia.
  reflexivity.
Qed.

Lemma rstrip_repeat (c : ascii) (k : nat) :
  PyStr.rstrip c (PyStr.repeat (String c EmptyString) k) = EmptyString.
Proof.
  induction k as [|k IH]; [reflexivity|].
  cbn [PyStr.repeat append PyStr.rstrip]. rewrite IH. now rewrite Ascii.eqb_refl.
Qed.

Lemma char_free_last (c : ascii) (s : string) :
  char_free c s = true -> last_char s <> Some c.
Proof.
  induction s as [|a s IH]; [discriminate|].
  cbn [char_free last_char]. intros H. apply andb_prop in H as [Ha Hs].
  destruct s as [|b s]; [|now apply IH].
  intros [= ->]. now rewrite Ascii.eqb_refl in Ha.
Qed.

Lemma doc_url_page (t : kind) (rdf_uri : json) (url : string) :
  doc_url t rdf_uri = Ok (Some url) -> doc_page url.
Proof.
  unfold doc_url. destruct rdf_uri as [| | |s| |]; try discriminate.
  unfold PyStr.rsplit2.
  destruct (PyStr.rpartition "/" (PyStr.rstrip "/" s)) as [[h n]|] eqn:H1;
    [|discriminate].
  destruct (PyStr.rpartition "/" h) as [[h' profile]|] eqn:H2; [|discriminate].
  intros [= <-]. exists profile, t, n.
  apply rpartition_some in H1 as [_ H1]. apply rpartition_some in H2 as [_ H2]. auto.
Qed.

(** X11: the URL of an IRI.  For an IRI that ends in [/profile/name],
    followed by any number of slashes, the URL is the base followed by
    [profile/Kind/name]: what comes before the profile does not matter. *)
Theorem doc_url_of_iri (typ : kind) (base profile name : string) (slashes : nat) :
  char_free "/" profile = true ->
  char_free "/" name = true ->
  name <> EmptyString ->
  doc_url typ (JStr (base ++ "/" ++ profile ++ "/" ++ name
                       ++ PyStr.repeat "/" slashes))
  = Ok (Some (DOC_BASE ++ profile ++ "/" ++ kind_name typ ++ "/" ++ name)).
Proof.
  intros Hp Hn Hne. unfold doc_url.
  replace (base ++ "/" ++ profile ++ "/" ++ name ++ PyStr.repeat "/" slashes)
    with ((base ++ "/" ++ profile ++ "/" ++ name) ++ PyStr.repeat "/" slashes)
    by now rewrite !append_assoc.
  rewrite rstrip_app, rstrip_repeat.
  rewrite rstrip_fixed.
  2:{ replace (base ++ "/" ++ profile ++ "/" ++ name)
        with ((base ++ "/" ++ profile ++ "/") ++ name) by now rewrite !append_assoc.
      destruct name as [|a name]; [contradiction|].
      rewrite last_char_app. now apply char_free_last. }
  unfold PyStr.rsplit2.
  replace (base ++ "/" ++ profile ++ "/" ++ name)
    with ((base ++ "/" ++ profile) ++ String "/" name) by now rewrite !append_assoc.
  rewrite rpartition_app by assumption.
  change (base ++ "/" ++ profile) with (base ++ String "/" profile).
  rewrite rpartition_app by assumption. reflexivity.
Qed.

(** X11 on the IRI of a class, written with two slashes at its end. *)
Lemma doc_url_of_iri_witness :
  doc_url Classes (JStr "https://spdx.org/rdf/3.0.1/terms/Core/Element//")
  = Ok (Some (DOC_BASE ++ "Core/Classes/Element")).
Proof.
  apply (doc_url_of_iri Classes "https://spdx.org/rdf/3.0.1/terms" "Core" "Element" 2).
  - reflexivity.
  - reflexivity.
  - discriminate.
Defined.

Section ShortIri.

Variable urlopen : network.

(** X12: an IRI has a documentation URL exactly when it has two slashes or
    more once the slashes at its end are removed.  A name whose IRI has
    fewer is unresolved: [get_doc_url] returns no URL and no class, makes
    no request and leaves the state as it was. *)
Theorem iri_needs_two_slashes (typ : option kind) (name : string) (context sub : json)
    (iri : string) (t : kind) (st : state) :
  resolve typ name context = Ok (sub, Some (JStr iri, t)) ->
  (doc_url t (JStr iri) = Ok None <-> occurrences "/" (PyStr.rstrip "/" iri) < 2)
  /\ (occurrences "/" (PyStr.rstrip "/" iri) < 2 ->
      get_doc_url urlopen typ name context st = (Ok (None, sub, None), st)).
Proof.
  intros Hres.
  assert (doc_url t (JStr iri) = Ok None <-> occurrences "/" (PyStr.rstrip "/" iri) < 2)
    as Hiff.
  { rewrite <- rsplit2_none. unfold doc_url.
    destruct (PyStr.rsplit2 "/" (PyStr.rstrip "/" iri)) as [[[h p] n]|];
      split; try discriminate; reflexivity. }
  split; [exact Hiff|].
  intros Hshort. apply Hiff in Hshort.
  unfold get_doc_url, bind, lift. now rewrite Hres, Hshort.
Qed.

End ShortIri.

(** X12 on an IRI whose only slash is at its end: nothing is requested,
    whatever the network would answer. *)
Lemma iri_needs_two_slashes_witness :
  occurrences "/" (PyStr.rstrip "/" "urn:name/") < 2
  /\ get_doc_url net_not_found (Some Properties) "name"
       (JObj [("name", JStr "urn:name/")]) init_state
     = (Ok (None, JObj [("name", JStr "urn:name/")], None), init_state).
Proof.
  split; [cbn; lia|].
  apply (proj2 (iri_needs_two_slashes net_not_found (Some Properties) "name"
                  (JObj [("name", JStr "urn:name/")])
                  (JObj [("name", JStr "urn:name/")]) "urn:name/" Properties
                  init_state eq_refl)).
  cbn. lia.
Defined.

(** ** The text of a rendering, part by part *)

Lemma emit_run (s : string) (st st' : state) (u : unit) :
  emit s st = (Ok u, st') -> st' = set_out (out st ++ s) st.
Proof. intros H. now inversion H. Qed.

Lemma emit_if_text (c : bool) (s : string) (st st' : state) (u : unit) :
  emit_if c s st = (Ok u, st') -> out st' = out st ++ (if c then s else EmptyString).
Proof.
  destruct c; cbn [emit_if]; intros H.
  - now apply emit_ok in H.
  - inversion H. now rewrite append_nil_r.
Qed.

(** A span is opened for a truthy anchor or identifier that is a string;
    [html.escape] raises for a truthy one that is not. *)
Lemma span_open_text (x : json) (st st' : state) (u : unit) :
  (if py_truthy x
   then id <- lift (py_html_escape x) ;; emit (span_id_open id)
   else ret tt) st = (Ok u, st') ->
  out st' = out st ++ id_span_open x
  /\ (if py_truthy x then "</span>" else EmptyString) = id_span_close x.
Proof.
  unfold id_span_open, id_span_close. destruct (py_truthy x) eqn:Hx.
  - intros H. apply bind_ok in H as (id & st1 & Hid & H).
    unfold lift in Hid. destruct x; try discriminate Hid.
    cbn in Hid. injection Hid as <- <-. apply emit_ok in H. auto.
  - intros H. inversion H. subst. destruct x; now rewrite append_nil_r.
Qed.

Section Texts.

Variable urlopen : network.

Lemma write_str_run (v : string) (context : json) (typ : option kind) (st : state) :
  write_str urlopen v context typ st =
  match get_doc_url urlopen typ v context st with
  | (Ok (u, _, css), st1) =>
      (Ok tt, set_out (out st ++ string_rendering v (set_has (JStr v) (ids st)) u css) st1)
  | (Err e, st1) => (Err e, st1)
  end.
Proof.
  unfold write_str, bind.
  destruct (get_doc_url_frame urlopen typ v context st) as (_ & Hids & Hout).
  destruct (get_doc_url urlopen typ v context st) as [[[[u sub] css]|e] st1];
    cbn [snd] in Hids, Hout; [|reflexivity].
  unfold set_has, string_rendering. rewrite Hids.
  destruct (existsb (py_eq (JStr v)) (ids st)).
  - unfold emit, same_page_reference.
    cbn [out set_out anchors ids checked_urls requests].
    rewrite Hout, !append_assoc. reflexivity.
  - destruct u as [url|].
    + unfold emit, doc_link.
      cbn [out set_out anchors ids checked_urls requests].
      rewrite Hout, !append_assoc. reflexivity.
    + destruct (_ || _).
      * unfold emit, external_link.
        cbn [out set_out anchors ids checked_urls requests].
        rewrite Hout, !append_assoc. reflexivity.
      * unfold emit, plain_literal. now rewrite Hout.
Qed.

Lemma write_key_value_text k v indent context st st' :
  write_key_value urlopen k v (indent + 1) context st = (Ok tt, st') ->
  exists seg, out st' = out st ++ seg /\ pair_text urlopen indent (k, v) seg.
Proof.
  unfold write_key_value, write_key_value_body. intros H.
  apply bind_ok in H as (anchor & s1 & Ha & H).
  pose proof (get_anchor_frame (JStr k) "property" context st) as (_ & _ & Ho1 & _).
  rewrite Ha in Ho1; cbn [snd] in Ho1.
  apply bind_ok in H as ([] & s2 & Hspan & H).
  apply span_open_text in Hspan as [Ho2 Hc2].
  apply bind_ok in H as ([] & s3 & Hind & H). apply emit_ok in Hind.
  apply bind_ok in H as ([[u sub] css] & s4 & Hdoc & H).
  pose proof (get_doc_url_frame urlopen (Some Properties) k context s3) as (_ & _ & Ho4).
  rewrite Hdoc in Ho4; cbn [snd] in Ho4.
  apply get_doc_url_css_run in Hdoc as Hcss; cbn [snd] in Hcss.
  apply bind_ok in H as ([] & s5 & Hlink & H).
  assert (out s5 = out s4 ++ link_open u) as Ho5.
  { destruct u; [now apply emit_ok in Hlink|].
    inversion Hlink. subst. cbn [link_open]. now rewrite append_nil_r. }
  apply bind_ok in H as ([] & s6 & Hkey & H). apply emit_ok in Hkey.
  apply bind_ok in H as ([] & s7 & Hclose & H).
  assert (out s7 = out s6 ++ link_close u) as Ho7.
  { destruct u; [now apply emit_ok in Hclose|].
    inversion Hclose. subst. cbn [link_close]. now rewrite append_nil_r. }
  apply bind_ok in H as ([] & s8 & Hcolon & H). apply emit_ok in Hcolon.
  apply bind_ok in H as ([] & s9 & Hval & H).
  apply emit_if_text in H as Ho10.
  assert (exists value, out s9 = out s8 ++ value) as [value Ho9].
  { pose proof (write_value_appends urlopen v (indent + 1) sub
                  (if String.eqb k "type" then Some Classes else None) s8) as Hv.
    now rewrite Hval in Hv. }
  exists (id_span_open anchor ++ indent_str (indent + 1) ++ link_open u
          ++ string_ k (match css with Some c => c | None => "string" end)
          ++ link_close u ++ (COLON ++ " ") ++ value ++ id_span_close anchor).
  split.
  - rewrite Ho10, Ho9, Hcolon, Ho7, Hkey, Ho5, Ho4, Hind, Ho2, Ho1.
    rewrite Hc2. now rewrite !append_assoc.
  - exists anchor, u, sub, css, value, s8, s9. cbn [fst snd].
    split; [now rewrite !append_assoc|]. auto.
Qed.

Lemma write_pairs_text items indent context st st' :
  write_pairs urlopen (write_value urlopen) items indent context st = (Ok tt, st') ->
  exists segs, out st' = out st ++ joined segs
               /\ Forall2 (pair_text urlopen indent) items segs.
Proof.
  revert st. induction items as [|[k v] rest IH]; intros st H; cbn [write_pairs] in H.
  - inversion H; subst. exists []. split; [now rewrite append_nil_r | constructor].
  - apply bind_ok in H as ([] & s1 & Hkv & H).
    apply write_key_value_text in Hkv as (seg & Ho1 & Hseg).
    destruct rest as [|kv' rest'].
    + apply emit_ok in H. exists [seg]. split.
      * cbn [joined]. now rewrite H, Ho1, append_assoc.
      * repeat constructor. exact Hseg.
    + apply bind_ok in H as ([] & s2 & Hcomma & H). apply emit_ok in Hcomma.
      apply bind_ok in H as ([] & s3 & Hnl & H). apply emit_ok in Hnl.
      apply IH in H as (segs & Ho & Hsegs).
      exists (seg :: segs). split.
      * rewrite Ho, Hnl, Hcomma, Ho1.
        destruct segs as [|seg' segs']; [inversion Hsegs|].
        cbn [joined]. now rewrite !append_assoc.
      * constructor; assumption.
Qed.

Lemma write_obj_text obj indent context st st' :
  write_obj urlopen obj indent context st = (Ok tt, st') ->
  exists anchor obj_id segs,
    get_obj_id (JObj obj) = Ok obj_id
    /\ out st' = out st ++ id_span_open anchor ++ id_span_open obj_id
                 ++ id_span_open (dict_get_default "externalSpdxId" obj JNull)
                 ++ LBRACE ++ NL ++ joined segs ++ (indent_str indent ++ RBRACE)
                 ++ id_span_close (dict_get_default "externalSpdxId" obj JNull)
                 ++ id_span_close obj_id ++ id_span_close anchor
    /\ Forall2 (pair_text urlopen indent) obj segs.
Proof.
  unfold write_obj, write_obj_body. intros H.
  apply bind_ok in H as (anchor & s1 & Ha & H).
  assert (out s1 = out st) as Ho1.
  { destruct (dict_get "type" obj) as [t|]; [|now inversion Ha].
    pose proof (get_anchor_frame t "class" context st) as (_ & _ & Hf & _).
    now rewrite Ha in Hf. }
  apply bind_ok in H as ([] & s2 & Hs2 & H). apply span_open_text in Hs2 as [Ho2 Hc2].
  apply bind_ok in H as (obj_id & s3 & Hid & H).
  unfold lift in Hid.
  assert (s3 = s2) as -> by now inversion Hid.
  assert (get_obj_id (JObj obj) = Ok obj_id) as Hobj by now inversion Hid.
  apply bind_ok in H as ([] & s4 & Hs4 & H). apply span_open_text in Hs4 as [Ho4 Hc4].
  cbv zeta in H.
  apply bind_ok in H as ([] & s5 & Hs5 & H). apply span_open_text in Hs5 as [Ho5 Hc5].
  apply bind_ok in H as ([] & s6 & Hs6 & H). apply emit_ok in Hs6.
  apply bind_ok in H as ([] & s7 & Hs7 & H). apply emit_ok in Hs7.
  apply bind_ok in H as ([] & s8 & Hpairs & H).
  apply write_pairs_text in Hpairs as (segs & Ho8 & Hsegs).
  apply bind_ok in H as ([] & s9 & Hs9 & H). apply emit_ok in Hs9.
  apply bind_ok in H as ([] & s10 & Hs10 & H). apply emit_if_text in Hs10 as Ho10.
  apply bind_ok in H as ([] & s11 & Hs11 & H). apply emit_if_text in Hs11 as Ho11.
  apply emit_if_text in H as Ho12.
  exists anchor, obj_id, segs. split; [assumption|]. split; [|assumption].
  rewrite Ho12, Ho11, Ho10, Hs9, Ho8, Hs7, Hs6, Ho5, Ho4, Ho2, Ho1.
  rewrite Hc2, Hc4, Hc5. now rewrite !append_assoc.
Qed.

Lemma write_items_text lst indent context st st' :
  write_items (write_value urlopen) lst indent context st = (Ok tt, st') ->
  exists segs, out st' = out st ++ joined segs
               /\ Forall2 (element_segment urlopen indent context) lst segs.
Proof.
  revert st. induction lst as [|v rest IH]; intros st H; cbn [write_items] in H.
  - inversion H; subst. exists []. split; [now rewrite append_nil_r | constructor].
  - apply bind_ok in H as ([] & s1 & Hind & H). apply emit_ok in Hind.
    apply bind_ok in H as ([] & s2 & Hval & H).
    assert (exists value, out s2 = out s1 ++ value) as [value Ho2].
    { pose proof (write_value_appends urlopen v (indent + 1) context None s1) as Hv.
      now rewrite Hval in Hv. }
    assert (element_segment urlopen indent context v
              (indent_str (indent + 1) ++ value)) as Hseg
        by (exists value, s1, s2; auto).
    destruct rest as [|v' rest'].
    + apply emit_ok in H. exists [indent_str (indent + 1) ++ value]. split.
      * cbn [joined]. now rewrite H, Ho2, Hind, !append_assoc.
      * repeat constructor. exact Hseg.
    + apply bind_ok in H as ([] & s3 & Hcomma & H). apply emit_ok in Hcomma.
      apply bind_ok in H as ([] & s4 & Hnl & H). apply emit_ok in Hnl.
      apply IH in H as (segs & Ho & Hsegs).
      exists ((indent_str (indent + 1) ++ value) :: segs). split.
      * rewrite Ho, Hnl, Hcomma, Ho2, Hind.
        destruct segs as [|seg' segs']; [inversion Hsegs|].
        cbn [joined]. now rewrite !append_assoc.
      * constructor; [exact Hseg | assumption].
Qed.

Lemma write_list_text lst indent context st st' :
  write_list urlopen lst indent context st = (Ok tt, st') ->
  exists segs,
    out st' = out st ++ LBRACKET ++ NL ++ joined segs ++ indent_str indent ++ RBRACKET
    /\ Forall2 (element_segment urlopen indent context) lst segs.
Proof.
  unfold write_list, write_list_body. intros H.
  apply bind_ok in H as ([] & s1 & H1 & H). apply emit_ok in H1.
  apply bind_ok in H as ([] & s2 & H2 & H). apply emit_ok in H2.
  apply bind_ok in H as ([] & s3 & Hitems & H). apply emit_ok in H.
  apply write_items_text in Hitems as (segs & Ho & Hsegs).
  exists segs. split; [|assumption].
  rewrite H, Ho, H2, H1. now rewrite !append_assoc.
Qed.

(** X14: the text of an array that was written without an exception is the
    opening bracket, one line for each element in the order of the array,
    and the closing bracket at the indentation of the array.  The line of
    an element is the indentation one level deeper followed by the
    rendering of the element under the context of the array; a comma
    follows every line but the last, and an empty array has no line. *)
Theorem write_list_elements_in_order (lst : list json) (indent : nat) (context : json)
    (st st' : state) :
  write_list urlopen lst indent context st = (Ok tt, st') ->
  exists segs,
    out st' = out st ++ LBRACKET ++ NL ++ joined segs ++ indent_str indent ++ RBRACKET
    /\ Forall2 (element_segment urlopen indent context) lst segs.
Proof. apply write_list_text. Qed.

Lemma write_value_ids v indent context typ st :
  ids (snd (write_value urlopen v indent context typ st)) = ids st.
Proof.
  pose proof (write_value_keeps urlopen (fun s => ids s = ids st)
                (fun _ s => ids s = ids st)) as Hk.
  unfold keeps, post in Hk.
  specialize (Hk (fun s st0 H => H) (fun e st0 H => H)).
  assert (ids (snd (write_value urlopen v indent context typ st)) = ids st
          <-> match write_value urlopen v indent context typ st with
              | (Ok _, st') => ids st' = ids st
              | (Err _, st') => ids st' = ids st
              end) as ->
      by (destruct (write_value urlopen v indent context typ st) as [[?|?] ?];
          reflexivity).
  apply Hk; [| |reflexivity].
  - intros n p c st0 H.
    pose proof (get_anchor_frame n p c st0) as (Hf & _).
    destruct (get_anchor n p c st0) as [[?|?] st1]; cbn [snd] in Hf; congruence.
  - intros url st0 H.
    pose proof (check_url_frame urlopen url st0) as (_ & Hf & _).
    destruct (check_url urlopen url st0) as [[[]|?] st1]; cbn [snd] in Hf; congruence.
Qed.

Lemma write_text data context_doc st st' :
  write urlopen data context_doc st = (Ok tt, st') ->
  exists context s0 s1 s2 body,
    index_data data st = (Ok tt, s0)
    /\ py_getitem context_doc (JStr "@context") = Ok context
    /\ write_obj urlopen data 0 context s1 = (Ok tt, s2)
    /\ out s2 = out s1 ++ body
    /\ ids st' = ids s0
    /\ out st' = out st ++ LEGEND ++ ("<pre class=" ++ dq ++ "code" ++ dq ++ "><code>")
                 ++ body ++ "</code></pre>".
Proof.
  unfold write. intros H.
  apply bind_ok in H as ([] & s0 & Hindex & H).
  pose proof (index_data_same_io data st) as (Ho0 & _).
  rewrite Hindex in Ho0; cbn [snd] in Ho0.
  apply bind_ok in H as ([] & s1 & H1 & H). apply emit_run in H1.
  apply bind_ok in H as ([] & s2 & H2 & H). apply emit_run in H2.
  apply bind_ok in H as ([] & s3 & H3 & H). apply emit_run in H3.
  apply bind_ok in H as ([] & s4 & H4 & H). apply emit_run in H4.
  apply bind_ok in H as ([] & s5 & H5 & H). apply emit_run in H5.
  apply bind_ok in H as ([] & s6 & H6 & H). apply emit_run in H6.
  apply bind_ok in H as ([] & s7 & H7 & H). apply emit_run in H7.
  apply bind_ok in H as ([] & s8 & H8 & H). apply emit_run in H8.
  apply bind_ok in H as ([] & s9 & H9 & H). apply emit_run in H9.
  apply bind_ok in H as (context & s10 & Hctx & H).
  unfold lift in Hctx.
  assert (s10 = s9) as -> by now inversion Hctx.
  assert (py_getitem context_doc (JStr "@context") = Ok context) as Hc by now inversion Hctx.
  apply bind_ok in H as ([] & s11 & Hobj & H). apply emit_run in H.
  pose proof (write_value_appends urlopen (JObj data) 0 context None s9) as [body Hbody].
  pose proof (write_value_ids (JObj data) 0 context None s9) as Hids.
  cbn [write_value] in Hbody, Hids. unfold write_obj in Hobj.
  rewrite Hobj in Hbody, Hids. cbn [snd] in Hbody, Hids.
  exists context, s0, s9, s11, body. repeat (split; [assumption|]).
  split.
  - rewrite H. cbn [ids set_out]. rewrite Hids.
    rewrite H9, H8, H7, H6, H5, H4, H3, H2, H1. reflexivity.
  - rewrite H. cbn [out set_out]. rewrite Hbody.
    rewrite H9, H8, H7, H6, H5, H4, H3, H2, H1.
    cbn [out set_out]. rewrite Ho0.
    unfold LEGEND. now rewrite !append_assoc.
Qed.

End Texts.

(** X14 on an array of a number and a string. *)
Lemma write_list_elements_in_order_witness :
  exists segs,
    out (snd (write_list net_reachable [JNum 1; JStr "a"] 0 (JObj []) init_state))
    = out init_state ++ LBRACKET ++ NL ++ joined segs ++ indent_str 0 ++ RBRACKET
    /\ Forall2 (element_segment net_reachable 0 (JObj [])) [JNum 1; JStr "a"] segs.
Proof.
  apply (write_list_elements_in_order net_reachable [JNum 1; JStr "a"] 0 (JObj [])
           init_state
           (snd (write_list net_reachable [JNum 1; JStr "a"] 0 (JObj []) init_state))).
  vm_compute. reflexivity.
Defined.

(** ** The rendering is well-formed markup *)

Lemma text_ok_indent (i : nat) : text_ok (indent_str i) = true.
Proof. induction i as [|i IH]; cbn; auto. Qed.

Lemma text_ok_uint (d : Decimal.uint) : text_ok (NilEmpty.string_of_uint d) = true.
Proof. induction d; cbn; auto. Qed.

Lemma text_ok_dumps_int (n : Z) : text_ok (dumps_int n) = true.
Proof.
  unfold dumps_int, NilZero.string_of_int.
  destruct (Z.to_int n) as [d|d]; unfold NilZero.string_of_uint.
  - destruct d; try reflexivity; apply (text_ok_uint (_ d)).
  - cbn. destruct d; try reflexivity; apply (text_ok_uint (_ d)).
Qed.

Lemma html_nil : html EmptyString.
Proof. now apply html_text. Qed.

Lemma html_span_class (cls text : string) :
  value_ok cls = true -> html text -> html (span_class cls text).
Proof.
  intros Hc Ht.
  replace (span_class cls text)
    with (open_tag "span" (Some ("class", cls)) ++ text ++ close_tag "span")
    by (unfold span_class, open_tag, close_tag; now rewrite !append_assoc).
  apply html_element; [cbn; auto | split; [cbn; auto | exact Hc] | exact Ht].
Qed.

Lemma html_span_id (id body : string) :
  value_ok id = true -> html body -> html (span_id_open id ++ body ++ "</span>").
Proof.
  intros Hc Ht.
  replace (span_id_open id ++ body ++ "</span>")
    with (open_tag "span" (Some ("id", id)) ++ body ++ close_tag "span")
    by (unfold span_id_open, open_tag, close_tag; now rewrite !append_assoc).
  apply html_element; [cbn; auto | split; [cbn; auto | exact Hc] | exact Ht].
Qed.

Lemma html_a (href body : string) :
  value_ok href = true -> html body -> html (a_open href ++ body ++ "</a>").
Proof.
  intros Hc Ht.
  replace (a_open href ++ body ++ "</a>")
    with (open_tag "a" (Some ("href", href)) ++ body ++ close_tag "a")
    by (unfold a_open, open_tag, close_tag; now rewrite !append_assoc).
  apply html_element; [cbn; auto | split; [cbn; auto 10 | exact Hc] | exact Ht].
Qed.

Lemma html_token (tok : string) : text_ok tok = true -> html (span_token tok).
Proof.
  intros H.
  change (span_token tok) with (span_class "token" tok).
  apply html_span_class; [reflexivity | now apply html_text].
Qed.

Lemma value_ok_known (cls : string) : In cls known_classes -> value_ok cls = true.
Proof.
  intros H. repeat (destruct H as [<-|H]; [reflexivity|]). destruct H.
Qed.

Lemma html_string_ (v cls : string) : In cls known_classes -> html (string_ v cls).
Proof.
  intros Hc. unfold string_.
  change QUOTE with (span_token dq).
  apply html_app; [now apply html_token|].
  replace (("<span class=" ++ dq ++ cls ++ dq ++ ">")
            ++ html_escape (PyStr.strip dquote (dumps_str v)) ++ "</span>" ++ span_token dq)
    with (span_class cls (html_escape (PyStr.strip dquote (dumps_str v)))
            ++ span_token dq).
  - apply html_app; [|now apply html_token].
    apply html_span_class; [now apply value_ok_known|].
    apply html_text, value_ok_text_ok, value_ok_html_escape.
  - unfold span_class. now rewrite !append_assoc.
Qed.

Lemma html_id_span (x : json) (body : string) :
  html body -> html (id_span_open x ++ body ++ id_span_close x).
Proof.
  intros Hb. unfold id_span_open, id_span_close.
  destruct x; try (cbn [append]; now rewrite append_nil_r).
  destruct (py_truthy (JStr s)).
  - apply html_span_id; [apply value_ok_html_escape | exact Hb].
  - cbn [append]. now rewrite append_nil_r.
Qed.

Lemma html_link (u : option string) (body : string) :
  html body -> html (link_open u ++ body ++ link_close u).
Proof.
  intros Hb. destruct u as [url|]; cbn [link_open link_close].
  - apply html_a; [apply value_ok_html_escape | exact Hb].
  - cbn [append]. now rewrite append_nil_r.
Qed.

Lemma html_joined (segs : list string) : Forall html segs -> html (joined segs).
Proof.
  induction 1 as [|seg rest Hseg Hrest IH]; cbn [joined]; [apply html_nil|].
  apply html_app; [exact Hseg|].
  destruct rest as [|seg' rest'].
  - now apply html_text.
  - change COMMA with (span_token ",").
    apply html_app; [now apply html_token|].
    apply html_app; [now apply html_text | exact IH].
Qed.

Lemma html_string_rendering v in_ids u css :
  css_ok css -> html (string_rendering v in_ids u css).
Proof.
  intros Hcss. unfold string_rendering.
  destruct in_ids; [|destruct u as [url|]; [|destruct (_ || _)]].
  - unfold same_page_reference. apply html_a.
    + apply (value_ok_app "#"); [reflexivity | apply value_ok_html_escape].
    + apply html_string_; cbn; auto.
  - unfold doc_link. apply html_a; [apply value_ok_html_escape|].
    apply html_string_. now apply css_ok_format.
  - unfold external_link. apply html_a; [apply value_ok_html_escape|].
    apply html_string_; cbn; auto.
  - apply html_string_; cbn; auto.
Qed.

Section Markup.

Variable urlopen : network.

Lemma html_pair_text indent kv seg :
  (forall i c t s1 s2 d,
      write_value urlopen (snd kv) i c t s1 = (Ok tt, s2) ->
      out s2 = out s1 ++ d -> html d) ->
  pair_text urlopen indent kv seg -> html seg.
Proof.
  intros IH (anchor & u & sub & css & value & s1 & s2 & -> & Hcss & Hrun & Hout).
  assert (html (indent_str (indent + 1)
                ++ (link_open u
                    ++ string_ (fst kv) (match css with Some c => c | None => "string" end)
                    ++ link_close u)
                ++ (COLON ++ " ") ++ value)) as Hbody.
  { apply html_app; [apply html_text, text_ok_indent|].
    apply html_app;
      [apply html_link, html_string_; now apply css_ok_or_string|].
    apply html_app.
    - change COLON with (span_token ":").
      apply html_app; [now apply html_token | now apply html_text].
    - eapply IH; eassumption. }
  apply (html_id_span anchor) in Hbody.
  rewrite !append_assoc in Hbody. rewrite !append_assoc. exact Hbody.
Qed.

Lemma write_value_html v :
  forall indent context typ s1 s2 text,
    write_value urlopen v indent context typ s1 = (Ok tt, s2) ->
    out s2 = out s1 ++ text -> html text.
Proof.
  induction v using json_induction; intros indent context typ s1 s2 text Hrun Hout.
  - apply emit_ok in Hrun. rewrite Hrun in Hout. apply append_inv_head in Hout as <-.
    apply html_span_class; [reflexivity | now apply html_text].
  - apply emit_ok in Hrun. rewrite Hrun in Hout. apply append_inv_head in Hout as <-.
    apply html_span_class; [reflexivity | destruct b; now apply html_text].
  - apply emit_ok in Hrun. rewrite Hrun in Hout. apply append_inv_head in Hout as <-.
    apply html_span_class; [reflexivity | apply html_text, text_ok_dumps_int].
  - cbn [write_value] in Hrun. rewrite write_str_run in Hrun.
    destruct (get_doc_url urlopen typ s context s1) as [[[[u sub] css]|e] st1] eqn:Hdoc;
      [|discriminate Hrun].
    apply get_doc_url_css_run in Hdoc; cbn [snd] in Hdoc.
    injection Hrun as <-. cbn [out set_out] in Hout.
    apply append_inv_head in Hout as <-. now apply html_string_rendering.
  - apply (write_list_text urlopen) in Hrun as (segs & Ho & Hsegs).
    rewrite Ho in Hout. apply append_inv_head in Hout as <-.
    change LBRACKET with (span_token "[").
    apply html_app; [now apply html_token|].
    apply html_app; [now apply html_text|].
    apply html_app.
    + apply html_joined. clear Ho.
      induction Hsegs as [|v seg l segs Hseg Hsegs IH]; constructor.
      * destruct Hseg as (value & t1 & t2 & -> & Hv & Hval).
        apply html_app; [apply html_text, text_ok_indent|].
        apply Forall_inv in H. eapply H; eassumption.
      * apply IH. now apply Forall_inv_tail in H.
    + apply html_app; [apply html_text, text_ok_indent|].
      change RBRACKET with (span_token "]"). now apply html_token.
  - apply (write_obj_text urlopen) in Hrun as (anchor & obj_id & segs & _ & Ho & Hsegs).
    rewrite Ho in Hout. apply append_inv_head in Hout as <-.
    set (ext := dict_get_default "externalSpdxId" d JNull).
    assert (html (LBRACE ++ NL ++ joined segs ++ (indent_str indent ++ RBRACE))) as Hbody.
    { change LBRACE with (span_token "{").
      apply html_app; [now apply html_token|].
      apply html_app; [now apply html_text|].
      apply html_app.
      - apply html_joined. clear Ho.
        induction Hsegs as [|kv seg l segs Hseg Hsegs IH]; constructor.
        + apply Forall_inv in H. eapply html_pair_text; eassumption.
        + apply IH. now apply Forall_inv_tail in H.
      - apply html_app; [apply html_text, text_ok_indent|].
        change RBRACE with (span_token "}"). now apply html_token. }
    apply (html_id_span ext) in Hbody. apply (html_id_span obj_id) in Hbody.
    apply (html_id_span anchor) in Hbody.
    rewrite !append_assoc in Hbody. rewrite !append_assoc. exact Hbody.
Qed.

(** X1: a rendering that returns has written well-formed markup.  The
    text is made of the elements of the program, each closed after its
    content and inside the element it was opened in, and of text between
    them; whatever the value, the keys and the context hold, no [<] and no
    [>] is written outside a tag, and no [<], [>] or double quote inside the
    value of an attribute. *)
Theorem rendering_is_markup (v : json) (indent : nat) (context : json)
    (typ : option kind) (st st' : state) :
  write_value urlopen v indent context typ st = (Ok tt, st') ->
  exists text, out st' = out st ++ text /\ html text.
Proof.
  intros Hrun.
  pose proof (write_value_appends urlopen v indent context typ st) as [text Ht].
  rewrite Hrun in Ht. cbn [snd] in Ht.
  exists text. split; [exact Ht|].
  exact (write_value_html v indent context typ st st' text Hrun Ht).
Qed.

End Markup.

(** X1 on a value with markup characters in a key and in a string. *)
Lemma rendering_is_markup_witness :
  exists text,
    out (snd (write_value net_reachable markup_value 0 (JObj []) None init_state))
    = out init_state ++ text
    /\ html text.
Proof.
  apply (rendering_is_markup net_reachable markup_value 0 (JObj []) None init_state
           (snd (write_value net_reachable markup_value 0 (JObj []) None init_state))).
  vm_compute. reflexivity.
Defined.

(** ** The page [main] writes *)

Lemma html_plain (name : string) (body : string) :
  In name tag_names -> html body -> html (("<" ++ name ++ ">") ++ body ++ "</" ++ name ++ ">").
Proof.
  intros Hn Hb. exact (html_element name None body Hn I Hb).
Qed.

Lemma html_legend_row (cls text : string) :
  value_ok cls = true -> text_ok text = true -> html (legend_row cls text).
Proof.
  intros Hc Ht. unfold legend_row.
  replace ("<tr><td>" ++ span_class cls text ++ "</td></tr>" ++ NL)
    with ((("<" ++ "tr" ++ ">")
             ++ (("<" ++ "td" ++ ">") ++ span_class cls text ++ "</" ++ "td" ++ ">")
             ++ "</" ++ "tr" ++ ">") ++ NL)
    by (now rewrite !append_assoc).
  apply html_app; [|now apply html_text].
  apply html_plain; [cbn; auto 10|].
  apply html_plain; [cbn; auto 10|].
  apply html_span_class; [exact Hc | now apply html_text].
Qed.

Lemma html_LEGEND : html LEGEND.
Proof.
  unfold LEGEND.
  replace (("<table>" ++ NL) ++ ("<tr><th>Legend</th></tr>" ++ NL)
           ++ legend_row "string" "String"
           ++ legend_row "classes" "SPDX Class (link)"
           ++ legend_row "properties" "SPDX Property (link)"
           ++ legend_row "vocabularies" "SPDX Vocabulary (link)"
           ++ legend_row "ident" "Identifier IRI (link)"
           ++ ("</table>" ++ NL))
    with ((("<" ++ "table" ++ ">")
           ++ (NL ++ ((("<" ++ "tr" ++ ">")
                         ++ (("<" ++ "th" ++ ">") ++ "Legend" ++ "</" ++ "th" ++ ">")
                         ++ "</" ++ "tr" ++ ">") ++ NL)
               ++ legend_row "string" "String"
               ++ legend_row "classes" "SPDX Class (link)"
               ++ legend_row "properties" "SPDX Property (link)"
               ++ legend_row "vocabularies" "SPDX Vocabulary (link)"
               ++ legend_row "ident" "Identifier IRI (link)")
           ++ "</" ++ "table" ++ ">") ++ NL)
    by reflexivity.
  apply html_app; [|now apply html_text].
  apply html_plain; [cbn; auto 10|].
  apply html_app; [now apply html_text|].
  apply html_app.
  { apply html_app; [|now apply html_text].
    apply html_plain; [cbn; auto 10|].
    apply html_plain; [cbn; auto 10|]. now apply html_text. }
  repeat (apply html_app; [now apply html_legend_row|]).
  now apply html_legend_row.
Qed.

Section Page.

Variable urlopen : network.
Variable load_json : json -> result json.

Lemma init_frame (data : json) (st : state) :
  let st' := snd (__init__ load_json data st) in
  out st' = out st /\ requests st' = requests st.
Proof.
  unfold __init__, bind, lift.
  destruct (py_getitem data (JStr "@context")) as [url|e]; [|cbn; auto].
  destruct (load_json url); cbn; auto.
Qed.

Lemma init_run (data : json) (st : state) (context_doc : json) (st' : state) :
  __init__ load_json data st = (Ok context_doc, st') ->
  out st' = out st
  /\ exists url, py_getitem data (JStr "@context") = Ok url
                 /\ load_json url = Ok context_doc.
Proof.
  unfold __init__. intros H.
  apply bind_ok in H as ([] & s1 & H1 & H). injection H1 as <-.
  apply bind_ok in H as (url & s2 & Hurl & H).
  unfold lift in Hurl, H. injection H as Hload <-.
  assert (py_getitem data (JStr "@context") = Ok url) as Hget by now inversion Hurl.
  assert (s2 = set_checked_urls [] st) as -> by now inversion Hurl.
  split; [reflexivity | eauto].
Qed.

Lemma html_document (style rendering : string) :
  text_ok style = true -> html rendering -> html (document style rendering).
Proof.
  intros Hs Hr. unfold document, element, line.
  apply html_element; [cbn; auto 20 | exact I |].
  apply html_app; [now apply html_text|].
  apply html_app.
  - apply html_app; [|now apply html_text].
    apply html_element; [cbn; auto 20 | exact I |].
    apply html_app; [now apply html_text|].
    apply html_app; [|now apply html_text].
    apply html_element; [cbn; auto 20 | exact I |].
    apply html_text, (text_ok_app NL); [reflexivity|].
    apply text_ok_app; [exact Hs | reflexivity].
  - apply html_app; [|now apply html_text].
    apply html_element; [cbn; auto 20 | exact I |].
    apply html_app; [apply html_LEGEND|].
    apply html_element; [cbn; auto 20 | split; [cbn; auto | reflexivity] |].
    apply html_element; [cbn; auto 20 | exact I | exact Hr].
Qed.

(** X2: when [main] returns, it returns 0 and the output file holds a
    whole page: the line of the document type and one [html] element, with
    the style sheet in a [style] element in its head and, in its body, the
    legend and the rendering of the document in a [pre] and a [code]
    element.  The rendering is what [write_obj] writes for the document
    under the [@context] of the context document that was loaded from the
    [@context] of the document; it is well-formed markup, and so is the
    page.  A document that is not a JSON object, or that has no
    [@context], never gets this far. *)
Theorem main_writes_a_page (data : json) (code : Z) (st st' : state) :
  main urlopen load_json data st = (Ok code, st') ->
  code = 0%Z
  /\ exists d url context_doc context rendering s1 s2,
       data = JObj d
       /\ dict_get "@context" d = Some url
       /\ load_json url = Ok context_doc
       /\ py_getitem context_doc (JStr "@context") = Ok context
       /\ write_obj urlopen d 0 context s1 = (Ok tt, s2)
       /\ out s2 = out s1 ++ rendering
       /\ html rendering
       /\ out st' = out st ++ line "<!DOCTYPE html>" ++ line (document STYLE rendering)
       /\ html (document STYLE rendering).
Proof.
  unfold main. intros H.
  apply bind_ok in H as (context_doc & s0 & Hinit & H).
  apply init_run in Hinit as (Ho0 & url & Hurl & Hload).
  apply bind_ok in H as ([] & s1 & H1 & H). apply emit_ok in H1.
  apply bind_ok in H as ([] & s2 & H2 & H). apply emit_ok in H2.
  apply bind_ok in H as ([] & s3 & H3 & H). apply emit_ok in H3.
  apply bind_ok in H as ([] & s4 & Hw & H).
  apply bind_ok in H as ([] & s5 & H5 & H). apply emit_ok in H5.
  inversion H; subst. split; [reflexivity|].
  destruct data as [| | | | |d]; try discriminate Hw.
  apply write_text
    in Hw as (context & t0 & t1 & t2 & rendering & _ & Hctx & Hobj & Hbody & _ & Ho4).
  assert (html rendering) as Hr
      by exact (write_value_html urlopen (JObj d) 0 context None t1 t2 rendering
                  Hobj Hbody).
  exists d, url, context_doc, context, rendering, t1, t2.
  split; [reflexivity|].
  split; [cbn in Hurl; destruct (dict_get "@context" d); now inversion Hurl|].
  do 5 (split; [assumption|]).
  split; [|apply html_document; [vm_compute; reflexivity | exact Hr]].
  rewrite H5, Ho4, H3, H2, H1, Ho0.
  unfold PAGE_HEAD, PAGE_BODY, PAGE_END, document, element, open_tag, close_tag, line.
  generalize STYLE LEGEND. intros style legend. now rewrite !append_assoc.
Qed.

End Page.

(** X2 on a document with two nodes. *)
Lemma main_writes_a_page_witness :
  0%Z = 0%Z
  /\ exists d url context_doc context rendering s1 s2,
       JObj twin_document = JObj d
       /\ dict_get "@context" d = Some url
       /\ load_empty url = Ok context_doc
       /\ py_getitem context_doc (JStr "@context") = Ok context
       /\ write_obj net_reachable d 0 context s1 = (Ok tt, s2)
       /\ out s2 = out s1 ++ rendering
       /\ html rendering
       /\ out (snd (main net_reachable load_empty (JObj twin_document) init_state))
          = out init_state ++ line "<!DOCTYPE html>" ++ line (document STYLE rendering)
       /\ html (document STYLE rendering).
Proof.
  apply (main_writes_a_page net_reachable load_empty (JObj twin_document) 0 init_state
           (snd (main net_reachable load_empty (JObj twin_document) init_state))).
  vm_compute. reflexivity.
Defined.

(** ** Every identifier has a target *)

Lemma occurs_here (t b : string) : occurs t (t ++ b).
Proof. now exists EmptyString, b. Qed.

Lemma occurs_app_r (t a s : string) : occurs t s -> occurs t (a ++ s).
Proof.
  intros (x & y & ->). exists (a ++ x), y. now rewrite !append_assoc.
Qed.

Lemma occurs_app_l (t s b : string) : occurs t s -> occurs t (s ++ b).
Proof.
  intros (x & y & ->). exists x, (y ++ b). now rewrite !append_assoc.
Qed.

Lemma occurs_joined (t seg : string) (segs : list string) :
  In seg segs -> occurs t seg -> occurs t (joined segs).
Proof.
  intros Hin Hseg. induction segs as [|s rest IH]; [contradiction|].
  cbn [joined]. destruct Hin as [->|Hin].
  - now apply occurs_app_l.
  - apply occurs_app_r. destruct rest as [|s' rest']; [contradiction|].
    now apply occurs_app_r, occurs_app_r, IH.
Qed.

Lemma Forall2_In_l {A B} (R : A -> B -> Prop) (l : list A) (l' : list B) (x : A) :
  Forall2 R l l' -> In x l -> exists y, In y l' /\ R x y.
Proof.
  induction 1 as [|a b l l' Hab _ IH]; intros Hin; [contradiction|].
  destruct Hin as [->|Hin].
  - exists b. split; [now left | assumption].
  - destruct (IH Hin) as (y & Hy & Hxy). exists y. split; [now right | assumption].
Qed.

Lemma dict_get_In (k : string) (d : dict) (v : json) :
  dict_get k d = Some v -> In (k, v) d.
Proof.
  induction d as [|[k' v'] d IH]; cbn [dict_get]; [discriminate|].
  destruct (String.eqb_spec k k') as [->|_].
  - intros [= ->]. now left.
  - intros H. right. auto.
Qed.

Lemma id_span_open_str (x : string) :
  x <> EmptyString -> id_span_open (JStr x) = span_id_open (html_escape x).
Proof.
  intros Hx. unfold id_span_open. cbn [py_truthy].
  destruct (String.eqb_spec x EmptyString) as [->|_]; [contradiction | reflexivity].
Qed.

Section Targets.

Variable urlopen : network.

Lemma spans_inside (o : dict) (x : string) (v : json) :
  names o x -> x <> EmptyString -> inside o v ->
  forall indent context typ s1 s2 text,
    write_value urlopen v indent context typ s1 = (Ok tt, s2) ->
    out s2 = out s1 ++ text ->
    occurs (span_id_open (html_escape x)) text.
Proof.
  intros Hname Hx. revert v.
  induction v using json_induction;
    intros Hin indent context typ s1 s2 text Hrun Hout; try (inversion Hin; fail).
  - inversion Hin as [|l' v Hv Hinside|]; subst.
    apply (write_list_text urlopen) in Hrun as (segs & Ho & Hsegs).
    rewrite Ho in Hout. apply append_inv_head in Hout as <-.
    destruct (Forall2_In_l _ _ _ _ Hsegs Hv)
      as (seg & Hseg & value & t1 & t2 & -> & Hvrun & Hvout).
    do 2 apply occurs_app_r. apply occurs_app_l.
    apply (occurs_joined _ _ _ Hseg). apply occurs_app_r.
    rewrite Forall_forall in H. eapply H; eassumption.
  - apply (write_obj_text urlopen) in Hrun as (anchor & obj_id & segs & Hid & Ho & Hsegs).
    rewrite Ho in Hout. apply append_inv_head in Hout as <-.
    inversion Hin as [|?|d' k v Hkv Hinside]; subst.
    + destruct Hname as [Hname|Hname].
      * rewrite Hname in Hid. injection Hid as <-.
        apply occurs_app_r. rewrite id_span_open_str by assumption.
        apply occurs_here.
      * do 2 apply occurs_app_r. unfold dict_get_default. rewrite Hname.
        rewrite id_span_open_str by assumption. apply occurs_here.
    + destruct (Forall2_In_l _ _ _ _ Hsegs Hkv)
        as (seg & Hseg & a & u & sub & css & value & t1 & t2 & -> & _ & Hvrun & Hvout).
      do 5 apply occurs_app_r. apply occurs_app_l.
      apply (occurs_joined _ _ _ Hseg).
      do 6 apply occurs_app_r. apply occurs_app_l.
      rewrite Forall_forall in H. cbn [snd] in Hvrun.
      exact (H (k, v) Hkv Hinside _ _ _ _ _ _ Hvrun Hvout).
Qed.

End Targets.

Lemma py_iter_object (c : json) (l : list json) (e : dict) :
  py_iter c = Ok l -> In (JObj e) l -> c = JList l.
Proof.
  destruct c; cbn [py_iter]; try discriminate; intros [= <-] Hin;
    first [reflexivity | apply in_map_iff in Hin as (k & Hk & _); discriminate Hk].
Qed.

Lemma default_list_In (k : string) (d : dict) (l : list json) (v : json) :
  dict_get_default k d (JList []) = JList l -> In v l -> In (k, JList l) d.
Proof.
  unfold dict_get_default. destruct (dict_get k d) as [w|] eqn:Hk.
  - intros -> _. now apply dict_get_In.
  - intros [= <-] [].
Qed.

Lemma py_eq_str (x : string) (y : json) : py_eq (JStr x) y = true -> y = JStr x.
Proof.
  destruct y; cbn; try discriminate. intros H. apply String.eqb_eq in H. now subst.
Qed.

Lemma external_id_named (i : json) (x : string) :
  In (JStr x) (external_id i) -> exists e, i = JObj e /\ names e x.
Proof.
  unfold external_id, py_getitem.
  destruct i as [| | |s|l|e]; cbn [as_index]; try contradiction.
  destruct (dict_get "externalSpdxId" e) as [y|] eqn:Hy; [|contradiction].
  intros [->|[]]. exists e. split; [reflexivity | now right].
Qed.

Lemma contribution_named (node : json) (x : string) :
  In (JStr x) (node_contribution node) ->
  exists d, node = JObj d
            /\ (names d x
                \/ exists l e, In ("import", JList l) d /\ In (JObj e) l /\ names e x).
Proof.
  unfold node_contribution, node_identifier.
  destruct node as [| | | | |d]; try contradiction.
  destruct (get_obj_id (JObj d)) as [obj_id|err] eqn:Hid; [|contradiction].
  destruct (py_truthy obj_id); [|contradiction].
  intros Hin. exists d. split; [reflexivity|].
  cbn [app] in Hin. destruct Hin as [->|Hin]; [left; now left|].
  right. unfold node_imports in Hin.
  destruct (dict_get "type" d) as [t|]; [|contradiction].
  destruct (py_eq t (JStr "SpdxDocument")); [|contradiction].
  unfold import_ids in Hin.
  destruct (py_iter (dict_get_default "import" d (JList []))) as [l|err] eqn:Hiter;
    [|contradiction].
  apply in_flat_map in Hin as (i & Hi & Hx).
  apply external_id_named in Hx as (e & -> & Hname).
  pose proof (py_iter_object _ _ _ Hiter Hi) as Hlist.
  exists l, e. split; [|auto].
  exact (default_list_In _ _ _ _ Hlist Hi).
Qed.

Lemma index_data_named (data : dict) (st st' : state) (x : string) :
  index_data data st = (Ok tt, st') ->
  set_has (JStr x) (ids st') = true ->
  exists o, names o x /\ inside o (JObj data).
Proof.
  unfold index_data. intros Hrun Hx.
  unfold bind at 1 in Hrun. unfold bind at 1 in Hrun. unfold lift at 1 in Hrun.
  destruct (py_iter (dict_get_default "@graph" data (JList []))) as [graph|e] eqn:Hiter;
    [|discriminate Hrun].
  pose proof (graph_loop_adds graph (set_ids [] (set_anchors [] st))) as Hloop.
  rewrite Hrun in Hloop. destruct Hloop as [-> Hhash].
  cbn [ids set_ids] in Hx. rewrite set_has_insert_all in Hx by assumption.
  cbn [set_has existsb orb] in Hx.
  apply existsb_exists in Hx as (y & Hy & Heq).
  apply py_eq_str in Heq as ->.
  apply in_flat_map in Hy as (node & Hnode & Hc).
  apply contribution_named in Hc as (d & -> & Hd).
  pose proof (py_iter_object _ _ _ Hiter Hnode) as Hlist.
  pose proof (default_list_In _ _ _ _ Hlist Hnode) as Hgraph.
  assert (inside d (JObj data)) as Hinside.
  { eapply inside_obj; [exact Hgraph|].
    eapply inside_list; [exact Hnode | constructor]. }
  destruct Hd as [Hname | (l & e & Himp & He & Hname)].
  - exists d. auto.
  - exists e. split; [assumption|].
    eapply inside_obj; [exact Hgraph|].
    eapply inside_list; [exact Hnode|].
    eapply inside_obj; [exact Himp|].
    eapply inside_list; [exact He | constructor].
Qed.

Section TargetsOfPage.

Variable urlopen : network.

(** X3: every reference has a target.  When a render returns, every
    non-empty string of the index, the identifier of a node of the graph
    or the external identifier of an import of a document node, is the
    [id] of a span the render wrote: the same-page reference written for a
    string of the index points to a place on the page.  (The empty string
    can be in the index as an external identifier; no span is written for
    it.) *)
Theorem identifiers_have_targets (data : dict) (context_doc : json)
    (st st' : state) (x : string) :
  write urlopen data context_doc st = (Ok tt, st') ->
  set_has (JStr x) (ids st') = true ->
  x <> EmptyString ->
  exists before after,
    out st' = out st ++ before ++ span_id_open (html_escape x) ++ after.
Proof.
  intros Hrun Hx Hne.
  apply write_text in Hrun
    as (context & s0 & s1 & s2 & body & Hindex & _ & Hobj & Hbody & Hids & Ho).
  rewrite Hids in Hx.
  destruct (index_data_named data st s0 x Hindex Hx) as (o & Hname & Hinside).
  assert (occurs (span_id_open (html_escape x)) body) as (a & b & ->).
  { apply (spans_inside urlopen o x (JObj data) Hname Hne Hinside 0 context None s1 s2).
    - exact Hobj.
    - exact Hbody. }
  rewrite Ho.
  exists (LEGEND ++ ("<pre class=" ++ dq ++ "code" ++ dq ++ "><code>") ++ a),
    (b ++ "</code></pre>").
  generalize LEGEND. intros legend. now rewrite !append_assoc.
Qed.

End TargetsOfPage.

(** X3 on the external identifier of an import. *)
Lemma identifiers_have_targets_witness :
  set_has (JStr "urn:ext")
    (ids (snd (write net_reachable [("@graph", JList document_graph)] empty_context_doc
                 init_state))) = true
  /\ exists before after,
       out (snd (write net_reachable [("@graph", JList document_graph)]
                   empty_context_doc init_state))
       = out init_state ++ before ++ span_id_open (html_escape "urn:ext") ++ after.
Proof.
  split; [vm_compute; reflexivity|].
  apply (identifiers_have_targets net_reachable [("@graph", JList document_graph)]
           empty_context_doc init_state
           (snd (write net_reachable [("@graph", JList document_graph)]
                   empty_context_doc init_state)) "urn:ext").
  - vm_compute. reflexivity.
  - vm_compute. reflexivity.
  - discriminate.
Defined.

(** ** Two renders of one document *)

(** A relation between computations that holds of the steps of a render
    under two networks, and of a step followed by related steps, holds of
    the render under the two networks. *)

Section Related.

Variable R : forall A : Type, M A -> M A -> Prop.
Arguments R {A}.
Variables urlopen1 urlopen2 : network.

Hypothesis R_ret : forall A (x : A), R (ret x) (ret x).
Hypothesis R_lift : forall A (r : result A), R (lift r) (lift r).
Hypothesis R_emit : forall x, R (emit x) (emit x).
Hypothesis R_bind : forall A B (m1 m2 : M A) (f1 f2 : A -> M B),
    R m1 m2 -> (forall x, R (f1 x) (f2 x)) -> R (bind m1 f1) (bind m2 f2).
Hypothesis R_get_anchor : forall name prefix context,
    R (get_anchor name prefix context) (get_anchor name prefix context).
Hypothesis R_check_url : forall url,
    R (check_url urlopen1 url) (check_url urlopen2 url).
Hypothesis R_in_ids : forall v,
    R (fun st => (Ok (existsb (py_eq v) (ids st)), st))
      (fun st => (Ok (existsb (py_eq v) (ids st)), st)).

Lemma related_emit_if (c : bool) (x : string) : R (emit_if c x) (emit_if c x).
Proof. destruct c; [apply R_emit | apply R_ret]. Qed.

Lemma related_get_doc_url typ name context :
  R (get_doc_url urlopen1 typ name context) (get_doc_url urlopen2 typ name context).
Proof.
  unfold get_doc_url. apply R_bind; [apply R_lift|].
  intros [sub [[rdf_uri t]|]]; [|apply R_ret].
  apply R_bind; [apply R_lift|].
  intros [url|]; [|apply R_ret].
  apply R_bind; [apply R_check_url | intros; apply R_ret].
Qed.

Lemma related_write_str v context typ :
  R (write_str urlopen1 v context typ) (write_str urlopen2 v context typ).
Proof.
  unfold write_str. apply R_bind; [apply related_get_doc_url|].
  intros [[u sub] css]. apply R_bind; [apply R_in_ids|].
  intros [|].
  - repeat (apply R_bind; [apply R_emit | intros _]). apply R_emit.
  - destruct u as [url|].
    + repeat (apply R_bind; [apply R_emit | intros _]). apply R_emit.
    + destruct (_ || _).
      * repeat (apply R_bind; [apply R_emit | intros _]). apply R_emit.
      * apply R_emit.
Qed.

Lemma related_span_open (anchor : json) :
  R (if py_truthy anchor
     then id <- lift (py_html_escape anchor) ;; emit (span_id_open id)
     else ret tt)
    (if py_truthy anchor
     then id <- lift (py_html_escape anchor) ;; emit (span_id_open id)
     else ret tt).
Proof.
  destruct (py_truthy anchor); [|apply R_ret].
  apply R_bind; [apply R_lift | intros; apply R_emit].
Qed.

Section Methods.

Variables write_value1 write_value2 : json -> nat -> json -> option kind -> M unit.

Lemma related_write_key_value_body k v indent context :
  (forall i c t, R (write_value1 v i c t) (write_value2 v i c t)) ->
  R (write_key_value_body urlopen1 write_value1 k v indent context)
    (write_key_value_body urlopen2 write_value2 k v indent context).
Proof.
  intros Hv. unfold write_key_value_body.
  apply R_bind; [apply R_get_anchor | intros anchor].
  apply R_bind; [apply related_span_open | intros _].
  apply R_bind; [apply R_emit | intros _].
  apply R_bind; [apply related_get_doc_url | intros [[u sub] css]].
  apply R_bind; [destruct u; [apply R_emit | apply R_ret] | intros _].
  apply R_bind; [apply R_emit | intros _].
  apply R_bind; [destruct u; [apply R_emit | apply R_ret] | intros _].
  apply R_bind; [apply R_emit | intros _].
  apply R_bind; [apply Hv | intros _].
  apply related_emit_if.
Qed.

Lemma related_write_items lst indent context :
  Forall (fun v => forall i c t, R (write_value1 v i c t) (write_value2 v i c t)) lst ->
  R (write_items write_value1 lst indent context)
    (write_items write_value2 lst indent context).
Proof.
  induction 1 as [|v rest Hv Hrest IH]; cbn [write_items]; [apply R_ret|].
  apply R_bind; [apply R_emit | intros _].
  apply R_bind; [apply Hv | intros _].
  destruct rest; [apply R_emit|].
  apply R_bind; [apply R_emit | intros _].
  apply R_bind; [apply R_emit | intros _]. exact IH.
Qed.

Lemma related_write_list_body lst indent context :
  Forall (fun v => forall i c t, R (write_value1 v i c t) (write_value2 v i c t)) lst ->
  R (write_list_body write_value1 lst indent context)
    (write_list_body write_value2 lst indent context).
Proof.
  intros Hl. unfold write_list_body.
  apply R_bind; [apply R_emit | intros _].
  apply R_bind; [apply R_emit | intros _].
  apply R_bind; [now apply related_write_items | intros _].
  apply R_emit.
Qed.

Lemma related_write_pairs items indent context :
  Forall (fun kv => forall i c t,
              R (write_value1 (snd kv) i c t) (write_value2 (snd kv) i c t)) items ->
  R (write_pairs urlopen1 write_value1 items indent context)
    (write_pairs urlopen2 write_value2 items indent context).
Proof.
  induction 1 as [|[k v] rest Hv Hrest IH]; cbn [write_pairs]; [apply R_ret|].
  apply R_bind; [now apply related_write_key_value_body | intros _].
  destruct rest; [apply R_emit|].
  apply R_bind; [apply R_emit | intros _].
  apply R_bind; [apply R_emit | intros _]. exact IH.
Qed.

Lemma related_write_obj_body obj indent context :
  Forall (fun kv => forall i c t,
              R (write_value1 (snd kv) i c t) (write_value2 (snd kv) i c t)) obj ->
  R (write_obj_body urlopen1 write_value1 obj indent context)
    (write_obj_body urlopen2 write_value2 obj indent context).
Proof.
  intros Hobj. unfold write_obj_body.
  apply R_bind;
    [destruct (dict_get "type" obj); [apply R_get_anchor | apply R_ret]
    | intros anchor].
  apply R_bind; [apply related_span_open | intros _].
  apply R_bind; [apply R_lift | intros obj_id].
  apply R_bind; [apply related_span_open | intros _].
  cbv zeta.
  apply R_bind; [apply related_span_open | intros _].
  apply R_bind; [apply R_emit | intros _].
  apply R_bind; [apply R_emit | intros _].
  apply R_bind; [now apply related_write_pairs | intros _].
  apply R_bind; [apply R_emit | intros _].
  apply R_bind; [apply related_emit_if | intros _].
  apply R_bind; [apply related_emit_if | intros _].
  apply related_emit_if.
Qed.

End Methods.

Lemma related_write_value v : forall indent context typ,
  R (write_value urlopen1 v indent context typ)
    (write_value urlopen2 v indent context typ).
Proof.
  induction v using json_induction; intros indent context typ; cbn [write_value].
  - apply R_emit.
  - apply R_emit.
  - apply R_emit.
  - apply related_write_str.
  - now apply related_write_list_body.
  - now apply related_write_obj_body.
Qed.

(** What [write] does once the index is built. *)
Lemma related_write_page data context_doc :
  R (emit ("<table>" ++ NL) ;;
     emit ("<tr><th>Legend</th></tr>" ++ NL) ;;
     emit (legend_row "string" "String") ;;
     emit (legend_row "classes" "SPDX Class (link)") ;;
     emit (legend_row "properties" "SPDX Property (link)") ;;
     emit (legend_row "vocabularies" "SPDX Vocabulary (link)") ;;
     emit (legend_row "ident" "Identifier IRI (link)") ;;
     emit ("</table>" ++ NL) ;;
     emit ("<pre class=" ++ dq ++ "code" ++ dq ++ "><code>") ;;
     context <- lift (py_getitem context_doc (JStr "@context")) ;;
     write_obj urlopen1 data 0 context ;;
     emit "</code></pre>")
    (emit ("<table>" ++ NL) ;;
     emit ("<tr><th>Legend</th></tr>" ++ NL) ;;
     emit (legend_row "string" "String") ;;
     emit (legend_row "classes" "SPDX Class (link)") ;;
     emit (legend_row "properties" "SPDX Property (link)") ;;
     emit (legend_row "vocabularies" "SPDX Vocabulary (link)") ;;
     emit (legend_row "ident" "Identifier IRI (link)") ;;
     emit ("</table>" ++ NL) ;;
     emit ("<pre class=" ++ dq ++ "code" ++ dq ++ "><code>") ;;
     context <- lift (py_getitem context_doc (JStr "@context")) ;;
     write_obj urlopen2 data 0 context ;;
     emit "</code></pre>").
Proof.
  do 9 (apply R_bind; [apply R_emit | intros _]).
  apply R_bind; [apply R_lift | intros context].
  apply R_bind; [|intros _; apply R_emit].
  unfold write_obj. apply related_write_obj_body, Forall_forall.
  intros kv _ i c ty. apply related_write_value.
Qed.

End Related.

(** *** The network decides only whether a render returns *)

Lemma same_text_quiet {A} (m1 m2 : M A) :
  (forall s t x y s' t', agree s t -> m1 s = (Ok x, s') -> m2 t = (Ok y, t') ->
                         x = y /\ agree s' t' /\ out s' = out s /\ out t' = out t) ->
  same_text m1 m2.
Proof.
  intros H s t x y s' t' Hst H1 H2.
  destruct (H s t x y s' t' Hst H1 H2) as (Hxy & Hag & Ho1 & Ho2).
  split; [assumption|]. split; [assumption|].
  exists EmptyString. now rewrite Ho1, Ho2, !append_nil_r.
Qed.

Lemma same_text_ret {A} (x : A) : same_text (ret x) (ret x).
Proof.
  apply same_text_quiet. intros s t a b s' t' Hst [= <- <-] [= <- <-]. auto.
Qed.

Lemma same_text_lift {A} (r : result A) : same_text (lift r) (lift r).
Proof.
  apply same_text_quiet. unfold lift.
  intros s t a b s' t' Hst H1 H2.
  injection H1 as Hr1 <-. injection H2 as Hr2 <-.
  rewrite Hr1 in Hr2. injection Hr2 as <-. auto.
Qed.

Lemma same_text_emit (x : string) : same_text (emit x) (emit x).
Proof.
  intros s t [] [] s' t' Hst H1 H2. apply emit_run in H1, H2. subst.
  split; [reflexivity|]. split; [exact Hst|]. now exists x.
Qed.

Lemma same_text_bind {A B} (m1 m2 : M A) (f1 f2 : A -> M B) :
  same_text m1 m2 -> (forall x, same_text (f1 x) (f2 x)) ->
  same_text (bind m1 f1) (bind m2 f2).
Proof.
  intros Hm Hf s t x y s' t' Hst H1 H2.
  apply bind_ok in H1 as (a & s1 & Ha & H1).
  apply bind_ok in H2 as (b & t1 & Hb & H2).
  destruct (Hm _ _ _ _ _ _ Hst Ha Hb) as (<- & Hst1 & d1 & Ho1 & Ho2).
  destruct (Hf a _ _ _ _ _ _ Hst1 H1 H2) as (Hxy & Hst' & d2 & Ho3 & Ho4).
  split; [assumption|]. split; [assumption|].
  exists (d1 ++ d2). now rewrite Ho3, Ho4, Ho1, Ho2, !append_assoc.
Qed.

Lemma same_text_get_anchor name prefix context :
  same_text (get_anchor name prefix context) (get_anchor name prefix context).
Proof.
  apply same_text_quiet. intros s t x y s' t' [Ha Hi] H1 H2.
  unfold get_anchor, bind, lift in H1, H2.
  destruct (anchor_candidate name prefix context) as [anchor|e]; [|discriminate H1].
  rewrite <- Ha in H2.
  destruct (set_mem anchor (anchors s)) as [[|]|e]; try discriminate H1;
    inversion H1; inversion H2; subst; repeat split; cbn; congruence.
Qed.

Lemma same_text_in_ids (v : json) :
  same_text (fun st => (Ok (existsb (py_eq v) (ids st)), st))
            (fun st => (Ok (existsb (py_eq v) (ids st)), st)).
Proof.
  apply same_text_quiet. intros s t x y s' t' [Ha Hi] H1 H2.
  cbv beta in H1, H2. injection H1 as <- <-. injection H2 as <- <-.
  rewrite Hi. repeat split; assumption.
Qed.

Section TwoNetworks.

Variables urlopen1 urlopen2 : network.

Lemma same_text_check_url url :
  same_text (check_url urlopen1 url) (check_url urlopen2 url).
Proof.
  apply same_text_quiet. intros s t [] [] s' t' [Ha Hi] H1 H2.
  pose proof (check_url_frame urlopen1 url s) as (Ha1 & Hi1 & Ho1).
  pose proof (check_url_frame urlopen2 url t) as (Ha2 & Hi2 & Ho2).
  rewrite H1 in Ha1, Hi1, Ho1. rewrite H2 in Ha2, Hi2, Ho2. cbn [snd] in *.
  repeat split; congruence.
Qed.

Lemma same_text_index_node node : same_text (index_node node) (index_node node).
Proof.
  apply same_text_quiet. intros s t [] [] s' t' [Ha Hi] H1 H2.
  pose proof (index_node_same_io node s) as (Ho1 & _).
  pose proof (index_node_same_io node t) as (Ho2 & _).
  rewrite H1 in Ho1. rewrite H2 in Ho2. cbn [snd] in Ho1, Ho2.
  split; [reflexivity|]. split; [|auto].
  pose proof (index_node_adds node s) as As. rewrite H1 in As.
  pose proof (index_node_adds node t) as At. rewrite H2 in At.
  destruct As as [-> _], At as [-> _]. split; cbn; congruence.
Qed.

Lemma same_text_for_each {A} (body : A -> M unit) (l : list A) :
  (forall x, same_text (body x) (body x)) ->
  same_text (for_each l body) (for_each l body).
Proof.
  intros Hbody. induction l as [|x l IH]; cbn [for_each]; [apply same_text_ret|].
  apply same_text_bind; [apply Hbody | intros _; exact IH].
Qed.

(** [index_data] starts from empty sets: the states two renders of one
    document are in after it agree, whatever they were before. *)
Lemma index_data_agree data s t s' t' :
  index_data data s = (Ok tt, s') -> index_data data t = (Ok tt, t') ->
  agree s' t' /\ out s' = out s /\ out t' = out t.
Proof.
  intros H1 H2.
  pose proof (index_data_same_io data s) as (Ho1 & _).
  pose proof (index_data_same_io data t) as (Ho2 & _).
  rewrite H1 in Ho1. rewrite H2 in Ho2. cbn [snd] in Ho1, Ho2.
  split; [|auto].
  unfold index_data in H1, H2.
  apply bind_ok in H1 as ([] & s0 & Hs0 & H1). injection Hs0 as <-.
  apply bind_ok in H2 as ([] & t0 & Ht0 & H2). injection Ht0 as <-.
  assert (same_text (graph <- lift (py_iter (dict_get_default "@graph" data (JList []))) ;;
                     for_each graph index_node)
                    (graph <- lift (py_iter (dict_get_default "@graph" data (JList []))) ;;
                     for_each graph index_node)) as Hsame.
  { apply same_text_bind; [apply same_text_lift | intros graph].
    apply same_text_for_each, same_text_index_node. }
  destruct (Hsame (set_ids [] (set_anchors [] s)) (set_ids [] (set_anchors [] t))
              tt tt s' t' (conj eq_refl eq_refl) H1 H2) as (_ & Hag & _).
  exact Hag.
Qed.

(** X4: the text a render writes is decided by the document and the
    context.  Two renders of one document under one context that both
    return have written the same text, whatever the networks answered and
    whatever the caches held when they began: the network and the cache
    decide whether a render returns, never what it writes. *)
Theorem page_ignores_network (data : dict) (context_doc : json)
    (s t s' t' : state) :
  write urlopen1 data context_doc s = (Ok tt, s') ->
  write urlopen2 data context_doc t = (Ok tt, t') ->
  exists text, out s' = out s ++ text /\ out t' = out t ++ text.
Proof.
  unfold write. intros H1 H2.
  apply bind_ok in H1 as ([] & s0 & Hi1 & H1).
  apply bind_ok in H2 as ([] & t0 & Hi2 & H2).
  destruct (index_data_agree data s t s0 t0 Hi1 Hi2) as (Hag & Ho1 & Ho2).
  rewrite <- Ho1, <- Ho2.
  exact (proj2 (proj2 (related_write_page (@same_text) urlopen1 urlopen2
                         (@same_text_ret) (@same_text_lift) same_text_emit
                         (@same_text_bind) same_text_get_anchor same_text_check_url
                         same_text_in_ids data context_doc
                         s0 t0 tt tt s' t' Hag H1 H2))).
Qed.

End TwoNetworks.

(** X4: a render that finds its URL answered and a render that finds it in
    the cache, under a network that answers nothing, write the same
    text. *)
Lemma page_ignores_network_witness :
  exists text,
    out (snd (write net_reachable [("name", JStr "x")]
                (JObj [("@context", JObj plain_context)]) init_state))
    = out init_state ++ text
    /\ out (snd (write net_not_found [("name", JStr "x")]
                   (JObj [("@context", JObj plain_context)]) cached_state))
       = out cached_state ++ text.
Proof.
  apply (page_ignores_network net_reachable net_not_found [("name", JStr "x")]
           (JObj [("@context", JObj plain_context)]) init_state cached_state
           (snd (write net_reachable [("name", JStr "x")]
                   (JObj [("@context", JObj plain_context)]) init_state))
           (snd (write net_not_found [("name", JStr "x")]
                   (JObj [("@context", JObj plain_context)]) cached_state))).
  - vm_compute. reflexivity.
  - vm_compute. reflexivity.
Defined.

(** *** A second render needs no network *)

Lemma replays_ret {A} (x : A) : replays (ret x) (ret x).
Proof.
  intros s a s' [= <- <-]. split; [apply incl_refl|].
  intros t Hst _. exists t. repeat (split; [auto|]).
  exists EmptyString. now rewrite !append_nil_r.
Qed.

Lemma replays_lift {A} (r : result A) : replays (lift r) (lift r).
Proof.
  unfold lift. intros s a s' [= -> <-]. split; [apply incl_refl|].
  intros t Hst _. exists t. repeat (split; [auto|]).
  exists EmptyString. now rewrite !append_nil_r.
Qed.

Lemma replays_emit (x : string) : replays (emit x) (emit x).
Proof.
  intros s [] s' H. apply emit_run in H as ->. split; [apply incl_refl|].
  intros t Hst _. exists (set_out (out t ++ x) t). repeat (split; [auto|]).
  now exists x.
Qed.

Lemma replays_bind {A B} (m1 m2 : M A) (f1 f2 : A -> M B) :
  replays m1 m2 -> (forall x, replays (f1 x) (f2 x)) ->
  replays (bind m1 f1) (bind m2 f2).
Proof.
  intros Hm Hf s b s' H.
  apply bind_ok in H as (a & s1 & Ha & H).
  destruct (Hm _ _ _ Ha) as [Hinc1 Hm'].
  destruct (Hf a _ _ _ H) as [Hinc2 Hf'].
  split; [eapply incl_tran; eassumption|].
  intros t Hst Hcache.
  destruct (Hm' t Hst (incl_tran Hinc2 Hcache))
    as (t1 & Hrun1 & Hag1 & Hc1 & Hr1 & d1 & Ho1 & Ho1').
  destruct (Hf' t1 Hag1) as (t' & Hrun2 & Hag2 & Hc2 & Hr2 & d2 & Ho2 & Ho2').
  { now rewrite Hc1. }
  exists t'. unfold bind. rewrite Hrun1. split; [exact Hrun2|].
  split; [exact Hag2|]. split; [congruence|]. split; [congruence|].
  exists (d1 ++ d2). now rewrite Ho2, Ho2', Ho1, Ho1', !append_assoc.
Qed.

Lemma replays_get_anchor name prefix context :
  replays (get_anchor name prefix context) (get_anchor name prefix context).
Proof.
  intros s a s' Hrun. unfold get_anchor, bind, lift in *.
  destruct (anchor_candidate name prefix context) as [anchor|e]; [|discriminate Hrun].
  destruct (set_mem anchor (anchors s)) as [[|]|e] eqn:Hmem; try discriminate Hrun;
    injection Hrun as <- <-; (split; [apply incl_refl|]);
    intros t [Ha Hi] _; rewrite <- Ha, Hmem.
  - exists t. split; [reflexivity|]. split; [now split|].
    do 2 (split; [reflexivity|]). exists EmptyString. now rewrite !append_nil_r.
  - exists (set_anchors (anchors s ++ [anchor])%list t). split; [reflexivity|].
    split; [now split|]. do 2 (split; [reflexivity|]).
    exists EmptyString. now rewrite !append_nil_r.
Qed.

Lemma replays_in_ids (v : json) :
  replays (fun st => (Ok (existsb (py_eq v) (ids st)), st))
          (fun st => (Ok (existsb (py_eq v) (ids st)), st)).
Proof.
  intros s x s' H. cbv beta in H. injection H as <- <-.
  split; [apply incl_refl|].
  intros t [Ha Hi] _. exists t. rewrite Hi. split; [reflexivity|].
  split; [now split|]. do 2 (split; [reflexivity|]).
  exists EmptyString. now rewrite !append_nil_r.
Qed.

Lemma steady_ret {A} (x : A) : steady (ret x).
Proof. intros s t. reflexivity. Qed.

Lemma steady_lift {A} (r : result A) : steady (lift r).
Proof. intros s t. reflexivity. Qed.

Lemma steady_bind {A B} (m : M A) (f : A -> M B) :
  steady m -> (forall a, steady (f a)) -> steady (bind m f).
Proof.
  intros Hm Hf s t. unfold bind. specialize (Hm s t).
  destruct (m s) as [[a|e] s1], (m t) as [[b|e'] t1]; cbn [fst] in *;
    try discriminate Hm; [|now injection Hm as <-].
  injection Hm as <-. apply Hf.
Qed.

Lemma steady_for_each {A} (l : list A) (body : A -> M unit) :
  (forall x, steady (body x)) -> steady (for_each l body).
Proof.
  intros Hbody. induction l as [|x l IH]; cbn [for_each]; [apply steady_ret|].
  apply steady_bind; [apply Hbody | intros _; exact IH].
Qed.

Lemma steady_add_id (x : json) : steady (add_id x).
Proof.
  intros s t. unfold add_id. rewrite !set_add_insert. now destruct (hashable x).
Qed.

(** Whether [index_data] returns is decided by the document. *)
Lemma steady_index_data (data : dict) : steady (index_data data).
Proof.
  unfold index_data.
  apply steady_bind; [intros s t; reflexivity | intros _].
  apply steady_bind; [apply steady_lift | intros graph].
  apply steady_for_each. intros node. unfold index_node.
  apply steady_bind; [apply steady_lift | intros obj_id].
  destruct (negb _); [apply steady_ret|].
  apply steady_bind; [apply steady_add_id | intros _].
  apply steady_bind; [apply steady_lift | intros typ].
  destruct (py_eq _ _); [|apply steady_ret].
  apply steady_bind; [apply steady_lift | intros imports].
  apply steady_for_each. intros i.
  apply steady_bind; [apply steady_lift | intros x; apply steady_add_id].
Qed.

Section SecondRender.

Variables urlopen1 urlopen2 : network.

Lemma replays_check_url url :
  replays (check_url urlopen1 url) (check_url urlopen2 url).
Proof.
  intros s [] s' Hrun.
  destruct (check_url_frame urlopen1 url s) as (Ha & Hi & Ho).
  rewrite Hrun in Ha, Hi, Ho. cbn [snd] in Ha, Hi, Ho.
  assert (checked_urls s' = str_add url (checked_urls s)) as Hc.
  { unfold check_url in Hrun.
    destruct (str_mem url (checked_urls s)); [now injection Hrun as <-|].
    destruct (urlopen1 (requests s) url) as [|e]; [now injection Hrun as <-|].
    destruct e; try discriminate Hrun. destruct (code =? 404)%Z; discriminate Hrun. }
  split.
  - rewrite Hc. intros u Hu. apply str_add_In. now left.
  - intros t [Hat Hit] Hcache.
    assert (str_mem url (checked_urls t) = true) as Hmem.
    { apply str_mem_In, Hcache. rewrite Hc. apply str_add_In. now right. }
    exists t. unfold check_url. rewrite Hmem, str_add_member by assumption.
    rewrite set_checked_urls_same. split; [reflexivity|].
    split; [split; congruence|]. do 2 (split; [reflexivity|]).
    exists EmptyString. rewrite !append_nil_r. auto.
Qed.

(** X16: a render that returned can be repeated without the network.  From
    every state whose cache holds the URLs the cache held when the render
    returned, a render of the same document under the same context returns
    under every network: it makes no request, adds nothing to the cache and
    writes the text the first render wrote. *)
Theorem second_render_is_offline (data : dict) (context_doc : json)
    (s s' t : state) :
  write urlopen1 data context_doc s = (Ok tt, s') ->
  incl (checked_urls s') (checked_urls t) ->
  exists text t',
    out s' = out s ++ text
    /\ write urlopen2 data context_doc t = (Ok tt, t')
    /\ out t' = out t ++ text
    /\ requests t' = requests t
    /\ checked_urls t' = checked_urls t.
Proof.
  unfold write. intros Hrun Hcache.
  apply bind_ok in Hrun as ([] & s0 & Hi1 & Hrun).
  pose proof (steady_index_data data s t) as Hsteady. rewrite Hi1 in Hsteady.
  destruct (index_data data t) as [r t0] eqn:Hi2. cbn [fst] in Hsteady. subst r.
  destruct (index_data_agree data s t s0 t0 Hi1 Hi2) as (Hag & Ho1 & Ho2).
  pose proof (index_data_same_io data t) as (_ & Hc0 & Hr0).
  rewrite Hi2 in Hc0, Hr0. cbn [snd] in Hc0, Hr0.
  destruct (related_write_page (@replays) urlopen1 urlopen2
              (@replays_ret) (@replays_lift) replays_emit (@replays_bind)
              replays_get_anchor replays_check_url
              replays_in_ids data context_doc s0 tt s' Hrun) as [_ Hreplay].
  destruct (Hreplay t0 Hag) as (t' & Hrun2 & _ & Hc & Hr & d & Hd1 & Hd2).
  { now rewrite Hc0. }
  exists d, t'. split; [congruence|]. split.
  - unfold bind at 1. rewrite Hi2. exact Hrun2.
  - repeat split; congruence.
Qed.

End SecondRender.

(** X16: after a render that found its URL answered, a render from a state
    whose cache holds the URL returns under a network that answers
    nothing. *)
Lemma second_render_is_offline_witness :
  exists text t',
    out (snd (write net_reachable [("name", JStr "x")]
                (JObj [("@context", JObj plain_context)]) init_state))
    = out init_state ++ text
    /\ write net_not_found [("name", JStr "x")]
         (JObj [("@context", JObj plain_context)]) cached_state = (Ok tt, t')
    /\ out t' = out cached_state ++ text
    /\ requests t' = requests cached_state
    /\ checked_urls t' = checked_urls cached_state.
Proof.
  apply (second_render_is_offline net_reachable net_not_found [("name", JStr "x")]
           (JObj [("@context", JObj plain_context)]) init_state
           (snd (write net_reachable [("name", JStr "x")]
                   (JObj [("@context", JObj plain_context)]) init_state))
           cached_state).
  - vm_compute. reflexivity.
  - vm_compute. intros u Hu. exact Hu.
Defined.

(** *** A render that raises stops short of the page *)

Lemma cut_short_same {A} (m : M A) :
  (forall s t x s', agree s t -> m s = (Ok x, s') ->
                    exists t', m t = (Ok x, t') /\ agree s' t'
                               /\ exists d, out s' = out s ++ d /\ out t' = out t ++ d) ->
  cut_short m m.
Proof.
  intros H s t x s' Hst Hrun.
  destruct (H s t x s' Hst Hrun) as (t' & -> & Hag & Hd). auto.
Qed.

Lemma cut_short_ret {A} (x : A) : cut_short (ret x) (ret x).
Proof.
  apply cut_short_same. intros s t a s' Hst [= <- <-].
  exists t. repeat (split; [auto|]). exists EmptyString. now rewrite !append_nil_r.
Qed.

Lemma cut_short_lift {A} (r : result A) : cut_short (lift r) (lift r).
Proof.
  apply cut_short_same. unfold lift. intros s t a s' Hst [= -> <-].
  exists t. repeat (split; [auto|]). exists EmptyString. now rewrite !append_nil_r.
Qed.

Lemma cut_short_emit (x : string) : cut_short (emit x) (emit x).
Proof.
  apply cut_short_same. intros s t [] s' Hst H. apply emit_run in H as ->.
  exists (set_out (out t ++ x) t). repeat (split; [auto|]). now exists x.
Qed.

Lemma cut_short_in_ids (v : json) :
  cut_short (fun st => (Ok (existsb (py_eq v) (ids st)), st))
            (fun st => (Ok (existsb (py_eq v) (ids st)), st)).
Proof.
  apply cut_short_same. intros s t x s' [Ha Hi] H.
  cbv beta in H. injection H as <- <-.
  exists t. rewrite Hi. split; [reflexivity|]. split; [now split|].
  exists EmptyString. now rewrite !append_nil_r.
Qed.

Lemma cut_short_get_anchor name prefix context :
  cut_short (get_anchor name prefix context) (get_anchor name prefix context).
Proof.
  apply cut_short_same. intros s t a s' [Ha Hi] Hrun.
  unfold get_anchor, bind, lift in *.
  destruct (anchor_candidate name prefix context) as [anchor|e]; [|discriminate Hrun].
  rewrite <- Ha.
  destruct (set_mem anchor (anchors s)) as [[|]|e] eqn:Hmem; try discriminate Hrun;
    injection Hrun as <- <-.
  - exists t. split; [reflexivity|]. split; [now split|].
    exists EmptyString. now rewrite !append_nil_r.
  - exists (set_anchors (anchors s ++ [anchor])%list t). split; [reflexivity|].
    split; [now split|]. exists EmptyString. now rewrite !append_nil_r.
Qed.

Lemma cut_short_appends {A} (m1 m2 : M A) (s : state) (x : A) (s' : state) :
  cut_short m1 m2 -> m1 s = (Ok x, s') -> exists d, out s' = out s ++ d.
Proof.
  intros H Hrun. specialize (H s s x s' (conj eq_refl eq_refl) Hrun).
  destruct (m2 s) as [[y|e] t'].
  - destruct H as (_ & _ & d & Hd & _). eauto.
  - destruct H as (d & rest & Hd & _). eauto.
Qed.

Lemma cut_short_bind {A B} (m1 m2 : M A) (f1 f2 : A -> M B) :
  cut_short m1 m2 -> (forall x, cut_short (f1 x) (f2 x)) ->
  cut_short (bind m1 f1) (bind m2 f2).
Proof.
  intros Hm Hf s t b s' Hst Hrun.
  apply bind_ok in Hrun as (a & s1 & Ha & Hrun).
  pose proof (Hm s t a s1 Hst Ha) as H1. unfold bind at 1.
  destruct (m2 t) as [[a'|e] t1].
  - destruct H1 as (-> & Hst1 & d1 & Ho1 & Ho1').
    pose proof (Hf a s1 t1 b s' Hst1 Hrun) as H2.
    destruct (f2 a t1) as [[b'|e] t'].
    + destruct H2 as (-> & Hst' & d2 & Ho2 & Ho2').
      split; [reflexivity|]. split; [assumption|].
      exists (d1 ++ d2). now rewrite Ho2, Ho2', Ho1, Ho1', !append_assoc.
    + destruct H2 as (d2 & rest & Ho2 & Ho2').
      exists (d1 ++ d2), rest. now rewrite Ho2, Ho2', Ho1, Ho1', !append_assoc.
  - destruct H1 as (d1 & rest & Ho1 & Ho1').
    destruct (cut_short_appends _ _ _ _ _ (Hf a) Hrun) as [d2 Ho2].
    exists d1, (rest ++ d2). now rewrite Ho2, Ho1, Ho1', !append_assoc.
Qed.

Section CutShort.

Variables urlopen1 urlopen2 : network.

Lemma cut_short_check_url url :
  cut_short (check_url urlopen1 url) (check_url urlopen2 url).
Proof.
  intros s t [] s' [Ha Hi] Hrun.
  pose proof (check_url_frame urlopen1 url s) as (Ha1 & Hi1 & Ho1).
  pose proof (check_url_frame urlopen2 url t) as (Ha2 & Hi2 & Ho2).
  rewrite Hrun in Ha1, Hi1, Ho1. cbn [snd] in Ha1, Hi1, Ho1.
  destruct (check_url urlopen2 url t) as [[[]|e] t']; cbn [snd] in Ha2, Hi2, Ho2.
  - split; [reflexivity|]. split; [split; congruence|].
    exists EmptyString. rewrite !append_nil_r. auto.
  - exists EmptyString, EmptyString. cbn [append]. rewrite !append_nil_r. auto.
Qed.

(** X17: an aborted render has written a beginning of the page.  When a
    render of a document returns, every render of the same document under
    the same context, under any network and from any cache, has written a
    beginning of the text the first render wrote, whether it returns or is
    aborted by the failure of a check. *)
Theorem aborted_render_is_cut_short (data : dict) (context_doc : json)
    (s s' t : state) :
  write urlopen1 data context_doc s = (Ok tt, s') ->
  exists written rest,
    out s' = out s ++ written ++ rest
    /\ out (snd (write urlopen2 data context_doc t)) = out t ++ written.
Proof.
  unfold write. intros Hrun.
  apply bind_ok in Hrun as ([] & s0 & Hi1 & Hrun).
  pose proof (steady_index_data data s t) as Hsteady. rewrite Hi1 in Hsteady.
  unfold bind at 1.
  destruct (index_data data t) as [r t0] eqn:Hi2. cbn [fst] in Hsteady. subst r.
  destruct (index_data_agree data s t s0 t0 Hi1 Hi2) as (Hag & Ho1 & Ho2).
  pose proof (related_write_page (@cut_short) urlopen1 urlopen2
                (@cut_short_ret) (@cut_short_lift) cut_short_emit (@cut_short_bind)
                cut_short_get_anchor cut_short_check_url cut_short_in_ids
                data context_doc s0 t0 tt s' Hag Hrun) as H.
  rewrite <- Ho1, <- Ho2.
  match type of H with
  | match ?m with _ => _ end => destruct m as [[[]|e] t']
  end; cbn [snd].
  - destruct H as (_ & _ & d & Hd & Hd'). exists d, EmptyString.
    now rewrite append_nil_r.
  - exact H.
Qed.

End CutShort.

(** X17 on a document whose second key resolves: the render under a
    network that answers 404 stops inside the second pair. *)
Lemma aborted_render_is_cut_short_witness :
  exists written rest,
    out (snd (write net_reachable [("a", JNum 1); ("name", JStr "x")]
                (JObj [("@context", JObj plain_context)]) init_state))
    = out init_state ++ written ++ rest
    /\ out (snd (write net_not_found [("a", JNum 1); ("name", JStr "x")]
                   (JObj [("@context", JObj plain_context)]) init_state))
       = out init_state ++ written.
Proof.
  apply (aborted_render_is_cut_short net_reachable net_not_found
           [("a", JNum 1); ("name", JStr "x")]
           (JObj [("@context", JObj plain_context)]) init_state
           (snd (write net_reachable [("a", JNum 1); ("name", JStr "x")]
                   (JObj [("@context", JObj plain_context)]) init_state))
           init_state).
  vm_compute. reflexivity.
Defined.

(** ** Requests, the cache and what a render leaves alone *)

Lemma check_url_requests (urlopen : network) (url : string) (st : state) :
  requests (snd (check_url urlopen url st)) = requests st
  \/ requests (snd (check_url urlopen url st)) = (requests st ++ [url])%list.
Proof.
  unfold check_url. destruct (str_mem url (checked_urls st)); [now left|].
  right. destruct (urlopen (requests st) url) as [|e]; [reflexivity|].
  destruct e; try reflexivity. now destruct (code =? 404)%Z.
Qed.

(** An invariant that every resolution keeps, whatever the URL it checks,
    is kept by the whole render. *)

Section Resolved.

Variable urlopen : network.
Variable P : state -> Prop.
Variable E : exn -> state -> Prop.

Hypothesis P_emit : forall s st, P st -> P (set_out (out st ++ s) st).
Hypothesis P_raise : forall e st, P st -> E e st.
Hypothesis get_anchor_keeps : forall name prefix context,
    keeps P E (get_anchor name prefix context).
Hypothesis get_doc_url_keeps : forall typ name context,
    keeps P E (get_doc_url urlopen typ name context).

Ltac step :=
  first [ apply keeps_ret
        | apply (keeps_lift P E P_raise)
        | apply (keeps_emit P E P_emit)
        | apply (keeps_emit_if P E P_emit)
        | apply keeps_read
        | apply get_anchor_keeps
        | apply get_doc_url_keeps
        | apply (span_open_keeps P E P_emit P_raise)
        | apply keeps_bind; [|intros ?]
        | progress cbv zeta
        | match goal with
          | |- keeps _ _ (match ?x with _ => _ end) => destruct x
          end ].

Lemma write_str_resolved v context typ : keeps P E (write_str urlopen v context typ).
Proof. unfold write_str. repeat step. Qed.

Section Methods.

Variable write_value' : json -> nat -> json -> option kind -> M unit.

Lemma write_key_value_body_resolved k v indent context :
  (forall i c t, keeps P E (write_value' v i c t)) ->
  keeps P E (write_key_value_body urlopen write_value' k v indent context).
Proof.
  intros Hv. unfold write_key_value_body. repeat first [apply Hv | step].
Qed.

Lemma write_items_resolved lst indent context :
  Forall (fun v => forall i c t, keeps P E (write_value' v i c t)) lst ->
  keeps P E (write_items write_value' lst indent context).
Proof.
  induction 1 as [|v rest Hv Hrest IH]; cbn [write_items];
    repeat first [exact IH | apply Hv | step].
Qed.

Lemma write_pairs_resolved items indent context :
  Forall (fun kv => forall i c t, keeps P E (write_value' (snd kv) i c t)) items ->
  keeps P E (write_pairs urlopen write_value' items indent context).
Proof.
  induction 1 as [|[k v] rest Hv Hrest IH]; cbn [write_pairs];
    repeat first [exact IH | now apply write_key_value_body_resolved | step].
Qed.

Lemma write_obj_body_resolved obj indent context :
  Forall (fun kv => forall i c t, keeps P E (write_value' (snd kv) i c t)) obj ->
  keeps P E (write_obj_body urlopen write_value' obj indent context).
Proof.
  intros Hobj. unfold write_obj_body.
  repeat first [now apply write_pairs_resolved | step].
Qed.

End Methods.

Lemma write_value_resolved v : forall indent context typ,
  keeps P E (write_value urlopen v indent context typ).
Proof.
  induction v using json_induction; intros indent context typ; cbn [write_value].
  - step.
  - step.
  - step.
  - apply write_str_resolved.
  - unfold write_list_body. repeat first [now apply write_items_resolved | step].
  - now apply write_obj_body_resolved.
Qed.

Hypothesis P_ids : forall s st, P st -> P (set_ids s st).
Hypothesis P_reset : forall st, P st -> P (set_anchors [] st).

Lemma write_resolved data context_doc : keeps P E (write urlopen data context_doc).
Proof.
  assert (forall context, keeps P E (write_obj urlopen data 0 context)) as Hobj.
  { intros context. apply write_obj_body_resolved, Forall_forall.
    intros kv _ i c t. apply write_value_resolved. }
  unfold write.
  apply keeps_bind;
    [apply (index_data_keeps P E P_raise P_ids P_reset) | intros _].
  do 9 (apply keeps_bind; [step | intros _]).
  apply keeps_bind; [step | intros context].
  apply keeps_bind; [apply Hobj | intros _; step].
Qed.

End Resolved.

Lemma post_snd {A} (P : state -> Prop) (x : result A * state) :
  post P (fun _ => P) x <-> P (snd x).
Proof. destruct x as [[a|e] st]; reflexivity. Qed.

Section DocSite.

Variable urlopen : network.

Lemma get_doc_url_pages typ name context :
  keeps (fun st => Forall doc_page (requests st))
        (fun _ st => Forall doc_page (requests st))
        (get_doc_url urlopen typ name context).
Proof.
  intros st Hst. apply post_snd. unfold get_doc_url, bind, lift.
  destruct (resolve typ name context) as [[sub [[rdf_uri t]|]]|e]; cbn [snd ret]; auto.
  destruct (doc_url t rdf_uri) as [[url|]|e] eqn:Hurl; cbn [snd ret]; auto.
  apply doc_url_page in Hurl.
  pose proof (check_url_requests urlopen url st) as Hreq.
  destruct (check_url urlopen url st) as [[[]|e] st']; cbn [snd ret] in *;
    destruct Hreq as [-> | ->]; auto; apply Forall_app; auto.
Qed.

Lemma get_anchor_pages name prefix context :
  keeps (fun st => Forall doc_page (requests st))
        (fun _ st => Forall doc_page (requests st))
        (get_anchor name prefix context).
Proof.
  intros st Hst. apply post_snd.
  destruct (get_anchor_frame name prefix context st) as (_ & _ & _ & ->). exact Hst.
Qed.

(** X5: the only URLs a render opens are pages of the model documentation:
    every request made while a document is rendered, also by a render that
    is aborted, is for the base URL followed by a profile, a kind and a
    name, the profile and the name without a slash. *)
Theorem requests_are_doc_pages (data : dict) (context_doc : json) (st : state) :
  Forall doc_page (requests st) ->
  Forall doc_page (requests (snd (write urlopen data context_doc st))).
Proof.
  intros Hst. apply post_snd.
  apply (write_resolved urlopen (fun st => Forall doc_page (requests st))
           (fun _ st => Forall doc_page (requests st)));
    auto using get_anchor_pages, get_doc_url_pages.
Qed.

Lemma check_url_sound url :
  keeps (cache_sound urlopen) (fun _ => cache_sound urlopen) (check_url urlopen url).
Proof.
  intros st Hst. apply post_snd. unfold check_url.
  destruct (str_mem url (checked_urls st)) eqn:Hmem.
  - rewrite str_add_member by assumption. now rewrite set_checked_urls_same.
  - assert (forall s, requests s = (requests st ++ [url])%list ->
                      checked_urls s = checked_urls st -> cache_sound urlopen s) as Hfail.
    { intros s Hr Hc u Hu. rewrite Hc in Hu.
      destruct (Hst u Hu) as (earlier & later & Hsplit & Hans).
      exists earlier, (later ++ [url])%list. split; [|assumption].
      rewrite Hr, Hsplit, <- app_assoc. reflexivity. }
    destruct (urlopen (requests st) url) as [|e] eqn:Hnet; cbn [snd].
    + intros u Hu. cbn in Hu. apply str_add_In in Hu as [Hu| ->].
      * destruct (Hst u Hu) as (earlier & later & Hsplit & Hans).
        exists earlier, (later ++ [url])%list. split; [|assumption].
        cbn. rewrite Hsplit, <- app_assoc. reflexivity.
      * exists (requests st), []. cbn. auto.
    + destruct e; try (apply Hfail; reflexivity).
      destruct (code =? 404)%Z; apply Hfail; reflexivity.
Qed.

Lemma get_anchor_sound name prefix context :
  keeps (cache_sound urlopen) (fun _ => cache_sound urlopen)
        (get_anchor name prefix context).
Proof.
  intros st Hst. apply post_snd.
  destruct (get_anchor_frame name prefix context st) as (_ & Hc & _ & Hr).
  intros u Hu. rewrite Hc in Hu. rewrite Hr. auto.
Qed.

(** X6: a documentation link is written only for a URL that was opened
    and answered.  A URL enters the cache only when a request for it was
    answered, during a render as before it, so that a resolution that
    returns a URL returns one that was requested and answered. *)
Theorem links_are_validated (st : state) :
  cache_sound urlopen st ->
  (forall data context_doc,
      cache_sound urlopen (snd (write urlopen data context_doc st)))
  /\ (forall typ name context url sub css st',
         get_doc_url urlopen typ name context st = (Ok (Some url, sub, css), st') ->
         exists earlier later,
           requests st' = (earlier ++ url :: later)%list
           /\ urlopen earlier url = Reachable).
Proof.
  intros Hst. split.
  - intros data context_doc. apply post_snd.
    apply (write_keeps urlopen (cache_sound urlopen) (fun _ => cache_sound urlopen));
      auto using get_anchor_sound, check_url_sound.
  - intros typ name context url sub css st' Hrun.
    unfold get_doc_url, bind, lift in Hrun.
    destruct (resolve typ name context) as [[sub' [[rdf_uri t]|]]|e];
      try discriminate Hrun.
    destruct (doc_url t rdf_uri) as [[url'|]|e]; try discriminate Hrun.
    pose proof (check_url_sound url' st Hst) as Hsound.
    apply post_snd in Hsound.
    destruct (check_url urlopen url' st) as [[[]|e] st1] eqn:Hcheck;
      [|discriminate Hrun].
    injection Hrun as -> _ _ <-. cbn [snd] in Hsound. apply Hsound.
    unfold check_url in Hcheck.
    destruct (str_mem url (checked_urls st)) eqn:Hmem.
    + injection Hcheck as <-. cbn. apply str_add_In. now right.
    + destruct (urlopen (requests st) url) as [|e];
        [|destruct e; try discriminate Hcheck;
          destruct (code =? 404)%Z; discriminate Hcheck].
      injection Hcheck as <-. cbn. apply str_add_In. now right.
Qed.

Lemma grown_refl (st : state) : grown st st.
Proof.
  split; [reflexivity|].
  repeat split; try (exists []; now rewrite app_nil_r).
  exists EmptyString. now rewrite append_nil_r.
Qed.

Lemma get_anchor_grown (st0 : state) name prefix context :
  keeps (grown st0) (fun _ => grown st0) (get_anchor name prefix context).
Proof.
  intros st (Hi & [a Ha] & Hc & Hr & Ho). apply post_snd.
  destruct (get_anchor_frame name prefix context st) as (Hi' & Hc' & Ho' & Hr').
  split; [congruence|]. rewrite Hc', Hr', Ho'.
  split; [|auto].
  unfold get_anchor, bind, lift.
  destruct (anchor_candidate name prefix context) as [anchor|e]; cbn [snd]; [|eauto].
  destruct (set_mem anchor (anchors st)) as [[|]|e]; cbn [snd]; eauto.
  exists (a ++ [anchor])%list. cbn. now rewrite Ha, app_assoc.
Qed.

Lemma check_url_grown (st0 : state) url :
  keeps (grown st0) (fun _ => grown st0) (check_url urlopen url).
Proof.
  intros st (Hi & Ha & [c Hc] & [r Hr] & Ho). apply post_snd.
  destruct (check_url_frame urlopen url st) as (Ha' & Hi' & Ho').
  split; [congruence|]. rewrite Ha', Ho'. split; [assumption|].
  assert (exists c', str_add url (checked_urls st) = (checked_urls st0 ++ c')%list)
    as Hadd.
  { unfold str_add. destruct (str_mem url (checked_urls st)); [eauto|].
    exists (c ++ [url])%list. now rewrite Hc, app_assoc. }
  assert (exists r', (requests st ++ [url])%list = (requests st0 ++ r')%list) as Hreq.
  { exists (r ++ [url])%list. now rewrite Hr, app_assoc. }
  unfold check_url.
  destruct (str_mem url (checked_urls st)); cbn [snd]; [cbn; eauto 6|].
  destruct (urlopen (requests st) url) as [|e]; cbn [snd]; [cbn; eauto 6|].
  destruct e; cbn; eauto 6. destruct (code =? 404)%Z; cbn; eauto 6.
Qed.

(** X7: the rendering of a value only adds: it leaves the index as it was, and
    the anchors, the cache, the requests and the text written keep what
    they held, also when the rendering is aborted. *)
Theorem render_only_adds (v : json) (indent : nat) (context : json)
    (typ : option kind) (st : state) :
  grown st (snd (write_value urlopen v indent context typ st)).
Proof.
  apply post_snd.
  apply (write_value_keeps urlopen (grown st) (fun _ => grown st));
    auto using get_anchor_grown, check_url_grown, grown_refl.
  intros s st0 (Hi & Ha & Hc & Hr & [d Hd]).
  repeat (split; [assumption|]). exists (d ++ s). cbn. now rewrite Hd, append_assoc.
Qed.

End DocSite.

(** X5 on a document whose key resolves. *)
Lemma requests_are_doc_pages_witness :
  requests (snd (write net_reachable [("name", JStr "x")]
                   (JObj [("@context", JObj plain_context)]) init_state))
  = [DOC_BASE ++ "Core/Properties/name"]
  /\ Forall doc_page
       (requests (snd (write net_reachable [("name", JStr "x")]
                         (JObj [("@context", JObj plain_context)]) init_state))).
Proof.
  split; [vm_compute; reflexivity|].
  apply (requests_are_doc_pages net_reachable [("name", JStr "x")]
           (JObj [("@context", JObj plain_context)]) init_state).
  constructor.
Defined.

(** X6 from the empty cache. *)
Lemma links_are_validated_witness :
  cache_sound net_reachable
    (snd (write net_reachable [("name", JStr "x")]
            (JObj [("@context", JObj plain_context)]) init_state))
  /\ exists earlier later,
       requests (snd (get_doc_url net_reachable (Some Properties) "name"
                        (JObj plain_context) init_state))
       = (earlier ++ (DOC_BASE ++ "Core/Properties/name")%string :: later)%list
       /\ net_reachable earlier (DOC_BASE ++ "Core/Properties/name") = Reachable.
Proof.
  assert (cache_sound net_reachable init_state) as Hinit by (intros u []).
  split.
  - apply (proj1 (links_are_validated net_reachable init_state Hinit)).
  - apply (proj2 (links_are_validated net_reachable init_state Hinit)
             (Some Properties) "name" (JObj plain_context)
             (DOC_BASE ++ "Core/Properties/name") (JObj plain_context)
             (Some "properties")
             (snd (get_doc_url net_reachable (Some Properties) "name"
                     (JObj plain_context) init_state))).
    vm_compute. reflexivity.
Defined.

(** ** Anchors and the type of a node *)

(** X8: an anchor goes to the first request for it.  Once [get_anchor] has
    answered a request, every later request with the same name, prefix and
    context is answered with [None] and changes nothing, however many
    anchors were handed out in between. *)
Theorem anchor_goes_to_first_request (name : json) (prefix : string) (context : json)
    (st st1 st2 : state) (a : json) (added : pyset) :
  get_anchor name prefix context st = (Ok a, st1) ->
  anchors st2 = (anchors st1 ++ added)%list ->
  get_anchor name prefix context st2 = (Ok JNull, st2).
Proof.
  unfold get_anchor, bind, lift. intros Hrun Hlater.
  destruct (anchor_candidate name prefix context) as [anchor|e]; [|discriminate Hrun].
  unfold set_mem in *. destruct (hashable anchor) eqn:Hh; [|discriminate Hrun].
  assert (existsb (py_eq anchor) (anchors st1) = true) as Hin.
  { destruct (existsb (py_eq anchor) (anchors st)) eqn:Hseen;
      injection Hrun as _ <-; [assumption|].
    cbn. rewrite existsb_app. cbn. rewrite (py_eq_refl anchor Hh).
    now rewrite orb_true_r. }
  rewrite Hlater, existsb_app, Hin. reflexivity.
Qed.

(** X8: the anchor of [name], handed out before the anchor of a class. *)
Lemma anchor_goes_to_first_request_witness :
  get_anchor (JStr "name") "property" (JObj [])
    (set_anchors [JStr "property-name"; JStr "class-Person"] init_state)
  = (Ok JNull, set_anchors [JStr "property-name"; JStr "class-Person"] init_state).
Proof.
  apply (anchor_goes_to_first_request (JStr "name") "property" (JObj []) init_state
           (set_anchors [JStr "property-name"] init_state)
           (set_anchors [JStr "property-name"; JStr "class-Person"] init_state)
           (JStr "property-name") [JStr "class-Person"]).
  - reflexivity.
  - reflexivity.
Defined.

Section TypeOfNode.

Variable urlopen : network.

(** X13: a node whose [type] is not a string cannot be rendered under a
    context that is a mapping: [write_obj] raises [TypeError] when it asks
    for the anchor of the class, before it has written anything. *)
Theorem type_must_be_a_string (obj : dict) (indent : nat) (context : dict)
    (t : json) (st : state) :
  dict_get "type" obj = Some t ->
  (forall s, t <> JStr s) ->
  write_obj urlopen obj indent (JObj context) st = (Err TypeError, st).
Proof.
  intros Ht Hns. unfold write_obj, write_obj_body. rewrite Ht.
  unfold bind at 1. unfold get_anchor, bind, lift, anchor_candidate.
  destruct t as [|b|n|s|l|d]; try reflexivity.
  now destruct (Hns s).
Qed.

End TypeOfNode.

(** X13 on a node whose type is a list of names. *)
Lemma type_must_be_a_string_witness :
  write_obj net_reachable [("type", JList [JStr "Person"])] 0 (JObj []) init_state
  = (Err TypeError, init_state).
Proof.
  apply (type_must_be_a_string net_reachable [("type", JList [JStr "Person"])] 0 []
           (JList [JStr "Person"]) init_state).
  - reflexivity.
  - discriminate.
Defined.

(** ** When a render returns *)

Lemma scoped_context_ok (desc : dict) (c : json) :
  (fix scoped (l2 : list (string * json)) : bool :=
     match l2 with
     | [] => true
     | (k2, c2) :: l2' =>
         (if String.eqb k2 "@context" then context_ok c2 else true) && scoped l2'
     end) desc = true ->
  context_ok c = true ->
  context_ok (dict_get_default "@context" desc c) = true.
Proof.
  intros Hdesc Hc. unfold dict_get_default.
  induction desc as [|[k2 c2] desc IH]; [exact Hc|].
  apply andb_prop in Hdesc as [H2 Hdesc]. cbn [dict_get].
  rewrite String.eqb_sym.
  destruct (String.eqb k2 "@context"); [exact H2 | now apply IH].
Qed.

Lemma context_ok_entry (c : json) (d : dict) (k : string) (e : json) :
  context_ok c = true -> context_ok (JObj d) = true -> dict_get k d = Some e ->
  entry_ok c k e.
Proof.
  intros Hc. induction d as [|[k' e'] d IH]; intros Hd Hk; [discriminate Hk|].
  cbn [context_ok] in Hd. apply andb_prop in Hd as [He Hd].
  cbn [dict_get] in Hk. destruct (String.eqb_spec k k') as [->|_].
  - injection Hk as ->. destruct e as [| | |s| |desc]; try discriminate He.
    + constructor.
    + apply andb_prop in He as [He Hscoped]. apply andb_prop in He as [Hk Hid].
      constructor; [|assumption|now apply scoped_context_ok].
      intros ->. discriminate Hk.
  - now apply IH.
Qed.

Lemma renderable_list (l : list json) :
  renderable (JList l) = true -> Forall (fun x => renderable x = true) l.
Proof.
  induction l as [|x l IH]; intros H; constructor;
    cbn [renderable] in H; apply andb_prop in H as [Hx Hl]; [exact Hx | now apply IH].
Qed.

Lemma renderable_pairs (d : dict) :
  (fix all (l : list (string * json)) : bool :=
     match l with
     | [] => true
     | (_, x) :: l' => renderable x && all l'
     end) d = true ->
  Forall (fun kv => renderable (snd kv) = true) d.
Proof.
  induction d as [|[k x] d IH]; intros H; constructor;
    apply andb_prop in H as [Hx Hl]; [exact Hx | now apply IH].
Qed.

Lemma returns_ret {A} (x : A) (Q : A -> Prop) : Q x -> returns (ret x) Q.
Proof. intros H st. now exists x, st. Qed.

Lemma returns_lift {A} (x : A) (Q : A -> Prop) : Q x -> returns (lift (Ok x)) Q.
Proof. intros H st. now exists x, st. Qed.

Lemma returns_emit (s : string) : returns (emit s) any.
Proof. intros st. exists tt, (set_out (out st ++ s) st). now split. Qed.

Lemma returns_emit_if (c : bool) (s : string) : returns (emit_if c s) any.
Proof. destruct c; [apply returns_emit | now apply returns_ret]. Qed.

Lemma returns_bind {A B} (m : M A) (f : A -> M B) (Q : A -> Prop) (Q' : B -> Prop) :
  returns m Q -> (forall x, Q x -> returns (f x) Q') -> returns (bind m f) Q'.
Proof.
  intros Hm Hf st. destruct (Hm st) as (x & st1 & Hrun & Hx).
  destruct (Hf x Hx st1) as (y & st2 & Hrun2 & Hy).
  exists y, st2. unfold bind. now rewrite Hrun.
Qed.

Lemma returns_then {A B} (m : M A) (k : M B) (Q : A -> Prop) (Q' : B -> Prop) :
  returns m Q -> returns k Q' -> returns (m ;; k) Q'.
Proof. intros Hm Hk. apply returns_bind with (Q := Q); auto. Qed.

Lemma returns_any {A} (m : M A) (Q : A -> Prop) : returns m Q -> returns m any.
Proof. intros H st. destruct (H st) as (x & st' & Hrun & _). now exists x, st'. Qed.

Lemma returns_span_open (x : json) :
  str_or_falsy x = true ->
  returns (if py_truthy x
           then id <- lift (py_html_escape x) ;; emit (span_id_open id)
           else ret tt) any.
Proof.
  intros Hx. destruct (py_truthy x) eqn:Ht; [|now apply returns_ret].
  destruct x as [| | |s| |];
    try (unfold str_or_falsy in Hx; rewrite Ht in Hx; discriminate Hx).
  eapply returns_bind; [now apply returns_lift with (Q := any)|].
  intros id _. apply returns_emit.
Qed.

Lemma get_anchor_returns (name : string) (prefix : string) (context : json) :
  context_ok context = true ->
  returns (get_anchor (JStr name) prefix context) (fun a => str_or_falsy a = true).
Proof.
  intros Hc st. destruct context as [| | | | |d]; try discriminate Hc.
  assert (exists s, anchor_candidate (JStr name) prefix (JObj d) = Ok (JStr s))
    as [s Hs].
  { unfold anchor_candidate, py_in, py_getitem, dict_mem. cbn [rbind].
    destruct (dict_get name d) as [e|] eqn:He; cbn [rbind py_truthy py_str_add];
      [|eauto].
    destruct (context_ok_entry (JObj d) d name e Hc Hc He) as [s|desc _ Hid _];
      cbn [rbind].
    - destruct (py_truthy (JStr s)); cbn [rbind py_str_add]; eauto.
    - unfold descriptor_id_ok in Hid. unfold dict_get_default.
      destruct (dict_get "@id" desc) as [[| | |i| |]|]; try discriminate Hid;
        [|cbn [rbind py_truthy py_str_add]; eauto].
      destruct (py_truthy (JStr i)); cbn [rbind py_str_add]; eauto. }
  unfold get_anchor, bind, lift. rewrite Hs. unfold set_mem. cbn [hashable].
  destruct (existsb (py_eq (JStr s)) (anchors st)); eauto.
Qed.

Section Returns.

Variable urlopen : network.
Hypothesis urlopen_answers : answers urlopen.

Lemma check_url_returns (url : string) : returns (check_url urlopen url) any.
Proof.
  intros st. unfold check_url.
  destruct (str_mem url (checked_urls st)); [eexists; eexists; now split|].
  rewrite urlopen_answers. eexists; eexists; now split.
Qed.

Lemma doc_url_returns (t : kind) (s : string) :
  exists u, doc_url t (JStr s) = Ok u.
Proof.
  unfold doc_url.
  destruct (PyStr.rsplit2 "/" (PyStr.rstrip "/" s)) as [[[h p] n]|]; eauto.
Qed.

Lemma resolve_returns (typ : option kind) (name : string) (context : json) :
  context_ok context = true ->
  exists sub found,
    resolve typ name context = Ok (sub, found)
    /\ context_ok sub = true
    /\ match found with
       | Some (rdf_uri, _) => exists s, rdf_uri = JStr s
       | None => True
       end.
Proof.
  intros Hc. destruct context as [| | | | |d]; try discriminate Hc.
  unfold resolve, py_in, py_getitem, dict_mem. cbn [rbind].
  destruct (dict_get "@vocab" d) as [e|] eqn:Hv; cbn [rbind].
  - destruct (context_ok_entry (JObj d) d "@vocab" e Hc Hc Hv) as [s|desc Hk _ _];
      [eauto 10 | contradiction].
  - destruct typ as [t|]; [|eauto 10]. cbn [rbind].
    destruct (dict_get name d) as [e|] eqn:He; cbn [negb rbind]; [|eauto 10].
    destruct (context_ok_entry (JObj d) d name e Hc Hc He) as [s|desc _ Hid Hscoped];
      [eauto 10|].
    unfold descriptor_id_ok in Hid.
    destruct (dict_get "@id" desc) as [[| | |i| |]|]; try discriminate Hid; eauto 10.
Qed.

Lemma get_doc_url_returns (typ : option kind) (name : string) (context : json) :
  context_ok context = true ->
  returns (get_doc_url urlopen typ name context)
          (fun r => context_ok (snd (fst r)) = true).
Proof.
  intros Hc. destruct (resolve_returns typ name context Hc)
    as (sub & found & Hres & Hsub & Hfound).
  unfold get_doc_url. rewrite Hres.
  eapply returns_bind;
    [now apply returns_lift with (Q := fun x => x = (sub, found))|]. intros ? ->.
  destruct found as [[rdf_uri t]|]; [|now apply returns_ret].
  destruct Hfound as [s ->]. destruct (doc_url_returns t s) as [u ->].
  eapply returns_bind; [now apply returns_lift with (Q := any)|].
  intros [url|] _; [|now apply returns_ret].
  eapply returns_bind; [apply check_url_returns|].
  intros _ _. now apply returns_ret.
Qed.

Lemma write_str_returns (v : string) (context : json) (typ : option kind) :
  context_ok context = true -> returns (write_str urlopen v context typ) any.
Proof.
  intros Hc. unfold write_str.
  eapply returns_bind; [now apply get_doc_url_returns|].
  intros [[u sub] css] _.
  eapply returns_bind with (Q := any); [intros st; eexists; eexists; now split|].
  intros in_ids _.
  assert (forall a b c, returns (emit a ;; emit b ;; emit c) any) as H3.
  { intros a b c. eapply returns_bind; [apply returns_emit|]. intros _ _.
    eapply returns_bind; [apply returns_emit|]. intros _ _. apply returns_emit. }
  destruct in_ids; [apply H3|]. destruct u; [apply H3|].
  destruct (_ || _); [apply H3 | apply returns_emit].
Qed.

Section Loops.

Variable write_value : json -> nat -> json -> option kind -> M unit.

Lemma write_key_value_returns (k : string) (v : json) (indent : nat) (context : json) :
  context_ok context = true ->
  (forall sub typ, context_ok sub = true -> returns (write_value v indent sub typ) any) ->
  returns (write_key_value_body urlopen write_value k v indent context) any.
Proof.
  intros Hc Hv. unfold write_key_value_body.
  eapply returns_bind; [now apply get_anchor_returns|]. intros anchor Hanchor.
  eapply returns_bind; [now apply returns_span_open|]. intros _ _.
  eapply returns_bind; [apply returns_emit|]. intros _ _.
  eapply returns_bind; [now apply get_doc_url_returns|].
  intros [[u sub] css] Hsub. cbn [fst snd] in Hsub.
  eapply returns_bind with (Q := any).
  { destruct u; [apply returns_emit | now apply returns_ret]. }
  intros _ _. eapply returns_bind; [apply returns_emit|]. intros _ _.
  eapply returns_bind with (Q := any).
  { destruct u; [apply returns_emit | now apply returns_ret]. }
  intros _ _. eapply returns_bind; [apply returns_emit|]. intros _ _.
  eapply returns_bind; [now apply Hv|]. intros _ _.
  apply returns_emit_if.
Qed.

Lemma write_items_returns (lst : list json) (indent : nat) (context : json) :
  Forall (fun x => forall i c typ, context_ok c = true ->
                     returns (write_value x i c typ) any) lst ->
  context_ok context = true ->
  returns (write_items write_value lst indent context) any.
Proof.
  intros Hall Hc. induction Hall as [|x rest Hx Hrest IH]; [now apply returns_ret|].
  cbn [write_items].
  eapply returns_bind; [apply returns_emit|]. intros _ _.
  eapply returns_bind; [now apply Hx|]. intros _ _.
  destruct rest; [apply returns_emit|].
  eapply returns_bind; [apply returns_emit|]. intros _ _.
  eapply returns_bind; [apply returns_emit|]. intros _ _. exact IH.
Qed.

Lemma write_pairs_returns (items : list (string * json)) (indent : nat)
  (context : json) :
  Forall (fun kv => forall i c typ, context_ok c = true ->
                      returns (write_value (snd kv) i c typ) any) items ->
  context_ok context = true ->
  returns (write_pairs urlopen write_value items indent context) any.
Proof.
  intros Hall Hc. induction Hall as [|[k v] rest Hv Hrest IH]; [now apply returns_ret|].
  cbn [write_pairs].
  eapply returns_bind; [apply write_key_value_returns; [exact Hc|]|].
  { intros sub typ Hsub. now apply Hv. }
  intros _ _. destruct rest; [apply returns_emit|].
  eapply returns_bind; [apply returns_emit|]. intros _ _.
  eapply returns_bind; [apply returns_emit|]. intros _ _. exact IH.
Qed.

Lemma write_obj_returns (obj : dict) (indent : nat) (context : json) :
  header_ok obj = true ->
  Forall (fun kv => forall i c typ, context_ok c = true ->
                      returns (write_value (snd kv) i c typ) any) obj ->
  context_ok context = true ->
  returns (write_obj_body urlopen write_value obj indent context) any.
Proof.
  intros Hhead Hall Hc. unfold header_ok in Hhead.
  apply andb_prop in Hhead as [Hhead Hext]. apply andb_prop in Hhead as [Htype Hid].
  unfold write_obj_body.
  eapply returns_bind with (Q := fun a => str_or_falsy a = true).
  { destruct (dict_get "type" obj) as [[| | |t| |]|]; try discriminate Htype;
      [now apply get_anchor_returns | now apply returns_ret]. }
  intros anchor Hanchor.
  eapply returns_bind; [now apply returns_span_open|]. intros _ _.
  eapply returns_bind;
    [apply returns_lift with (Q := fun x => str_or_falsy x = true); exact Hid|].
  intros obj_id Hobj_id.
  eapply returns_bind; [now apply returns_span_open|]. intros _ _.
  eapply returns_bind; [now apply returns_span_open|]. intros _ _.
  eapply returns_bind; [apply returns_emit|]. intros _ _.
  eapply returns_bind; [apply returns_emit|]. intros _ _.
  eapply returns_bind; [now apply write_pairs_returns|]. intros _ _.
  eapply returns_bind; [apply returns_emit|]. intros _ _.
  eapply returns_bind; [apply returns_emit_if|]. intros _ _.
  eapply returns_bind; [apply returns_emit_if|]. intros _ _.
  apply returns_emit_if.
Qed.

End Loops.

Lemma write_value_returns (v : json) :
  renderable v = true ->
  forall indent context typ, context_ok context = true ->
    returns (write_value urlopen v indent context typ) any.
Proof.
  induction v as [| | |s|l IH|d IH] using json_induction;
    intros Hv indent context typ Hc; cbn [write_value];
    try apply returns_emit.
  - now apply write_str_returns.
  - unfold write_list_body.
    eapply returns_bind; [apply returns_emit|]. intros _ _.
    eapply returns_bind; [apply returns_emit|]. intros _ _.
    eapply returns_bind; [|intros _ _; apply returns_emit].
    apply write_items_returns; [|exact Hc].
    apply renderable_list in Hv. clear Hc.
    induction IH as [|x l Hx Hl IHl]; constructor; inversion Hv; subst.
    + intros i c t Hcc. now apply Hx.
    + now apply IHl.
  - cbn [renderable] in Hv. apply andb_prop in Hv as [Hhead Hv].
    apply renderable_pairs in Hv.
    apply write_obj_returns; [exact Hhead | | exact Hc]. clear Hc Hhead.
    induction IH as [|[k x] l Hx Hl IHl]; constructor; inversion Hv; subst.
    + intros i c t Hcc. now apply Hx.
    + now apply IHl.
Qed.

Lemma index_data_returns (data : dict) (graph : list json) :
  dict_get_default "@graph" data (JList []) = JList graph ->
  forallb node_ok graph = true ->
  returns (index_data data) any.
Proof.
  intros Hgraph Hnodes. unfold index_data. rewrite Hgraph.
  eapply returns_then with (Q := any); [intros st; eexists; eexists; now split|].
  eapply returns_bind; [now apply returns_lift with (Q := fun g => g = graph)|].
  intros ? -> st. pose proof (graph_loop_ok graph st Hnodes) as Hloop.
  destruct (for_each graph index_node st) as [r st']. cbn [fst] in Hloop.
  subst r. now exists tt, st'.
Qed.

Lemma write_returns (data : dict) (context_doc context : json) (graph : list json) :
  py_getitem context_doc (JStr "@context") = Ok context ->
  context_ok context = true ->
  renderable (JObj data) = true ->
  dict_get_default "@graph" data (JList []) = JList graph ->
  forallb node_ok graph = true ->
  returns (write urlopen data context_doc) any.
Proof.
  intros Hcontext Hc Hdata Hgraph Hnodes. unfold write. rewrite Hcontext.
  eapply returns_then; [now apply (index_data_returns data graph)|].
  do 9 (eapply returns_then; [apply returns_emit|]).
  eapply returns_bind; [now apply returns_lift with (Q := fun c => c = context)|].
  intros ? ->.
  eapply returns_then; [|apply returns_emit].
  now apply (write_value_returns (JObj data) Hdata 0 context None).
Qed.

End Returns.

(** X18: what is enough for a render to return.  [main] returns 0 whenever
    the network answers every request, the context document is loaded and
    its [@context] is a mapping of IRI strings and descriptors, every object
    of the document has a string type (if any) and string or falsy
    identifiers, and every node of [@graph] can be indexed. *)
Theorem render_succeeds (urlopen : network) (load_json : json -> result json)
  (data : dict) (url context_doc context : json) (graph : list json) (st : state) :
  answers urlopen ->
  dict_get "@context" data = Some url ->
  load_json url = Ok context_doc ->
  py_getitem context_doc (JStr "@context") = Ok context ->
  context_ok context = true ->
  renderable (JObj data) = true ->
  dict_get_default "@graph" data (JList []) = JList graph ->
  forallb node_ok graph = true ->
  exists st', main urlopen load_json (JObj data) st = (Ok 0%Z, st').
Proof.
  intros Hnet Hurl Hload Hcontext Hc Hdata Hgraph Hnodes.
  assert (returns (main urlopen load_json (JObj data)) (fun code => code = 0%Z)) as H.
  { unfold main.
    eapply returns_bind with (Q := fun c => c = context_doc).
    { unfold __init__, py_getitem. rewrite Hurl.
      eapply returns_then with (Q := any); [intros s; eexists; eexists; now split|].
      eapply returns_bind; [now apply returns_lift with (Q := fun u => u = url)|].
      intros ? ->. rewrite Hload. now apply returns_lift. }
    intros ? ->.
    do 3 (eapply returns_then; [apply returns_emit|]).
    eapply returns_then; [now apply (write_returns urlopen Hnet data context_doc context graph)|].
    eapply returns_then; [apply returns_emit|]. now apply returns_ret. }
  destruct (H st) as (code & st' & Hrun & ->). now exists st'.
Qed.

(** X18 on a document whose context has a descriptor with a scoped
    context. *)
Lemma render_succeeds_witness :
  exists st', main net_reachable (fun _ => Ok scoped_context_doc)
                (JObj hashed_document) init_state = (Ok 0%Z, st').
Proof.
  apply (render_succeeds net_reachable (fun _ => Ok scoped_context_doc)
           hashed_document
           (JStr "https://spdx.org/rdf/3.0.1/spdx-context.jsonld")
           scoped_context_doc
           (JObj [("name", JStr core_name_iri);
                  ("algorithm",
                   JObj [("@id", JStr "https://spdx.org/rdf/3.0.1/terms/Core/algorithm");
                         ("@context", JObj vocab_context)])])
           [JObj [("spdxId", JStr "urn:a"); ("type", JStr "Hash");
                  ("algorithm", JStr "sha256"); ("name", JStr "a")]]
           init_state);
    first [intros ? ?; reflexivity | vm_compute; reflexivity].
Defined.

(** ** The id attributes of the output (C2) *)

Lemma bind_run {A B} (m : M A) (f : A -> M B) (st : state) :
  bind m f st = match m st with
                | (Ok a, st1) => f a st1
                | (Err e, st1) => (Err e, st1)
                end.
Proof. reflexivity. Qed.

Lemma html_escape_inj (s t : string) : html_escape s = html_escape t -> s = t.
Proof.
  assert (forall u, unescape_from 0 (html_escape u) = u) as Hback.
  { induction u as [|c u IH]; [reflexivity|].
    cbn [html_escape]. now rewrite unescape_escape_char, IH. }
  intros H. rewrite <- (Hback s), <- (Hback t). now rewrite H.
Qed.

Lemma NoDup_map_inj {A B} (f : A -> B) (l : list A) :
  (forall x y, f x = f y -> x = y) -> NoDup l -> NoDup (map f l).
Proof.
  intros Hf Hl. induction Hl as [|x l Hx Hl IH]; cbn; constructor; [|exact IH].
  intros Hin. apply in_map_iff in Hin as (y & Hy & Hin).
  apply Hf in Hy. now subst.
Qed.

Lemma merge_nil_l {A} (b : list A) : merge [] b b.
Proof. induction b; constructor; assumption. Qed.

Lemma merge_nil_r {A} (a : list A) : merge a [] a.
Proof. induction a; constructor; assumption. Qed.

Lemma merge_app {A} (a b c a' b' c' : list A) :
  merge a b c -> merge a' b' c' -> merge (a ++ a') (b ++ b') (c ++ c').
Proof. induction 1; intros H'; cbn; try constructor; auto. Qed.

Lemma merge_count (a b c : list string) (x : string) :
  merge a b c ->
  count_occ string_dec c x = count_occ string_dec a x + count_occ string_dec b x.
Proof.
  induction 1 as [|y a b c _ IH|y a b c _ IH]; cbn [count_occ]; [reflexivity| |];
    destruct (string_dec y x); lia.
Qed.

Lemma id_reads_nil : id_reads EmptyString [].
Proof. intros r. reflexivity. Qed.

Lemma id_reads_app (a b : string) (l m : list string) :
  id_reads a l -> id_reads b m -> id_reads (a ++ b) (l ++ m).
Proof. intros Ha Hb r. now rewrite append_assoc, Ha, Hb, app_assoc. Qed.

Lemma id_free_app (a b : string) : id_free a -> id_free b -> id_free (a ++ b).
Proof. intros Ha Hb. exact (id_reads_app a b [] [] Ha Hb). Qed.

Lemma emitted_ids_cons (c : ascii) (s : string) :
  emitted_ids (String c s)
  = if String.prefix ID_OPEN (String c s)
    then until_quote (skip (String.length ID_OPEN) (String c s)) :: emitted_ids s
    else emitted_ids s.
Proof. reflexivity. Qed.

Lemma lt_free_id_free (a : string) : lt_free a = true -> id_free a.
Proof.
  induction a as [|c a IH]; intros H r; [reflexivity|].
  cbn [lt_free] in H. apply andb_prop in H as [Hc Ha].
  apply negb_true_iff in Hc.
  change (String c a ++ r) with (String c (a ++ r)). rewrite emitted_ids_cons.
  unfold ID_OPEN at 1. rewrite prefix_cons.
  destruct (Ascii.ascii_dec "<" c) as [<-|_]; [discriminate Hc|]. now apply IH.
Qed.

Lemma id_freeb_sound (a : string) : id_freeb a = true -> id_free a.
Proof.
  induction a as [|c a IH]; intros H r; [reflexivity|].
  cbn [id_freeb] in H. apply andb_prop in H as [Hc Ha].
  unfold id_clash_free in Hc. apply andb_prop in Hc as [H1 H2].
  apply negb_true_iff in H1, H2.
  change (String c a ++ r) with (String c (a ++ r)). rewrite emitted_ids_cons.
  change (String c (a ++ r)) with (String c a ++ r).
  rewrite prefix_app, H1, H2. cbn [orb andb]. now apply IH.
Qed.

Lemma value_ok_lt_free (a : string) : value_ok a = true -> lt_free a = true.
Proof.
  induction a as [|c a IH]; cbn; [auto|]. intros H.
  apply andb_prop in H as [Hc Ha]. apply andb_prop in Hc as [Hc _].
  apply andb_prop in Hc as [Hc _]. rewrite Hc. cbn. auto.
Qed.

Lemma until_quote_value (a r : string) :
  value_ok a = true -> until_quote (a ++ String dquote r) = a.
Proof.
  induction a as [|c a IH]; cbn [append until_quote value_ok]; intros H.
  - now rewrite Ascii.eqb_refl.
  - apply andb_prop in H as [Hc Ha]. apply andb_prop in Hc as [_ Hq].
    apply negb_true_iff in Hq. rewrite Hq. f_equal. now apply IH.
Qed.

Lemma id_reads_span_id_open (id : string) :
  value_ok id = true -> id_reads (span_id_open id) [id].
Proof.
  intros Hid r.
  assert (span_id_open id ++ r
          = String "<" (("span id=" ++ dq) ++ id ++ (dq ++ ">") ++ r)) as ->.
  { unfold span_id_open. rewrite !append_assoc. reflexivity. }
  rewrite emitted_ids_cons.
  assert (String.prefix ID_OPEN
            (String "<" (("span id=" ++ dq) ++ id ++ (dq ++ ">") ++ r)) = true) as ->.
  { apply prefix_true_iff. exists (id ++ (dq ++ ">") ++ r). reflexivity. }
  cbn [app]. f_equal.
  - change (skip (String.length ID_OPEN)
              (String "<" (("span id=" ++ dq) ++ id ++ (dq ++ ">") ++ r)))
      with (id ++ String dquote (">" ++ r)).
    now apply until_quote_value.
  - assert (id_free (("span id=" ++ dq) ++ id ++ dq ++ ">")) as Hfree.
    { apply id_free_app; [now apply id_freeb_sound|].
      apply id_free_app; [now apply lt_free_id_free, value_ok_lt_free|].
      now apply id_freeb_sound. }
    specialize (Hfree r). rewrite !append_assoc in Hfree. rewrite !append_assoc.
    exact Hfree.
Qed.

Lemma id_free_a_open (href : string) : lt_free href = true -> id_free (a_open href).
Proof.
  intros H. unfold a_open.
  apply id_free_app; [now apply id_freeb_sound|].
  apply id_free_app; [now apply id_freeb_sound|].
  apply id_free_app; [now apply lt_free_id_free|].
  now apply id_freeb_sound.
Qed.

Lemma id_free_span_class (cls text : string) :
  lt_free cls = true -> lt_free text = true -> id_free (span_class cls text).
Proof.
  intros Hcls Htext. unfold span_class.
  apply id_free_app; [now apply id_freeb_sound|].
  apply id_free_app; [now apply id_freeb_sound|].
  apply id_free_app; [now apply lt_free_id_free|].
  apply id_free_app; [now apply id_freeb_sound|].
  apply id_free_app; [now apply id_freeb_sound|].
  apply id_free_app; [now apply lt_free_id_free|].
  now apply id_freeb_sound.
Qed.

Lemma id_free_string_ (v cls : string) : lt_free cls = true -> id_free (string_ v cls).
Proof.
  intros Hcls. unfold string_.
  apply id_free_app; [now apply id_freeb_sound|].
  apply id_free_app.
  - apply id_free_app; [now apply id_freeb_sound|].
    apply id_free_app; [now apply id_freeb_sound|].
    apply id_free_app; [now apply lt_free_id_free|].
    apply id_free_app; now apply id_freeb_sound.
  - apply id_free_app; [apply lt_free_id_free, lt_free_html_escape|].
    apply id_free_app; now apply id_freeb_sound.
Qed.

Lemma known_class_lt_free (cls : string) : In cls known_classes -> lt_free cls = true.
Proof.
  intros H. cbn in H.
  repeat (destruct H as [<-|H]; [reflexivity|]). contradiction.
Qed.

Lemma id_free_closing (i : nat) (t : token) : id_free (indent_str i ++ token_text t).
Proof.
  apply id_free_app; [apply lt_free_id_free, lt_free_indent|].
  apply id_freeb_sound. now destruct t as [[|]|[|]].
Qed.

(** Nothing was written and no identifier was reached. *)
Ltac nothing_written idents :=
  exists EmptyString, (@nil string), (@nil string), (@nil string), idents;
  cbn [fst snd map app out anchors emit set_out set_anchors];
  rewrite ?append_nil_r, ?app_nil_r;
  (split; [reflexivity|]); (split; [apply id_reads_nil|]);
  (split; [constructor|]); (split; [reflexivity|]).

Lemma spans_silent {A} (m : M A) (Q : A -> Prop) :
  (forall st, out (snd (m st)) = out st /\ anchors (snd (m st)) = anchors st) ->
  (forall st x, fst (m st) = Ok x -> Q x) ->
  spans m [] Q.
Proof.
  intros Hsame HQ st. destruct (Hsame st) as [Ho Ha].
  exists EmptyString, [], [], [], []. rewrite Ho, Ha, append_nil_r. cbn [map].
  rewrite !app_nil_r.
  split; [reflexivity|]. split; [apply id_reads_nil|]. split; [constructor|].
  split; [reflexivity|]. split; [now left|]. split; [auto|].
  intros x Hx. eauto.
Qed.

Lemma spans_ret {A} (x : A) (Q : A -> Prop) : Q x -> spans (ret x) [] Q.
Proof. intros H. apply spans_silent; [now intros | now intros st y [= <-]]. Qed.

Lemma spans_lift {A} (r : result A) (Q : A -> Prop) :
  (forall x, r = Ok x -> Q x) -> spans (lift r) [] Q.
Proof. intros H. apply spans_silent; [now intros | intros st x; apply H]. Qed.

Lemma spans_emit (s : string) : id_free s -> spans (emit s) [] any.
Proof.
  intros Hs st. exists s, [], [], [], []. cbn [emit snd fst out anchors set_out map].
  rewrite !app_nil_r.
  split; [reflexivity|]. split; [exact Hs|]. split; [constructor|].
  split; [reflexivity|]. split; [now left|]. split; [auto|]. now intros.
Qed.

Lemma spans_emit_if (c : bool) (s : string) : id_free s -> spans (emit_if c s) [] any.
Proof. intros H. destruct c; [now apply spans_emit | now apply spans_ret]. Qed.

Lemma spans_bind {A B} (m : M A) (f : A -> M B) (i1 i2 : list string)
    (Q : A -> Prop) (R : B -> Prop) :
  spans m i1 Q -> (forall x, Q x -> spans (f x) i2 R) ->
  spans (bind m f) (i1 ++ i2) R.
Proof.
  intros Hm Hf st.
  destruct (Hm st) as (d1 & l1 & n1 & s1 & r1 & Ho1 & Hr1 & Hm1 & Hi1 & Ha1 & Hn1 & Hq1).
  rewrite bind_run. destruct (m st) as [[x|e] st1]; cbn [fst snd] in *.
  - destruct (Hq1 x eq_refl) as (Hx & -> & Hx1). rewrite app_nil_r in Hi1. subst i1.
    destruct (Hf x Hx st1)
      as (d2 & l2 & n2 & s2 & r2 & Ho2 & Hr2 & Hm2 & Hi2 & Ha2 & Hn2 & Hq2).
    exists (d1 ++ d2), (l1 ++ l2)%list, (n1 ++ n2)%list, (s1 ++ s2)%list, r2.
    rewrite !map_app. split; [now rewrite Ho2, Ho1, append_assoc|].
    split; [now apply id_reads_app|]. split; [now apply merge_app|].
    split; [now rewrite Hi2, app_assoc|].
    split; [|split; [auto|]].
    + destruct Ha2 as [Ha2|[a Ha2]]; [left | right; exists a];
        rewrite Ha2, Hx1, <- !app_assoc; reflexivity.
    + intros y Hy. destruct (Hq2 y Hy) as (Hr & Hrest & Hy2).
      repeat split; [assumption | assumption |].
      now rewrite Hy2, Hx1, <- !app_assoc.
  - exists d1, l1, n1, s1, (r1 ++ i2)%list.
    repeat (split; [first [assumption | now rewrite Hi1, app_assoc]|]).
    discriminate.
Qed.

Lemma spans_then {A B} (m : M A) (f : A -> M B) (i : list string)
    (Q : A -> Prop) (R : B -> Prop) :
  spans m [] Q -> (forall x, Q x -> spans (f x) i R) -> spans (bind m f) i R.
Proof. intros Hm Hf. exact (spans_bind m f [] i Q R Hm Hf). Qed.

Lemma spans_last {A B} (m : M A) (f : A -> M B) (i : list string)
    (Q : A -> Prop) (R : B -> Prop) :
  spans m i Q -> (forall x, Q x -> spans (f x) [] R) -> spans (bind m f) i R.
Proof.
  intros Hm Hf. rewrite <- (app_nil_r i). exact (spans_bind m f i [] Q R Hm Hf).
Qed.

Lemma span_ids_falsy (x : json) : py_truthy x = false -> span_ids x = [].
Proof. intros H. destruct x; try reflexivity. unfold span_ids. now rewrite H. Qed.

(** The span of an identifier. *)
Lemma spans_identifier (x : json) :
  spans (if py_truthy x
         then id <- lift (py_html_escape x) ;; emit (span_id_open id)
         else ret tt) (span_ids x) any.
Proof.
  destruct (py_truthy x) eqn:Hx.
  - intros st. rewrite bind_run. unfold lift.
    destruct x as [| | |s| |]; cbn [py_html_escape span_ids];
      try (nothing_written (@nil string);
           split; [now left|]; split; [auto | discriminate]).
    exists (span_id_open (html_escape s)), [html_escape s], [], [html_escape s], [].
    cbn [emit fst snd out anchors set_out map]. rewrite Hx, !app_nil_r.
    split; [reflexivity|].
    split; [apply id_reads_span_id_open, value_ok_html_escape|].
    split; [apply merge_nil_l|].
    split; [reflexivity|]. split; [now left|]. split; [auto|]. now intros.
  - rewrite (span_ids_falsy x Hx). now apply spans_ret.
Qed.

Lemma get_anchor_err name prefix context st e st' :
  get_anchor name prefix context st = (Err e, st') -> st' = st.
Proof.
  unfold get_anchor, bind, lift.
  destruct (anchor_candidate name prefix context) as [anchor|e0]; [|now intros [= _ <-]].
  destruct (set_mem anchor (anchors st)) as [[|]|e0]; try discriminate.
  now intros [= _ <-].
Qed.

(** An anchor and its span: the anchor that is handed out is recorded and
    its span is opened at once. *)
Lemma spans_anchor {B} (m : M json) (k : json -> M B) (idents : list string)
    (R : B -> Prop) :
  (m = ret JNull \/ exists name prefix context, m = get_anchor name prefix context) ->
  (forall anchor, spans (k anchor) idents R) ->
  spans (anchor <- m ;;
         (if py_truthy anchor
          then id <- lift (py_html_escape anchor) ;; emit (span_id_open id)
          else ret tt) ;;
         k anchor) idents R.
Proof.
  intros Hm Hk st. rewrite bind_run.
  assert (Hnull : forall s,
             (bind (if py_truthy JNull
                    then id <- lift (py_html_escape JNull) ;; emit (span_id_open id)
                    else ret tt) (fun _ => k JNull)) s = k JNull s)
    by reflexivity.
  destruct Hm as [->|(name & prefix & context & ->)].
  { cbn [ret]. rewrite Hnull. apply Hk. }
  pose proof (get_anchor_nodup name prefix context st) as Hnodup.
  unfold post in Hnodup.
  destruct (get_anchor name prefix context st) as [[a|e] st1] eqn:Hrun.
  - apply get_anchor_run in Hrun as [[-> ->] | (Ht & Hh & Hnew & ->)].
    { rewrite Hnull. apply Hk. }
    rewrite bind_run, Ht, bind_run. unfold lift.
    destruct a as [| | |s| |]; cbn [py_html_escape];
      try (nothing_written idents;
           split; [right; eexists; reflexivity|];
           split; [exact Hnodup | discriminate]).
    cbn [emit].
    set (st2 := set_out _ _).
    destruct (Hk (JStr s) st2)
      as (d & l & names & shown & rest & Ho & Hr & Hmg & Hi & Ha & Hnd & Hq).
    exists (span_id_open (html_escape s) ++ d), (html_escape s :: l),
      (s :: names), shown, rest.
    split; [rewrite Ho; subst st2; cbn [out set_out set_anchors]; now rewrite append_assoc|].
    split; [exact (id_reads_app _ _ [html_escape s] l
                     (id_reads_span_id_open _ (value_ok_html_escape s)) Hr)|].
    split; [cbn [map]; now constructor|]. split; [assumption|].
    assert (anchors st2 = (anchors st ++ [JStr s])%list) as Hst2 by reflexivity.
    split; [|split].
    + destruct Ha as [Ha|[a Ha]]; [left | right; exists a];
        rewrite Ha, Hst2; cbn [map]; now rewrite <- !app_assoc.
    + intros Hst. apply Hnd. rewrite Hst2. exact (Hnodup Hst).
    + intros x Hx. destruct (Hq x Hx) as (HR & Hrest & Hax).
      repeat split; [assumption | assumption |].
      rewrite Hax, Hst2. cbn [map]. now rewrite <- !app_assoc.
  - apply get_anchor_err in Hrun as ->.
    nothing_written idents.
    split; [now left|]. split; [auto | discriminate].
Qed.

Section Spans.

Variable urlopen : network.

Lemma spans_get_doc_url typ name context :
  spans (get_doc_url urlopen typ name context) [] (fun r => css_ok (snd r)).
Proof.
  apply spans_silent.
  - intros st.
    destruct (get_doc_url_frame urlopen typ name context st) as (Ha & _ & Ho). auto.
  - intros st [[u sub] css] H. eapply get_doc_url_css, H.
Qed.

Lemma spans_link (href v cls : string) :
  lt_free href = true -> lt_free cls = true ->
  spans (emit (a_open href) ;; emit (string_ v cls) ;; emit "</a>") [] any.
Proof.
  intros Hh Hc.
  eapply spans_then; [now apply spans_emit, id_free_a_open | intros _ _].
  eapply spans_then; [now apply spans_emit, id_free_string_ | intros _ _].
  now apply spans_emit, id_freeb_sound.
Qed.

Lemma write_str_spans v context typ :
  spans (write_str urlopen v context typ) [] any.
Proof.
  unfold write_str.
  eapply spans_then; [apply spans_get_doc_url|].
  intros [[u sub] css] Hcss; cbn [snd] in Hcss.
  eapply spans_then with (Q := any); [apply spans_silent; now intros |].
  intros [|] _.
  - apply spans_link; [cbn [lt_free append]; apply lt_free_html_escape | reflexivity].
  - destruct u as [url|].
    + apply spans_link; [apply lt_free_html_escape|].
      now apply known_class_lt_free, css_ok_format.
    + destruct (_ || _).
      * apply spans_link; [apply lt_free_html_escape | reflexivity].
      * now apply spans_emit, id_free_string_.
Qed.

Section Methods.

Variable write_value' : json -> nat -> json -> option kind -> M unit.

Lemma write_key_value_body_spans k v indent context :
  (forall i c t, spans (write_value' v i c t) (identifier_ids v) any) ->
  spans (write_key_value_body urlopen write_value' k v indent context)
        (identifier_ids v) any.
Proof.
  intros Hv. unfold write_key_value_body.
  apply (spans_anchor (get_anchor (JStr k) "property" context)
           (fun anchor =>
              emit (indent_str indent) ;;
              ' (doc_url, sub_context, css_class)
                  <- get_doc_url urlopen (Some Properties) k context ;;
              match doc_url with
              | Some url => emit (a_open (html_escape url))
              | None => ret tt
              end ;;
              emit (string_ k (match css_class with Some c => c | None => "string" end)) ;;
              match doc_url with
              | Some _ => emit "</a>"
              | None => ret tt
              end ;;
              emit (COLON ++ " ") ;;
              write_value' v indent sub_context
                (if String.eqb k "type" then Some Classes else None) ;;
              emit_if (py_truthy anchor) "</span>")); [right; eauto|].
  intros anchor.
  eapply spans_then; [apply spans_emit, lt_free_id_free, lt_free_indent | intros _ _].
  eapply spans_then; [apply spans_get_doc_url|].
  intros [[u sub] css] Hcss; cbn [snd] in Hcss.
  eapply spans_then with (Q := any).
  { destruct u; [|now apply spans_ret].
    apply spans_emit, id_free_a_open, lt_free_html_escape. }
  intros _ _.
  eapply spans_then;
    [apply spans_emit, id_free_string_, known_class_lt_free, css_ok_or_string, Hcss
    | intros _ _].
  eapply spans_then with (Q := any).
  { destruct u; [|now apply spans_ret]. now apply spans_emit, id_freeb_sound. }
  intros _ _.
  eapply spans_then; [now apply spans_emit, id_freeb_sound | intros _ _].
  eapply spans_last; [apply Hv | intros _ _].
  now apply spans_emit_if, id_freeb_sound.
Qed.

Lemma write_items_spans lst indent context :
  Forall (fun v => forall i c t, spans (write_value' v i c t) (identifier_ids v) any)
         lst ->
  spans (write_items write_value' lst indent context)
        (flat_map identifier_ids lst) any.
Proof.
  induction 1 as [|v rest Hv Hrest IH]; cbn [write_items flat_map];
    [now apply spans_ret|].
  eapply spans_then; [apply spans_emit, lt_free_id_free, lt_free_indent | intros _ _].
  eapply spans_bind; [apply Hv | intros _ _].
  destruct rest; [now apply spans_emit, id_freeb_sound|].
  eapply spans_then; [now apply spans_emit, id_freeb_sound | intros _ _].
  eapply spans_then; [now apply spans_emit, id_freeb_sound | intros _ _].
  exact IH.
Qed.

Lemma write_pairs_spans items indent context :
  Forall (fun kv => forall i c t,
              spans (write_value' (snd kv) i c t) (identifier_ids (snd kv)) any)
         items ->
  spans (write_pairs urlopen write_value' items indent context)
        (flat_map (fun kv => identifier_ids (snd kv)) items) any.
Proof.
  induction 1 as [|[k v] rest Hv Hrest IH]; cbn [write_pairs flat_map];
    [now apply spans_ret|].
  eapply spans_bind; [now apply write_key_value_body_spans | intros _ _].
  destruct rest; [now apply spans_emit, id_freeb_sound|].
  eapply spans_then; [now apply spans_emit, id_freeb_sound | intros _ _].
  eapply spans_then; [now apply spans_emit, id_freeb_sound | intros _ _].
  exact IH.
Qed.

Lemma write_obj_body_spans obj indent context :
  Forall (fun kv => forall i c t,
              spans (write_value' (snd kv) i c t) (identifier_ids (snd kv)) any)
         obj ->
  spans (write_obj_body urlopen write_value' obj indent context)
        (identifier_ids (JObj obj)) any.
Proof.
  intros Hobj. unfold write_obj_body. cbn [identifier_ids].
  apply (spans_anchor
           (match dict_get "type" obj with
            | Some t => get_anchor t "class" context
            | None => ret JNull
            end)
           (fun anchor =>
              obj_id <- lift (get_obj_id (JObj obj)) ;;
              (if py_truthy obj_id then
                 id <- lift (py_html_escape obj_id) ;; emit (span_id_open id)
               else ret tt) ;;
              let external_obj_id := dict_get_default "externalSpdxId" obj JNull in
              (if py_truthy external_obj_id then
                 id <- lift (py_html_escape external_obj_id) ;; emit (span_id_open id)
               else ret tt) ;;
              emit LBRACE ;;
              newline ;;
              write_pairs urlopen write_value' obj indent context ;;
              emit (indent_str indent ++ RBRACE) ;;
              emit_if (py_truthy external_obj_id) "</span>" ;;
              emit_if (py_truthy obj_id) "</span>" ;;
              emit_if (py_truthy anchor) "</span>")).
  { destruct (dict_get "type" obj); [right; eauto | now left]. }
  intros anchor.
  eapply spans_then
    with (Q := fun x => x = dict_get_default "@id" obj
                              (dict_get_default "spdxId" obj JNull)).
  { apply spans_lift. now intros x [= <-]. }
  intros ? ->.
  eapply spans_bind; [apply spans_identifier | intros _ _]. cbv zeta.
  eapply spans_bind; [apply spans_identifier | intros _ _].
  eapply spans_then; [now apply spans_emit, id_freeb_sound | intros _ _].
  eapply spans_then; [now apply spans_emit, id_freeb_sound | intros _ _].
  eapply spans_last; [now apply write_pairs_spans | intros _ _].
  eapply spans_then; [exact (spans_emit _ (id_free_closing indent (Close Brace)))
                     | intros _ _].
  eapply spans_then; [now apply spans_emit_if, id_freeb_sound | intros _ _].
  eapply spans_then; [now apply spans_emit_if, id_freeb_sound | intros _ _].
  now apply spans_emit_if, id_freeb_sound.
Qed.

End Methods.

Lemma write_value_spans v : forall indent context typ,
  spans (write_value urlopen v indent context typ) (identifier_ids v) any.
Proof.
  induction v using json_induction; intros indent context typ;
    cbn [write_value identifier_ids].
  - now apply spans_emit, id_free_span_class.
  - apply spans_emit, id_free_span_class; [reflexivity | now destruct b].
  - apply spans_emit, id_free_span_class; [reflexivity | apply lt_free_dumps_int].
  - apply write_str_spans.
  - unfold write_list_body.
    eapply spans_then; [now apply spans_emit, id_freeb_sound | intros _ _].
    eapply spans_then; [now apply spans_emit, id_freeb_sound | intros _ _].
    eapply spans_last; [now apply write_items_spans | intros _ _].
    exact (spans_emit _ (id_free_closing indent (Close Bracket))).
  - now apply write_obj_body_spans.
Qed.

End Spans.

Lemma index_data_resets (data : dict) (st : state) :
  anchors (snd (index_data data st)) = [].
Proof.
  change (index_data data st) with (index_data data (set_ids [] (set_anchors [] st))).
  pose proof (index_data_keeps (fun s => anchors s = []) (fun _ s => anchors s = [])
                (fun e s H => H) (fun s s0 H => H) (fun s _ => eq_refl) data
                (set_ids [] (set_anchors [] st)) eq_refl) as H.
  unfold post in H.
  destruct (index_data data (set_ids [] (set_anchors [] st))) as [[[]|e] s0]; exact H.
Qed.

Section AnchorsWritten.

Variable urlopen : network.

(** [write] is [index_data] followed by the writing of the page. *)
Lemma write_after_index (data : dict) (context_doc : json) :
  exists page : M unit,
    (forall st, write urlopen data context_doc st
                = bind (index_data data) (fun _ => page) st)
    /\ spans page (identifier_ids (JObj data)) any.
Proof.
  eexists. split; [intros st; unfold write; reflexivity|].
  do 9 (eapply spans_then; [now apply spans_emit, id_freeb_sound | intros _ _]).
  eapply spans_then with (Q := any); [now apply spans_lift | intros context _].
  eapply spans_last; [|intros _ _; now apply spans_emit, id_freeb_sound].
  exact (write_value_spans urlopen (JObj data) 0 context None).
Qed.

(** C2, amended: no anchor is written twice.  Whether a render returns or
    is aborted, the ids of the spans in the text it has written are, in
    order, an interleaving of two lists: the class and property anchors
    that [get_anchor] handed out, each written once and no two of them
    equal, and the identifiers and external identifiers of the objects of
    the document in the order they are reached, all of them when the
    render returns.  So an id is written at most once more often than it
    is the identifier or the external identifier of an object: an id that
    is none is written at most once. *)
Theorem anchors_written_once (data : dict) (context_doc : json) (st : state) :
  exists text names shown rest,
    out (snd (write urlopen data context_doc st)) = out st ++ text
    /\ merge (map html_escape names) shown (emitted_ids text)
    /\ NoDup (map html_escape names)
    /\ Forall (fun n => In (JStr n) (anchors (snd (write urlopen data context_doc st))))
              names
    /\ identifier_ids (JObj data) = (shown ++ rest)%list
    /\ (fst (write urlopen data context_doc st) = Ok tt ->
        rest = [] /\ anchors (snd (write urlopen data context_doc st)) = map JStr names)
    /\ forall x, count_occ string_dec (emitted_ids text) x
                 <= 1 + count_occ string_dec (identifier_ids (JObj data)) x.
Proof.
  destruct (write_after_index data context_doc) as (page & Hw & Hpage).
  rewrite Hw, bind_run.
  pose proof (index_data_same_io data st) as (Ho0 & _).
  pose proof (index_data_resets data st) as Ha0.
  destruct (index_data data st) as [[[]|e] s0]; cbn [snd fst] in *.
  - destruct (Hpage s0)
      as (d & l & names & shown & rest & Ho & Hr & Hm & Hi & Ha & Hnd & Hq).
    assert (emitted_ids d = l) as Hl.
    { specialize (Hr EmptyString). cbn [emitted_ids] in Hr.
      now rewrite append_nil_r, app_nil_r in Hr. }
    rewrite Ha0 in Ha, Hnd, Hq. cbn [app] in Ha, Hq.
    assert (NoDup (map html_escape names)) as Hnames.
    { apply NoDup_map_inj; [apply html_escape_inj|].
      specialize (Hnd (NoDup_nil _)).
      destruct Ha as [Ha|[a Ha]]; rewrite Ha in Hnd.
      - now apply NoDup_map_inv in Hnd.
      - apply NoDup_remove_1 in Hnd. rewrite app_nil_r in Hnd.
        now apply NoDup_map_inv in Hnd. }
    exists d, names, shown, rest. rewrite Hl.
    split; [now rewrite Ho, Ho0|]. split; [assumption|]. split; [assumption|].
    split; [|split; [assumption|split]].
    + apply Forall_forall. intros n Hn.
      destruct Ha as [Ha|[a Ha]]; rewrite Ha; [|apply in_or_app; left];
        now apply in_map.
    + intros Hok. destruct (Hq tt Hok) as (_ & Hrest & Hexact). auto.
    + intros x. rewrite (merge_count _ _ _ x Hm), Hi, count_occ_app.
      rewrite (NoDup_count_occ string_dec) in Hnames. specialize (Hnames x). lia.
  - exists EmptyString, [], [], (identifier_ids (JObj data)).
    rewrite append_nil_r. cbn [map emitted_ids count_occ app].
    split; [assumption|]. split; [constructor|]. split; [constructor|].
    split; [constructor|]. split; [reflexivity|]. split; [discriminate|].
    intros x. lia.
Qed.

End AnchorsWritten.

(** ** Objects: the pairs in source order (C9) *)

Section PairLines.

Variable urlopen : network.

Lemma write_key_value_line k v indent context st st' :
  write_key_value urlopen k v (indent + 1) context st = (Ok tt, st') ->
  exists seg, out st' = out st ++ seg /\ pair_line urlopen indent context (k, v) seg.
Proof.
  unfold write_key_value, write_key_value_body. intros H.
  apply bind_ok in H as (anchor & s1 & Ha & H).
  pose proof (get_anchor_frame (JStr k) "property" context st) as (_ & _ & Ho1 & _).
  rewrite Ha in Ho1; cbn [snd] in Ho1.
  apply bind_ok in H as ([] & s2 & Hspan & H).
  apply span_open_text in Hspan as [Ho2 Hc2].
  apply bind_ok in H as ([] & s3 & Hind & H). apply emit_ok in Hind.
  apply bind_ok in H as ([[u sub] css] & s4 & Hdoc & H).
  pose proof (get_doc_url_frame urlopen (Some Properties) k context s3) as (_ & _ & Ho4).
  rewrite Hdoc in Ho4; cbn [snd] in Ho4.
  apply bind_ok in H as ([] & s5 & Hlink & H).
  assert (out s5 = out s4 ++ link_open u) as Ho5.
  { destruct u; [now apply emit_ok in Hlink|].
    inversion Hlink. subst. cbn [link_open]. now rewrite append_nil_r. }
  apply bind_ok in H as ([] & s6 & Hkey & H). apply emit_ok in Hkey.
  apply bind_ok in H as ([] & s7 & Hclose & H).
  assert (out s7 = out s6 ++ link_close u) as Ho7.
  { destruct u; [now apply emit_ok in Hclose|].
    inversion Hclose. subst. cbn [link_close]. now rewrite append_nil_r. }
  apply bind_ok in H as ([] & s8 & Hcolon & H). apply emit_ok in Hcolon.
  apply bind_ok in H as ([] & s9 & Hval & H).
  apply emit_if_text in H as Ho10.
  assert (exists value, out s9 = out s8 ++ value) as [value Ho9].
  { pose proof (write_value_appends urlopen v (indent + 1) sub
                  (if String.eqb k "type" then Some Classes else None) s8) as Hv.
    now rewrite Hval in Hv. }
  exists (id_span_open anchor ++ indent_str (indent + 1) ++ link_open u
          ++ string_ k (match css with Some c => c | None => "string" end)
          ++ link_close u ++ (COLON ++ " ") ++ value ++ id_span_close anchor).
  split.
  - rewrite Ho10, Ho9, Hcolon, Ho7, Hkey, Ho5, Ho4, Hind, Ho2, Ho1.
    rewrite Hc2. now rewrite !append_assoc.
  - exists anchor, u, sub, css, value, st, s1, s3, s4, s8, s9. cbn [fst snd]. auto.
Qed.

Lemma write_pairs_lines items indent context st st' :
  write_pairs urlopen (write_value urlopen) items indent context st = (Ok tt, st') ->
  exists segs, out st' = out st ++ joined segs
               /\ Forall2 (pair_line urlopen indent context) items segs.
Proof.
  revert st. induction items as [|[k v] rest IH]; intros st H; cbn [write_pairs] in H.
  - inversion H; subst. exists []. split; [now rewrite append_nil_r | constructor].
  - apply bind_ok in H as ([] & s1 & Hkv & H).
    apply write_key_value_line in Hkv as (seg & Ho1 & Hseg).
    destruct rest as [|kv' rest'].
    + apply emit_ok in H. exists [seg]. split.
      * cbn [joined]. now rewrite H, Ho1, append_assoc.
      * repeat constructor. exact Hseg.
    + apply bind_ok in H as ([] & s2 & Hcomma & H). apply emit_ok in Hcomma.
      apply bind_ok in H as ([] & s3 & Hnl & H). apply emit_ok in Hnl.
      apply IH in H as (segs & Ho & Hsegs).
      exists (seg :: segs). split.
      * rewrite Ho, Hnl, Hcomma, Ho1.
        destruct segs as [|seg' segs']; [inversion Hsegs|].
        cbn [joined]. now rewrite !append_assoc.
      * constructor; assumption.
Qed.

(** C9: the text of an object that was written without an exception is
    the spans of its class anchor and of its identifiers, the opening
    brace, one line for each pair in the order of the source, the closing
    brace at the indentation of the object, and the ends of the spans.
    The line of a pair is its anchor span, the indentation, the label of
    its key, the colon and the rendering of its value; the lines are
    [joined]: a comma and a newline follow every line but the last, a
    newline alone follows the last, and an object without pairs has no
    line. *)
Theorem write_obj_pairs_in_order (obj : dict) (indent : nat) (context : json)
    (st st' : state) :
  write_obj urlopen obj indent context st = (Ok tt, st') ->
  let obj_id := dict_get_default "@id" obj (dict_get_default "spdxId" obj JNull) in
  let external_obj_id := dict_get_default "externalSpdxId" obj JNull in
  exists anchor segs,
    out st' = out st
              ++ (id_span_open anchor ++ id_span_open obj_id
                  ++ id_span_open external_obj_id)
              ++ LBRACE ++ NL ++ joined segs ++ (indent_str indent ++ RBRACE)
              ++ (id_span_close external_obj_id ++ id_span_close obj_id
                  ++ id_span_close anchor)
    /\ Forall2 (pair_line urlopen indent context) obj segs
    /\ match dict_get "type" obj with
       | Some t => exists s, get_anchor t "class" context st = (Ok anchor, s)
       | None => anchor = JNull
       end.
Proof.
  intros H obj_id external_obj_id. unfold write_obj, write_obj_body in H.
  apply bind_ok in H as (anchor & s1 & Ha & H).
  assert (out s1 = out st) as Ho1.
  { destruct (dict_get "type" obj) as [t|]; [|now inversion Ha].
    pose proof (get_anchor_frame t "class" context st) as (_ & _ & Hf & _).
    now rewrite Ha in Hf. }
  apply bind_ok in H as ([] & s2 & Hs2 & H). apply span_open_text in Hs2 as [Ho2 Hc2].
  apply bind_ok in H as (obj_id' & s3 & Hid & H).
  unfold lift in Hid.
  assert (s3 = s2) as -> by now inversion Hid.
  assert (obj_id' = obj_id) as -> by (cbn in Hid; now inversion Hid).
  apply bind_ok in H as ([] & s4 & Hs4 & H). apply span_open_text in Hs4 as [Ho4 Hc4].
  cbv zeta in H. fold external_obj_id in H.
  apply bind_ok in H as ([] & s5 & Hs5 & H). apply span_open_text in Hs5 as [Ho5 Hc5].
  apply bind_ok in H as ([] & s6 & Hs6 & H). apply emit_ok in Hs6.
  apply bind_ok in H as ([] & s7 & Hs7 & H). apply emit_ok in Hs7.
  apply bind_ok in H as ([] & s8 & Hpairs & H).
  apply write_pairs_lines in Hpairs as (segs & Ho8 & Hsegs).
  apply bind_ok in H as ([] & s9 & Hs9 & H). apply emit_ok in Hs9.
  apply bind_ok in H as ([] & s10 & Hs10 & H). apply emit_if_text in Hs10 as Ho10.
  apply bind_ok in H as ([] & s11 & Hs11 & H). apply emit_if_text in Hs11 as Ho11.
  apply emit_if_text in H as Ho12.
  exists anchor, segs. split; [|split; [assumption|]].
  - rewrite Ho12, Ho11, Ho10, Hs9, Ho8, Hs7, Hs6, Ho5, Ho4, Ho2, Ho1.
    rewrite Hc2, Hc4, Hc5. now rewrite !append_assoc.
  - destruct (dict_get "type" obj) as [t|]; [eauto | now inversion Ha].
Qed.

End PairLines.

(** C9 on the object with the keys [a] and [b], in this order. *)
Lemma write_obj_pairs_in_order_witness :
  exists anchor segs,
    out (snd (write_obj net_reachable [("a", JNum 1); ("b", JNum 2)] 0 (JObj [])
                init_state))
    = out init_state
      ++ (id_span_open anchor ++ id_span_open JNull ++ id_span_open JNull)
      ++ LBRACE ++ NL ++ joined segs ++ (indent_str 0 ++ RBRACE)
      ++ (id_span_close JNull ++ id_span_close JNull ++ id_span_close anchor)
    /\ Forall2 (pair_line net_reachable 0 (JObj [])) [("a", JNum 1); ("b", JNum 2)] segs
    /\ anchor = JNull.
Proof.
  apply (write_obj_pairs_in_order net_reachable [("a", JNum 1); ("b", JNum 2)] 0
           (JObj []) init_state
           (snd (write_obj net_reachable [("a", JNum 1); ("b", JNum 2)] 0 (JObj [])
                   init_state))).
  lazy. reflexivity.
Defined.

(** ** A string that is not an identifier *)

Lemma str_add_self (s : string) (l : list string) : In s (str_add s l).
Proof.
  unfold str_add. destruct (str_mem s l) eqn:Hmem.
  - now apply str_mem_In.
  - apply in_or_app. right. now left.
Qed.

(** A link tells the class of its label. *)
Lemma link_class (h1 h2 v c1 c2 : string) :
  value_ok h1 = true -> value_ok h2 = true ->
  value_ok c1 = true -> value_ok c2 = true ->
  a_open h1 ++ string_ v c1 ++ "</a>" = a_open h2 ++ string_ v c2 ++ "</a>" ->
  h1 = h2 /\ c1 = c2.
Proof.
  intros Hh1 Hh2 Hc1 Hc2 H.
  assert (forall h r, a_open h ++ r = ("<a href=" ++ dq) ++ h ++ String dquote (">" ++ r))
    as Hopen by (intros h r; unfold a_open; now rewrite !append_assoc).
  rewrite !Hopen in H. apply append_inv_head in H.
  assert (h1 = h2) as <-.
  { apply (f_equal until_quote) in H. now rewrite !until_quote_value in H. }
  split; [reflexivity|].
  apply append_inv_head in H. injection H as H.
  rewrite !append_assoc in H. cbn [append] in H.
  apply (f_equal until_quote) in H. now rewrite !until_quote_value in H.
Qed.

Section PlainStrings.

Variable urlopen : network.

Lemma get_doc_url_some typ name context st url sub css st1 :
  get_doc_url urlopen typ name context st = (Ok (Some url, sub, css), st1) ->
  doc_page url /\ In url (checked_urls st1)
  /\ exists t, css = Some (PyStr.lower (kind_name t)).
Proof.
  unfold get_doc_url. intros H.
  apply bind_ok in H as ([sub' found] & s1 & Hres & H).
  unfold lift in Hres. injection Hres as _ <-.
  destruct found as [[rdf_uri t]|]; [|discriminate H].
  apply bind_ok in H as (u & s2 & Hurl & H).
  unfold lift in Hurl. injection Hurl as Hurl <-.
  destruct u as [url'|]; [|discriminate H].
  apply bind_ok in H as ([] & s3 & Hcheck & H).
  injection H as <- <- <- <-.
  split; [now apply doc_url_page in Hurl|]. split; [|eauto].
  unfold check_url in Hcheck.
  destruct (str_mem url' (checked_urls st)).
  - injection Hcheck as <-. apply str_add_self.
  - destruct (urlopen (requests st) url') as [|[]]; try discriminate Hcheck.
    + injection Hcheck as <-. apply str_add_self.
    + destruct (code =? 404)%Z; discriminate Hcheck.
Qed.

Lemma get_doc_url_none typ name context st sub css st1 :
  get_doc_url urlopen typ name context st = (Ok (None, sub, css), st1) -> st1 = st.
Proof.
  unfold get_doc_url. intros H.
  apply bind_ok in H as ([sub' found] & s1 & Hres & H).
  unfold lift in Hres. injection Hres as _ <-.
  destruct found as [[rdf_uri t]|]; [|now injection H].
  apply bind_ok in H as (u & s2 & Hurl & H).
  unfold lift in Hurl. injection Hurl as Hurl <-.
  destruct u as [url'|]; [|now injection H].
  apply bind_ok in H as ([] & s3 & Hcheck & H). discriminate H.
Qed.

(** X15: a string that is not in the index.  It is written as the link to
    its documentation page when [get_doc_url] resolves it: the target is
    the URL of a page of the model documentation that is in the cache when
    the link is written, and the class of the label is the kind of the
    page.  A string that does not resolve is written as a link to itself
    when it begins with [http://] or [https://], and as a plain literal
    when not; no request is made for it.  Nothing is written when the
    resolution raises.  The three renderings differ from each other, so
    that the text tells which one applied. *)
Theorem string_value_rendering (v : string) (indent : nat) (context : json)
    (typ : option kind) (st : state) :
  set_has (JStr v) (ids st) = false ->
  match get_doc_url urlopen typ v context st with
  | (Ok (Some url, _, css), st1) =>
      write_value urlopen (JStr v) indent context typ st
      = (Ok tt, set_out (out st ++ doc_link url v (py_format css)) st1)
      /\ doc_page url /\ In url (checked_urls st1)
      /\ In (py_format css) ["classes"; "properties"; "vocabularies"]
  | (Ok (None, _, _), st1) =>
      write_value urlopen (JStr v) indent context typ st
      = (Ok tt,
         set_out (out st ++ if PyStr.startswith v "http://"
                               || PyStr.startswith v "https://"
                            then external_link v else plain_literal v) st)
      /\ st1 = st
  | (Err e, st1) =>
      write_value urlopen (JStr v) indent context typ st = (Err e, st1)
      /\ out st1 = out st
  end
  /\ (forall url css, In css ["classes"; "properties"; "vocabularies"] ->
                      doc_link url v css <> external_link v)
  /\ (forall url css, doc_link url v css <> plain_literal v)
  /\ external_link v <> plain_literal v.
Proof.
  intros Hmem. split; [|split; [|split]].
  - cbn [write_value]. rewrite write_str_run, Hmem.
    pose proof (get_doc_url_frame urlopen typ v context st) as (_ & _ & Hout).
    destruct (get_doc_url urlopen typ v context st) as [[[[[url|] sub] css]|e] st1] eqn:Hrun;
      cbn [snd] in Hout.
    + cbn [string_rendering].
      apply get_doc_url_some in Hrun as (Hpage & Hin & t & ->).
      repeat (split; [assumption || reflexivity|]).
      destruct t; cbn; auto.
    + apply get_doc_url_none in Hrun as ->. cbn [string_rendering]. auto.
    + auto.
  - intros url css Hcss H. unfold doc_link, external_link in H.
    apply link_class in H as [_ ->]; try apply value_ok_html_escape; try reflexivity.
    + cbn in Hcss. destruct Hcss as [H|[H|[H|[]]]]; discriminate H.
    + cbn in Hcss. destruct Hcss as [<-|[<-|[<-|[]]]]; reflexivity.
  - intros url css H.
    apply (f_equal (String.get 1)) in H. discriminate H.
  - intros H. apply (f_equal (String.get 1)) in H. discriminate H.
Qed.

End PlainStrings.

(** X15 on a string that resolves to the page of a property. *)
Lemma string_value_rendering_witness :
  let url := DOC_BASE ++ "Core/Properties/name" in
  let st1 := mkState [] [] [url] EmptyString [url] in
  write_value net_reachable (JStr "name") 0 (JObj plain_context) (Some Properties)
    init_state
  = (Ok tt, set_out (out init_state ++ doc_link url "name" "properties") st1)
  /\ doc_page url /\ In url (checked_urls st1)
  /\ In "properties" ["classes"; "properties"; "vocabularies"].
Proof.
  intros url st1.
  assert (get_doc_url net_reachable (Some Properties) "name" (JObj plain_context)
            init_state
          = (Ok (Some url, JObj plain_context, Some "properties"), st1)) as Hrun
      by (vm_compute; reflexivity).
  destruct (string_value_rendering net_reachable "name" 0 (JObj plain_context)
              (Some Properties) init_state eq_refl) as [H _].
  rewrite Hrun in H. exact H.
Defined.
